(* ===== verification/_CoqProject ===== *)
-Q . S2P
Prelude.v
Lexical.v
Grammar.v
Repeat.v
JsValue.v
Tokens.v
Json.v
Config.v
Reload.v
CssColor.v
Palette.v
CssDimension.v
Typography.v
CssShadow.v
Shadows.v
CssGradient.v
Gradients.v
Naming.v
Extend.v
Glob.v
Content.v
