(* ===== verification/Prelude.v ===== *)
(** * Verification of the gradient-app Tailwind theme configuration

    ** The program

    The repository's one source file, [src/tailwind.config.js], is a
    CommonJS module whose single statement assigns an object literal to
    [module.exports].  The literal has three properties:

    - [content] (lines 3-6): the ordered list of glob patterns that tell
      the styling framework which files to scan for class names;
    - [theme] (lines 7-59): an object with the one property [extend],
      itself an object of eight token categories ([colors],
      [backgroundImage], [boxShadow], [fontFamily], [fontSize],
      [fontWeight], [letterSpacing], [borderRadius]), each an object
      from token name to a literal (a string, a number, or, for
      [fontFamily.sans], an array of strings);
    - [plugins] (line 60): an empty array.

    The file has no functions, no control flow and no state: evaluating
    it builds one JavaScript value.  What can go wrong in such a file is
    what a reader of a design-token table looks for by eye: a token
    name written twice (the later silently wins), a key that JavaScript
    would reorder, a colour or a length that is not a CSS value, a value
    of the wrong JavaScript type.  This development makes each of these
    a theorem about the value the file denotes.

    ** Files

    The files are listed in the order in which they depend on each
    other.  Those marked (source) hold definitions that transcribe
    lines of [src/tailwind.config.js]; the others are the vocabulary in
    which the theorems speak of the source, and the theorems.

    - [Prelude] (this file): what every file shares.  Association lists
      with the last binding winning (the semantics of a repeated key in
      an object literal) and their relation to stdpp's [gmap]; bytes as
      two hexadecimal digits; the tactics [reflect_decide] and
      [inv_some]; the hint databases [theme] and [theme_rw].
    - [Lexical]: characters and numerals as the values of the table use
      them: digit classes, decimal numerals that keep their digits
      ([0.10] and [0.1] are different texts of the same number),
      hexadecimal bytes, the parser type with its monad, the primitive
      parsers with their inversion lemmas, and the interface [Codec]: a
      printer, a parser, and the law that parsing a printed value
      followed by an admissible rest gives the value and the rest back.
    - [Grammar]: grammars as relations between a text and the value it
      denotes, and what it means for a parser to implement a grammar
      ([parses]: every text of the grammar is read back when what
      follows is admissible, and nothing else is read).  One
      composition lemma for each parser combinator of [Lexical], so
      that the correctness of a parser is proved along its definition.
    - [Repeat]: optional parts, repetition and lists with separators,
      as parsers (on fuel) and grammars, with their composition lemmas.
    - [JsValue]: the JavaScript values a literal of strings, numbers,
      arrays and nested objects denotes ([value]), their induction
      principle and decidable equality, property access ([get],
      [get_path]), the order in which an object enumerates its keys
      ([own_keys], array-index keys first), the view of an object as a
      finite map ([obj_to_map]) and the well-formedness invariant
      [wf_value] (no key bound twice, no array-index key, exact
      numbers, all the way down) with its executable check.
    - [Tokens]: a category of the table read through a [Codec]:
      [read], [write], [decode], [encode], [all_tokens], and their
      laws, proved once for every grammar.
    - [Json]: [JSON.stringify] and [JSON.parse] on the values of
      [JsValue], and the round trip on well-formed values.
    - [Config] (source): the transcription of
      [src/tailwind.config.js], one definition per property of the
      literal, named as in the source ([content], [colors],
      [backgroundImage], [boxShadow], [fontFamily], [fontSize],
      [fontWeight], [letterSpacing], [borderRadius], [extend],
      [theme], [plugins], [module_exports]); what the table is expected
      to be ([tokens_of], [token_kind], [config_shape], [table_ok]);
      lemmas on any table that passes [table_ok]; and the theorems on
      the structure of the source.
    - [Reload]: the configuration written as JSON and read back.
    - [CssColor]: colours.  The grammar [#RRGGBB] and
      [rgba(r, g, b, a)] as an inductive relation ([color_text]), the
      parser [p_color] and the printer [print_color], the proof that
      the parser accepts exactly the grammar, and that a printed colour
      parses back to itself.
    - [Palette]: the tokens of [colors] read as colours, and the
      theorems on them.
    - [CssDimension]: dimensions, a number immediately followed by a
      unit, with grammar, parser, printer and their agreement; CSS
      identifiers.
    - [Typography]: the tokens of [fontSize], [letterSpacing],
      [borderRadius], [fontWeight] and [fontFamily] read as dimensions,
      weights and family names, and the theorems on them.
    - [CssShadow]: shadow lists.  Layers of items (lengths, a colour,
      [inset]) with grammar, parser and printer, and the assembly of a
      layer into a [shadow] with offsets, blur, spread, colour.
    - [Shadows]: the tokens of [boxShadow] read as shadow lists, and
      the theorems on them.
    - [CssGradient]: linear gradients, an angle and colour stops, with
      grammar, parser and printer.
    - [Gradients]: the tokens of [backgroundImage] read as gradients,
      and the theorems on them.
    - [Naming]: the names of the tokens: the characters they are made
      of, the convention of each category, the tokens for the state
      under the pointer, the numbered scales, and the class names the
      table contributes under the prefixes of the framework.
    - [Extend]: what [theme.extend] means to the framework, for an
      arbitrary default theme: [resolve_category] and [resolve_token].
    - [Glob]: the pattern language of [content]: brace expansion,
      patterns of segments with [*] and [**], matching as a function
      ([match_glob]) and as a relation ([glob_matches]), and their
      agreement.
    - [Content]: the strings of [content] read as patterns, and the
      theorems on the paths they select.

    ** How the model corresponds to the source

    Each of the thirteen definitions of the first part of [Config] is
    the source text of one property with the JavaScript syntax replaced
    by constructors of [JsValue.value]: a quoted string is [VString], a
    numeric literal [VNumber] (the two numerals of the file are
    integers, kept as [Z]), [[...]] is [VArray] and [{...}] is
    [VObject] with its properties in source order.  An object is kept
    as the list of its properties as written, so that the question "is
    a name bound twice" can be asked of the model; [Prelude.assoc_get]
    gives the value JavaScript would give (the last binding).
    PROJECT.json maps each of these definitions to its lines.  All
    other definitions model no line of the repository: they say what an
    object literal means, what JSON text is, which texts are CSS
    colours, dimensions, shadows and gradients, what a glob pattern
    selects, and what the framework documents of its reading of the
    table ([Extend.resolve_category], [Naming.utilities]).

    ** What the theorems show

    A theorem on the source evaluates a check on the transcribed table
    inside its own proof and then reasons with the lemmas of the
    library, so it holds of the table as written and fails when the
    table is changed against it.

    - Structure ([Config]): the literal is well formed; a token is
      found under [theme.extend.<category>.<name>] exactly when the
      source writes it, with the value written; enumeration follows the
      source; every token has the JavaScript kind of its category; the
      exported object has the shape the framework reads.
    - Serialisation ([Json], [Reload]): a well-formed value written as
      JSON and read back is the same value; so is the exported object.
    - Colours ([CssColor], [Palette]): [p_color] accepts exactly
      [color_text]; every token of [colors] is a colour with channels
      and alpha in range, written in canonical spelling, so that
      decoding and encoding the table is the identity on it; which
      tokens are translucent, which have a hue, how the scales are
      ordered (the background scale is not monotone in its numbers).
    - Typography ([CssDimension], [Typography]): [p_dimension] accepts
      exactly [dimension_text]; every size, spacing and radius is a
      dimension in pixels in canonical text; sizes are ordered; the
      letter spacing is one percent of the font size; weights are valid
      CSS weights; the family list ends in a generic family.
    - Shadows ([CssShadow], [Shadows]): [p_shadow_list] accepts exactly
      [g_shadow_list]; the items a shadow is assembled from are its own
      items; every token of [boxShadow] is a list of shadows in
      canonical spacing; every layer is cast straight down in
      translucent black or white; which tokens write [inset] last.
    - Gradients ([CssGradient], [Gradients]): [p_gradient] accepts
      exactly [g_gradient]; every token of [backgroundImage] is a
      gradient in canonical spacing that fades from top to bottom; the
      gradient under the pointer is the resting one, more opaque.
    - Names ([Naming]): every token name needs no escaping in a class
      name and follows the convention of its category; a token for the
      state under the pointer has its resting token beside it; the
      numbered scales count from 1 without a gap; the class names of
      the table are pairwise different.
    - Merge ([Extend]): for every default theme, the resolved theme
      has every token that [theme.extend] does not write as the
      default theme has it: the source replaces no category.
    - Scanned files ([Glob], [Content]): [match_glob] decides
      [glob_matches]; printed pieces and printed patterns are read
      back; the patterns of [content] select [index.html] and the
      files below [src] with one of five endings, and a scanned path
      matches exactly one entry of the list of patterns.

    ** Bounds and fuel

    The parsers of colours and dimensions, the reader of braces
    ([Glob.p_braces]) and the matchers ([Glob.match_atoms],
    [Glob.match_glob], which try every split of the text a wildcard may
    stand for) recurse structurally on their input or on the pattern,
    or run a fixed number of steps.  Two parsers recurse on
    fuel: [Repeat.p_many], which repeats a part until it fails, and
    [Json.p_json], which descends into nested arrays and objects.  Each
    is given one more unit of fuel than its input has characters.  That
    is enough: a round of [p_many] consumes a character whenever its
    part does ([Repeat.p_many_total]: the fuel does not run out), and
    [Json.p_json_stringify] reads a written value back with any fuel
    above the length of its text.  With more fuel the result of
    [p_many] does not change ([Repeat.p_many_fuel_mono]).
    Numbers are unbounded ([Z], [N], decimal numerals); where CSS or
    JavaScript bounds them (colour channels below 256, alpha within
    [0, 1], array indices below 2^32 - 1, safe integers within
    2^53 - 1, font weights from 1 to 1000) the bound is part of the
    well-formedness predicate of the type.

    ** Not modelled

    The styling framework that reads the configuration, the bundler
    and the module loader are not part of the repository, and their
    code is not modelled: not the generation of the style sheet, not
    the walk over the file system, not the search for class names in
    the files.  Of the framework the development states only the
    rules the configuration is written against: the merge of
    [theme.extend] over a default theme ([Extend]), the prefixes of
    the class names ([Naming]) and the meaning of the glob patterns
    ([Glob], the subset without nested groups, character classes and
    negation).  The default theme itself is a variable, and so is the
    treatment of hidden files.  The JSDoc type
    annotation of line 1, which a type checker reads and the program
    does not, is not modelled.  The grammars are the subsets of CSS
    that the table uses; each grammar file says what it leaves out. *)

From Stdlib Require Export ZArith Ascii.
From stdpp Require Export base tactics option list strings gmap.

#[export] Set Warnings "-clear-no-such-hyp".
#[export] Set Warnings "-register-all".

(** ** Automation *)

Create HintDb theme discriminated.

(** [reflect_decide] proves a decidable closed proposition by evaluating
    its decision procedure. *)
Ltac reflect_decide :=
  apply (bool_decide_unpack _); vm_compute; exact I.

(** [inv_some] turns hypotheses [Some x = Some y], [None = Some _] and
    pairs of equal tuples into substitutions. *)
Ltac inv_some :=
  repeat match goal with
  | H : Some _ = Some _ |- _ => injection H as H; try subst
  | H : (_, _) = (_, _) |- _ => injection H as ? H; try subst
  | H : None = Some _ |- _ => discriminate H
  | H : Some _ = None |- _ => discriminate H
  end.

(** ** Bytes as two hexadecimal digits *)

Lemma byte_high_lt (n : N) : (n < 256 → n / 16 < 16)%N.
Proof. intros. apply N.Div0.div_lt_upper_bound. lia. Qed.

Lemma byte_low_lt (n : N) : (n mod 16 < 16)%N.
Proof. apply N.mod_lt. lia. Qed.

Lemma byte_digits (n : N) : (16 * (n / 16) + n mod 16 = n)%N.
Proof. symmetry. apply N.div_mod'. Qed.

(** ** Lists *)

Lemma forallb_Forall {A} (f : A → bool) (l : list A) :
  forallb f l = true ↔ Forall (λ x, f x = true) l.
Proof.
  induction l as [|x l IH]; simpl; [by split|].
  by rewrite andb_true_iff, Forall_cons, IH.
Qed.

Lemma Forall_iff_compat {A} (P Q : A → Prop) (l : list A) :
  Forall (λ x, P x ↔ Q x) l → Forall P l ↔ Forall Q l.
Proof. induction 1; rewrite ?Forall_cons; naive_solver. Qed.

Lemma filter_all {A} (P : A → Prop) `{∀ x, Decision (P x)} (l : list A) :
  Forall P l → filter P l = l.
Proof.
  induction 1 as [|x l Hx _ IH]; [done|].
  by rewrite filter_cons_True, IH.
Qed.

(** A list without repetition whose elements are all equal has one
    element at most. *)
Lemma NoDup_at_most_one {A} (l : list A) :
  NoDup l → (∀ x y, x ∈ l → y ∈ l → x = y) → length l ≤ 1.
Proof.
  destruct l as [|x [|y l]]; simpl; [lia..|]. intros Hnd Heq.
  apply NoDup_cons in Hnd as [Hx _]. destruct Hx.
  rewrite (Heq x y); [left|left|right; left].
Qed.

(** The elements of a list that satisfy [P], when [P] singles out one
    element at most: there is one if some element satisfies [P], and
    none otherwise. *)
Lemma filter_at_most_one {A} (P : A → Prop) `{∀ x, Decision (P x)} l :
  NoDup l → (∀ x y, x ∈ l → y ∈ l → P x → P y → x = y) →
  length (filter P l) = if decide (Exists P l) then 1 else 0.
Proof.
  intros Hnd Heq.
  assert (length (filter P l) ≤ 1) as Hle.
  { apply NoDup_at_most_one; [by apply NoDup_filter|].
    intros x y [? ?]%list_elem_of_filter [? ?]%list_elem_of_filter. eauto. }
  case_decide as Hex.
  - apply Exists_exists in Hex as (x & Hx & HP).
    assert (x ∈ filter P l) as Hin by by apply list_elem_of_filter.
    destruct (filter P l); [by apply elem_of_nil in Hin|simpl in *; lia].
  - destruct (filter P l) as [|x k] eqn:E; [done|]. destruct Hex.
    assert (x ∈ filter P l) as [? ?]%list_elem_of_filter by (rewrite E; left).
    apply Exists_exists. eauto.
Qed.

Lemma omap_none {A B} (f : A → option B) (l : list A) :
  Forall (λ x, f x = None) l → omap f l = [].
Proof. induction 1 as [|x l Hx _ IH]; simpl; [done|]. by rewrite Hx. Qed.

(** ** Association lists, last binding wins

    An object literal lists its properties in order and a later property
    replaces an earlier one of the same name.  [assoc_get] is the lookup
    with that behaviour. *)

Section assoc.
Context {K : Type} `{EqDecision K} {V : Type}.
Implicit Types (k : K) (v : V) (l : list (K * V)).

Fixpoint assoc_get k l : option V :=
  match l with
  | [] => None
  | (k', v) :: l' =>
      match assoc_get k l' with
      | Some w => Some w
      | None => if decide (k = k') then Some v else None
      end
  end.

(** The bindings of [l] that a lookup can still see: those whose key
    does not occur again further right. *)
Fixpoint assoc_live l : list (K * V) :=
  match l with
  | [] => []
  | (k, v) :: l' =>
      if decide (k ∈ l'.*1) then assoc_live l' else (k, v) :: assoc_live l'
  end.

Lemma assoc_get_app k l1 l2 :
  assoc_get k (l1 ++ l2) =
  match assoc_get k l2 with Some w => Some w | None => assoc_get k l1 end.
Proof.
  induction l1 as [|[k' v] l1 IH]; simpl.
  - by destruct (assoc_get k l2).
  - rewrite IH. by destruct (assoc_get k l2), (assoc_get k l1).
Qed.

Lemma assoc_get_Some_elem k v l : assoc_get k l = Some v → (k, v) ∈ l.
Proof.
  induction l as [|[k' v'] l IH]; simpl; [done|].
  destruct (assoc_get k l) as [w|]; intros ?; simplify_eq.
  - right. by apply IH.
  - case_decide; simplify_eq. left.
Qed.

Lemma assoc_get_None k l : assoc_get k l = None ↔ k ∉ l.*1.
Proof.
  induction l as [|[k' v'] l IH]; simpl.
  - split; [intros _; apply not_elem_of_nil | done].
  - rewrite not_elem_of_cons, <-IH.
    destruct (assoc_get k l); [naive_solver|].
    case_decide; naive_solver.
Qed.

Lemma assoc_get_is_Some k l : is_Some (assoc_get k l) ↔ k ∈ l.*1.
Proof.
  rewrite <-not_eq_None_Some, assoc_get_None.
  destruct (decide (k ∈ l.*1)); naive_solver.
Qed.

Lemma assoc_get_NoDup k v l :
  NoDup l.*1 → (k, v) ∈ l → assoc_get k l = Some v.
Proof.
  induction l as [|[k' v'] l IH]; simpl; [by intros _ ?%elem_of_nil|].
  intros [Hk' Hnd]%NoDup_cons [?|Hin]%elem_of_cons; simplify_eq.
  - apply assoc_get_None in Hk' as ->. by rewrite decide_True.
  - by rewrite (IH Hnd Hin).
Qed.

Lemma assoc_get_NoDup_iff k v l :
  NoDup l.*1 → assoc_get k l = Some v ↔ (k, v) ∈ l.
Proof. split; [apply assoc_get_Some_elem | by apply assoc_get_NoDup]. Qed.

Lemma assoc_live_NoDup_id l : NoDup l.*1 → assoc_live l = l.
Proof.
  induction l as [|[k v] l IH]; simpl; [done|].
  intros [? ?]%NoDup_cons. rewrite decide_False by done. by rewrite IH.
Qed.

Lemma assoc_live_fst_subseteq l : (assoc_live l).*1 ⊆ l.*1.
Proof.
  induction l as [|[k v] l IH]; simpl; [done|].
  case_decide; simpl; set_solver.
Qed.

Lemma assoc_live_NoDup l : NoDup (assoc_live l).*1.
Proof.
  induction l as [|[k v] l IH]; simpl; [constructor|].
  case_decide as Hk; [done|]. simpl. constructor; [|done].
  intros ?%assoc_live_fst_subseteq. done.
Qed.

Lemma assoc_get_live k l : assoc_get k (assoc_live l) = assoc_get k l.
Proof.
  induction l as [|[k' v] l IH]; simpl; [done|].
  case_decide as Hk'; simpl; rewrite IH; [|done].
  destruct (assoc_get k l) eqn:E; [done|].
  case_decide; [|done]. subst. by apply assoc_get_None in E.
Qed.

End assoc.

(** The finite map an association list denotes.  stdpp's [list_to_map]
    lets the first binding win, so the list is reversed first. *)
Definition assoc_to_map {K V} `{Countable K} (l : list (K * V)) : gmap K V :=
  list_to_map (reverse l).

Section assoc_map.
Context {K : Type} `{Countable K} {V : Type}.
Implicit Types (k : K) (v : V) (l : list (K * V)).

Lemma assoc_to_map_snoc l k v :
  assoc_to_map (l ++ [(k, v)]) = <[k:=v]> (assoc_to_map l).
Proof. unfold assoc_to_map. by rewrite reverse_snoc. Qed.

Lemma assoc_to_map_lookup l k : assoc_to_map l !! k = assoc_get k l.
Proof.
  induction l as [|[k' v] l IH] using rev_ind; [done|].
  rewrite assoc_to_map_snoc, assoc_get_app. simpl.
  destruct (decide (k = k')) as [->|Hne].
  - by rewrite lookup_insert_eq.
  - rewrite lookup_insert_ne by done. rewrite IH. by destruct (assoc_get k l).
Qed.

Lemma assoc_to_map_dom l : dom (assoc_to_map l) = list_to_set l.*1.
Proof.
  apply set_eq. intros k.
  rewrite elem_of_dom, assoc_to_map_lookup, assoc_get_is_Some.
  by rewrite elem_of_list_to_set.
Qed.

Lemma assoc_to_map_size l : NoDup l.*1 → size (assoc_to_map l) = length l.
Proof.
  intros Hnd. rewrite <-size_dom, assoc_to_map_dom.
  rewrite size_list_to_set by done. by rewrite length_fmap.
Qed.

Lemma assoc_to_map_live l : assoc_to_map (assoc_live l) = assoc_to_map l.
Proof.
  apply map_eq. intros k. by rewrite !assoc_to_map_lookup, assoc_get_live.
Qed.

End assoc_map.

#[export] Hint Resolve assoc_get_Some_elem assoc_get_NoDup : theme.
Create Rewrite HintDb theme_rw.
#[export] Hint Rewrite @assoc_get_live @assoc_to_map_lookup : theme_rw.
