(* ===== verification/Lexical.v ===== *)
(** * Lexical: characters, numerals and parsers of CSS values

    The values of the token table are CSS texts: [#1E1E1E],
    [rgba(255, 255, 255, 0.13)], [11.5px], [-0.115px].  This file holds
    what their grammars share:

    - character classes (digits, hexadecimal digits, blanks);
    - decimal numerals as Stdlib's [Decimal.uint], which keeps the
      digits as written ([0.20] and [0.2] are different texts of the
      same number), with printer [chars_of_uint] and reader
      [uint_of_chars];
    - CSS numbers [number]: a sign, an integer part and an optional
      fraction, with their value as a rational;
    - hexadecimal bytes;
    - the parser type, its monad (stdpp's [mret] and [≫=], so parsers
      are written with [x ← p; q]), and the primitive parsers;
    - the interface [Codec]: a printer, a parser, the well-formedness
      predicate of the values and the law that ties them.

    Nothing here translates source lines: these are the definitions the
    theorems on the table's values are stated with. *)

From Stdlib Require Import Decimal DecimalN QArith.
From S2P Require Import Prelude.

#[local] Open Scope char_scope.

Abbreviation chars := (list ascii).

Definition chars_of (s : string) : chars := String.list_ascii_of_string s.
Definition string_of (cs : chars) : string := String.string_of_list_ascii cs.

(** ** Character classes *)

Definition digit_of_ascii (c : ascii) : option (uint → uint) :=
  match c with
  | "0" => Some D0 | "1" => Some D1 | "2" => Some D2 | "3" => Some D3
  | "4" => Some D4 | "5" => Some D5 | "6" => Some D6 | "7" => Some D7
  | "8" => Some D8 | "9" => Some D9 | _ => None
  end.

Definition is_digit (c : ascii) : bool :=
  match digit_of_ascii c with Some _ => true | None => false end.

(** The value of a hexadecimal digit, in either case, from its code:
    [0]-[9] are 48-57, [A]-[F] are 65-70, [a]-[f] are 97-102. *)
Definition hex_val (c : ascii) : option N :=
  let n := N_of_ascii c in
  if (48 <=? n)%N && (n <=? 57)%N then Some (n - 48)%N
  else if (65 <=? n)%N && (n <=? 70)%N then Some (n - 55)%N
  else if (97 <=? n)%N && (n <=? 102)%N then Some (n - 87)%N
  else None.

(** The upper-case hexadecimal digit of a value below 16. *)
Definition hex_upper (d : N) : ascii :=
  ascii_of_N (if (d <? 10)%N then 48 + d else 55 + d).

(** CSS white space: space, tab, line feed, form feed, carriage return. *)
Definition is_space (c : ascii) : bool :=
  match c with
  | " " | "009" | "010" | "012" | "013" => true
  | _ => false
  end.

(** Whether the text begins with a character of the class. *)
Definition starts_with {A} (f : A → bool) (cs : list A) : bool :=
  match cs with c :: _ => f c | [] => false end.

(** The longest prefix of characters of the class, and the rest. *)
Fixpoint span {A} (f : A → bool) (cs : list A) : list A * list A :=
  match cs with
  | c :: cs' =>
      if f c then let '(a, b) := span f cs' in (c :: a, b) else ([], cs)
  | [] => ([], [])
  end.

(** The words of a text, split at each separator: a text with [n]
    separators has [n + 1] words, some of which may be empty. *)
Fixpoint split_on (sep : ascii) (s : chars) : list chars :=
  match s with
  | [] => [[]]
  | c :: s' =>
      if decide (c = sep) then [] :: split_on sep s'
      else match split_on sep s' with
           | w :: ws => (c :: w) :: ws
           | [] => [[c]]
           end
  end.

(** The words joined again, with a separator between two of them. *)
Fixpoint join_with (sep : ascii) (ws : list chars) : chars :=
  match ws with
  | [] => []
  | [w] => w
  | w :: ws' => w ++ sep :: join_with sep ws'
  end.

(** ** Decimal numerals *)

Fixpoint chars_of_uint (u : uint) : chars :=
  match u with
  | Nil => []
  | D0 u => "0" :: chars_of_uint u | D1 u => "1" :: chars_of_uint u
  | D2 u => "2" :: chars_of_uint u | D3 u => "3" :: chars_of_uint u
  | D4 u => "4" :: chars_of_uint u | D5 u => "5" :: chars_of_uint u
  | D6 u => "6" :: chars_of_uint u | D7 u => "7" :: chars_of_uint u
  | D8 u => "8" :: chars_of_uint u | D9 u => "9" :: chars_of_uint u
  end.

Fixpoint uint_of_chars (cs : chars) : option uint :=
  match cs with
  | [] => Some Nil
  | c :: cs' =>
      d ← digit_of_ascii c; u ← uint_of_chars cs'; Some (d u)
  end.

#[export] Instance uint_eq_dec : EqDecision uint.
Proof. solve_decision. Defined.

(** A numeral is canonical when it is the one [N.to_uint] prints: no
    leading zero, and [0] for zero. *)
Definition canonical_uint (u : uint) : bool :=
  bool_decide (unorm u = u).

(** ** CSS numbers

    The subset of the CSS number token the table uses: an optional minus
    sign, one or more digits, and optionally a point and one or more
    digits.  [num_frac = Nil] stands for "no fraction". *)

Record number : Type := Number {
  num_neg : bool;
  num_int : uint;
  num_frac : uint;
}.

#[export] Instance number_eq_dec : EqDecision number.
Proof. solve_decision. Defined.

Definition wf_number (n : number) : Prop := num_int n ≠ Nil.

Definition print_frac (f : uint) : chars :=
  match f with
  | Nil => []
  | _ => "." :: chars_of_uint f
  end.

Definition print_number (n : number) : chars :=
  (if num_neg n then ["-"] else []) ++ chars_of_uint (num_int n) ++
  print_frac (num_frac n).

(** The number as the fraction [num_scaled n / 10 ^ num_places n]. *)
Definition num_places (n : number) : N := N.of_nat (nb_digits (num_frac n)).

Definition num_scaled (n : number) : Z :=
  let m := (Z.of_N (N.of_uint (num_int n)) * 10 ^ Z.of_N (num_places n)
            + Z.of_N (N.of_uint (num_frac n)))%Z in
  if num_neg n then (- m)%Z else m.

Definition number_to_Q (n : number) : Q :=
  Qmake (num_scaled n) (Z.to_pos (10 ^ Z.of_N (num_places n))).

(** Comparisons of rationals are decided by evaluation. *)
#[export] Instance Qeq_decision (x y : Q) : Decision (x == y)%Q.
Proof. unfold Qeq. apply _. Defined.

#[export] Instance Qle_decision (x y : Q) : Decision (x <= y)%Q.
Proof. unfold Qle. apply _. Defined.

#[export] Instance Qlt_decision (x y : Q) : Decision (x < y)%Q.
Proof. unfold Qlt. apply _. Defined.

(** The characters that would change how a number is read if they
    followed it: a digit or a point. *)
Definition continues_number (c : ascii) : bool :=
  is_digit c || bool_decide (c = ".").

(** ** Hexadecimal bytes *)

Definition print_hex_byte (n : N) : chars :=
  [hex_upper (n / 16); hex_upper (n mod 16)]%N.

(** ** Parsers

    A parser reads a prefix of the text and returns a value and the
    rest, or fails. *)

Definition parser (A : Type) : Type := chars → option (A * chars).

#[export] Instance parser_ret : MRet parser := λ A a s, Some (a, s).
#[export] Instance parser_bind : MBind parser := λ A B f p s,
  match p s with Some (a, s') => f a s' | None => None end.
#[export] Instance parser_fmap : FMap parser := λ A B f p s,
  match p s with Some (a, s') => Some (f a, s') | None => None end.

Definition p_fail {A} : parser A := λ _, None.

(** The given text, literally. *)
Fixpoint p_lit (l : chars) : parser () :=
  match l with
  | [] => mret ()
  | c :: l' => λ s,
      match s with
      | c' :: s' => if decide (c = c') then p_lit l' s' else None
      | [] => None
      end
  end.

(** Zero or more blanks. *)
Definition p_ws : parser () := λ s, Some ((), (span is_space s).2).

(** One or more digits. *)
Definition p_uint : parser uint := λ s,
  match span is_digit s with
  | ([], _) => None
  | (ds, rest) => u ← uint_of_chars ds; Some (u, rest)
  end.

(** An optional minus sign. *)
Definition p_sign : parser bool := λ s,
  match s with
  | c :: s' => if decide (c = "-") then Some (true, s') else Some (false, s)
  | [] => Some (false, s)
  end.

(** A point and digits, when the text goes on with them. *)
Definition p_frac : parser uint := λ s,
  match s with
  | c :: s' =>
      if decide (c = ".") then
        match p_uint s' with
        | Some (f, rest) => Some (f, rest)
        | None => Some (Nil, s)
        end
      else Some (Nil, s)
  | [] => Some (Nil, s)
  end.

Definition p_number : parser number :=
  neg ← p_sign; i ← p_uint; f ← p_frac; mret (Number neg i f).

Definition p_hex_byte : parser N := λ s,
  match s with
  | h :: l :: rest =>
      a ← hex_val h; b ← hex_val l; Some ((16 * a + b)%N, rest)
  | _ => None
  end.

(** The first parser, or the second when the first fails. *)
Definition p_or {A} (p q : parser A) : parser A := λ s,
  match p s with Some r => Some r | None => q s end.

(** The values of a parser that pass a test. *)
Definition p_filter {A} (ok : A → bool) (p : parser A) : parser A := λ s,
  match p s with
  | Some (a, rest) => if ok a then Some (a, rest) else None
  | None => None
  end.

(** The first keyword of the table that the text begins with. *)
Fixpoint p_keyword {A} (table : list (chars * A)) : parser A :=
  match table with
  | [] => p_fail
  | (k, a) :: table' => p_or ((λ _, a) <$> p_lit k) (p_keyword table')
  end.

(** Run a parser on a whole string: it must consume all of it. *)
Definition parse_all {A} (p : parser A) (s : string) : option A :=
  match p (chars_of s) with
  | Some (a, []) => Some a
  | _ => None
  end.

(** ** The codec interface

    What a grammar of this development promises to its clients: the
    values it prints are read back, whatever admissible text follows,
    and what it reads is well formed.  [codec_follow] says which texts
    may follow a printed value without changing how it is read (after a
    numeral, anything but another digit). *)

Class Codec (A : Type) : Type := {
  codec_wf : A → Prop;
  codec_follow : chars → Prop;
  print : A → chars;
  parse : parser A;
  parse_print a rest :
    codec_wf a → codec_follow rest → parse (print a ++ rest) = Some (a, rest);
  parse_wf s a rest : parse s = Some (a, rest) → codec_wf a;
  follow_nil : codec_follow [];
}.
#[global] Hint Mode Codec ! : typeclass_instances.

(** Whether a string is the canonical text of a value of the grammar. *)
Definition canonical (A : Type) `{Codec A} (s : string) : Prop :=
  ∃ a : A, parse_all parse s = Some a ∧ string_of (print a) = s.

(** ** Lemmas: strings and characters *)

Lemma string_of_chars_of s : string_of (chars_of s) = s.
Proof. apply String.string_of_list_ascii_of_string. Qed.

Lemma chars_of_string_of cs : chars_of (string_of cs) = cs.
Proof. apply String.list_ascii_of_string_of_list_ascii. Qed.

Lemma length_string_of cs : String.length (string_of cs) = length cs.
Proof. induction cs as [|c cs IH]; simpl; [done|]. by rewrite <-IH. Qed.

Lemma chars_of_app s1 s2 : chars_of (s1 +:+ s2) = chars_of s1 ++ chars_of s2.
Proof. induction s1 as [|c s1 IH]; simpl; [done|]. by rewrite <-IH. Qed.

Lemma chars_of_inj s1 s2 : chars_of s1 = chars_of s2 → s1 = s2.
Proof.
  intros E. by rewrite <-(string_of_chars_of s1), E, string_of_chars_of.
Qed.

Lemma span_spec {A} (f : A → bool) cs a b :
  span f cs = (a, b) →
  cs = a ++ b ∧ forallb f a = true ∧ starts_with f b = false.
Proof.
  revert a b. induction cs as [|c cs IH]; intros a b; simpl.
  - by intros [= <- <-].
  - destruct (f c) eqn:Hc.
    + destruct (span f cs) as [a' b'] eqn:E. intros [= <- <-].
      destruct (IH _ _ eq_refl) as (-> & ? & ?). simpl. by rewrite Hc.
    + intros [= <- <-]. simpl. by rewrite Hc.
Qed.

Lemma span_app {A} (f : A → bool) a b :
  forallb f a = true → starts_with f b = false → span f (a ++ b) = (a, b).
Proof.
  intros Ha Hb. induction a as [|c a IH]; simpl in *.
  - destruct b as [|c b]; simpl in *; [done|]. by rewrite Hb.
  - apply andb_prop in Ha as [-> Ha]. by rewrite IH.
Qed.

Lemma span_stop {A} (f : A → bool) s :
  starts_with f s = false → span f s = ([], s).
Proof. apply (span_app f []). done. Qed.

Lemma split_on_nonempty sep s : split_on sep s ≠ [].
Proof. destruct s as [|c s]; simpl; repeat case_match; done. Qed.

Lemma join_with_cons sep w ws :
  ws ≠ [] → join_with sep (w :: ws) = w ++ sep :: join_with sep ws.
Proof. by destruct ws. Qed.

Lemma join_split sep s : join_with sep (split_on sep s) = s.
Proof.
  induction s as [|c s IH]; [done|]. simpl.
  pose proof (split_on_nonempty sep s) as Hne. case_decide as Hc.
  - rewrite join_with_cons by done. simpl. by rewrite IH, Hc.
  - destruct (split_on sep s) as [|w [|w' ws]]; [done|..].
    + simpl in *. by rewrite IH.
    + change (c :: join_with sep (w :: w' :: ws) = c :: s). by rewrite IH.
Qed.

Lemma split_on_free sep s : Forall (λ w, sep ∉ w) (split_on sep s).
Proof.
  induction s as [|c s IH]; simpl.
  - repeat constructor. by intros ?%elem_of_nil.
  - case_decide as Hc.
    + constructor; [by intros ?%elem_of_nil|done].
    + pose proof (split_on_nonempty sep s) as Hne.
      destruct (split_on sep s) as [|w ws]; [done|].
      apply Forall_cons in IH as [Hw Hws]. constructor; [|done].
      intros [->|?]%elem_of_cons; done.
Qed.

Lemma split_on_word sep w : sep ∉ w → split_on sep w = [w].
Proof.
  induction w as [|c w IH]; [done|]. intros Hw. simpl.
  rewrite decide_False by (intros ->; apply Hw; left).
  rewrite IH; [done|]. intros ?. apply Hw. by right.
Qed.

Lemma split_on_app sep w s :
  sep ∉ w → split_on sep (w ++ sep :: s) = w :: split_on sep s.
Proof.
  induction w as [|c w IH]; intros Hw; simpl.
  - by rewrite decide_True.
  - rewrite decide_False by (intros ->; apply Hw; left).
    rewrite IH; [done|]. intros ?. apply Hw. by right.
Qed.

Lemma split_join sep ws :
  ws ≠ [] → Forall (λ w, sep ∉ w) ws → split_on sep (join_with sep ws) = ws.
Proof.
  induction ws as [|w ws IH]; [done|]. intros _ [Hw Hws]%Forall_cons.
  destruct (decide (ws = [])) as [->|Hne]; [by apply split_on_word|].
  rewrite join_with_cons, split_on_app by done. by rewrite IH.
Qed.

Lemma hex_val_upper d : (d < 16)%N → hex_val (hex_upper d) = Some d.
Proof.
  intros Hd. destruct d as [|p]; [done|].
  do 4 (destruct p as [p|p|]; try done); lia.
Qed.

Lemma hex_val_bound c d : hex_val c = Some d → (d < 16)%N.
Proof.
  unfold hex_val. intros H. repeat case_match; simplify_eq;
    repeat match goal with
    | H : _ && _ = true |- _ => apply andb_prop in H as [?%N.leb_le ?%N.leb_le]
    end; lia.
Qed.

(** ** Lemmas: numerals *)

Lemma digit_of_ascii_chars c d u :
  digit_of_ascii c = Some d → chars_of_uint (d u) = c :: chars_of_uint u.
Proof.
  destruct c as [[] [] [] [] [] [] [] []]; simpl; intros ?; by simplify_eq.
Qed.

Lemma chars_of_uint_digits u : forallb is_digit (chars_of_uint u) = true.
Proof. induction u; simpl; by rewrite ?IHu. Qed.

Lemma uint_of_chars_of_uint u : uint_of_chars (chars_of_uint u) = Some u.
Proof. induction u; simpl; [done|..]; by rewrite IHu. Qed.

Lemma chars_of_uint_of_chars cs u :
  uint_of_chars cs = Some u → chars_of_uint u = cs.
Proof.
  revert u. induction cs as [|c cs IH]; intros u; simpl.
  - by intros [= <-].
  - destruct (digit_of_ascii c) as [d|] eqn:Hd; [|done]. simpl.
    destruct (uint_of_chars cs) as [u'|]; [|done]. simpl. intros [= <-].
    by rewrite (digit_of_ascii_chars _ _ _ Hd), (IH u').
Qed.

Lemma uint_of_chars_digits cs :
  forallb is_digit cs = true → is_Some (uint_of_chars cs).
Proof.
  induction cs as [|c cs IH]; simpl; [by eexists|].
  intros [Hc Hcs]%andb_prop. unfold is_digit in Hc.
  destruct (digit_of_ascii c) as [d|]; [|done]. by destruct (IH Hcs) as [u ->].
Qed.

Lemma chars_of_uint_nil u : chars_of_uint u = [] → u = Nil.
Proof. by destruct u. Qed.

Lemma N_to_uint_nonnil n : N.to_uint n ≠ Nil.
Proof. destruct n; [done|]. apply DecimalPos.Unsigned.to_uint_nonnil. Qed.

Lemma N_to_uint_canonical n : canonical_uint (N.to_uint n) = true.
Proof.
  apply bool_decide_eq_true.
  by rewrite <-DecimalN.Unsigned.to_of, DecimalN.Unsigned.of_to.
Qed.

Lemma chars_of_uint_inj u1 u2 : chars_of_uint u1 = chars_of_uint u2 → u1 = u2.
Proof.
  intros E. apply (inj Some).
  by rewrite <-(uint_of_chars_of_uint u1), E, uint_of_chars_of_uint.
Qed.

(** ** Lemmas: primitive parsers *)

Lemma p_lit_app l rest : p_lit l (l ++ rest) = Some ((), rest).
Proof. induction l as [|c l IH]; simpl; [done|]. by rewrite decide_True. Qed.

Lemma p_lit_Some l s u rest : p_lit l s = Some (u, rest) → s = l ++ rest.
Proof.
  revert s. induction l as [|c l IH]; intros s; simpl.
  - by intros [= _ <-].
  - destruct s as [|c' s]; [done|]. case_decide; [|done]. subst.
    intros ?%IH. by subst.
Qed.

Lemma p_ws_skip rest :
  starts_with is_space rest = false → p_ws rest = Some ((), rest).
Proof.
  intros H. unfold p_ws. by rewrite span_stop.
Qed.

Lemma p_ws_space rest :
  starts_with is_space rest = false → p_ws (" " :: rest) = Some ((), rest).
Proof.
  intros H. unfold p_ws. simpl. by rewrite span_stop.
Qed.

Lemma p_uint_print u rest :
  u ≠ Nil → starts_with is_digit rest = false →
  p_uint (chars_of_uint u ++ rest) = Some (u, rest).
Proof.
  intros Hu Hrest. unfold p_uint.
  rewrite span_app by auto using chars_of_uint_digits.
  destruct (chars_of_uint u) eqn:E; [by apply chars_of_uint_nil in E|].
  rewrite <-E, uint_of_chars_of_uint. done.
Qed.

Lemma p_uint_Some s u rest :
  p_uint s = Some (u, rest) →
  u ≠ Nil ∧ s = chars_of_uint u ++ rest ∧ starts_with is_digit rest = false.
Proof.
  unfold p_uint. destruct (span is_digit s) as [ds r] eqn:E.
  apply span_spec in E as (-> & Hds & Hr).
  destruct ds as [|c ds]; [done|].
  destruct (uint_of_chars (c :: ds)) as [u'|] eqn:Hu; [|done].
  simpl. intros [= <- <-]. apply chars_of_uint_of_chars in Hu.
  split_and!; [|by rewrite Hu|done]. intros ->. done.
Qed.

Lemma p_uint_None_no_digit s :
  starts_with is_digit s = false → p_uint s = None.
Proof.
  intros H. unfold p_uint. by rewrite span_stop.
Qed.

(** ** Lemmas: running parsers *)

Lemma bind_run {A B} (p : parser A) (f : A → parser B) s :
  (p ≫= f) s = match p s with Some (a, s') => f a s' | None => None end.
Proof. reflexivity. Qed.

Lemma fmap_run {A B} (f : A → B) (p : parser A) s :
  (f <$> p) s = match p s with Some (a, s') => Some (f a, s') | None => None end.
Proof. reflexivity. Qed.

Lemma ret_run {A} (a : A) s : (mret a : parser A) s = Some (a, s).
Proof. reflexivity. Qed.

Lemma parse_all_Some {A} (p : parser A) s a :
  parse_all p s = Some a ↔ p (chars_of s) = Some (a, []).
Proof.
  unfold parse_all. destruct (p (chars_of s)) as [[a' [|c r]]|]; naive_solver.
Qed.

(** ** Lemmas: numbers *)

Lemma is_digit_not_minus c : is_digit c = true → c ≠ "-".
Proof. by intros Hc ->. Qed.

Lemma is_digit_not_point c : is_digit c = true → c ≠ ".".
Proof. by intros Hc ->. Qed.

Lemma chars_of_uint_starts u rest :
  u ≠ Nil → starts_with is_digit (chars_of_uint u ++ rest) = true.
Proof.
  intros Hu. pose proof (chars_of_uint_digits u) as Hd.
  destruct (chars_of_uint u) as [|c cs] eqn:E; [by apply chars_of_uint_nil in E|].
  simpl in *. by apply andb_prop in Hd as [-> _].
Qed.

Lemma p_sign_print (neg : bool) rest :
  starts_with is_digit rest = true →
  p_sign ((if neg then ["-"] else []) ++ rest) = Some (neg, rest).
Proof.
  intros Hr. destruct neg; simpl; [done|].
  destruct rest as [|c r]; [done|]. simpl in *.
  by rewrite decide_False by by apply is_digit_not_minus.
Qed.

Lemma p_sign_Some s (neg : bool) rest :
  p_sign s = Some (neg, rest) → s = (if neg then ["-"] else []) ++ rest.
Proof.
  unfold p_sign. destruct s as [|c s]; [by intros [= <- <-]|].
  case_decide; intros [= <- <-]; by subst.
Qed.

Lemma p_frac_print f rest :
  starts_with continues_number rest = false →
  p_frac (print_frac f ++ rest) = Some (f, rest).
Proof.
  intros Hr. destruct (decide (f = Nil)) as [->|Hf].
  - simpl. destruct rest as [|c r]; [done|]. simpl in *.
    apply orb_false_elim in Hr as [_ Hc%bool_decide_eq_false].
    by rewrite decide_False.
  - transitivity (p_frac ("." :: chars_of_uint f ++ rest)); [by destruct f|].
    simpl. rewrite p_uint_print; [done..|].
    destruct rest; [done|]. simpl in *. by apply orb_false_elim in Hr as [-> _].
Qed.

Lemma p_frac_Some s f rest :
  p_frac s = Some (f, rest) → s = print_frac f ++ rest.
Proof.
  unfold p_frac. destruct s as [|c s]; [by intros [= <- <-]|].
  case_decide as Hc; [subst c|by intros [= <- <-]].
  destruct (p_uint s) as [[f' r]|] eqn:E; intros [= <- <-]; [|done].
  apply p_uint_Some in E as (Hf & -> & _). by destruct f'.
Qed.

Lemma print_frac_no_digit f rest :
  starts_with continues_number rest = false →
  starts_with is_digit (print_frac f ++ rest) = false.
Proof.
  intros Hr. destruct f; try done. destruct rest; [done|]. simpl in *.
  by apply orb_false_elim in Hr as [-> _].
Qed.

Lemma p_number_print n rest :
  wf_number n → starts_with continues_number rest = false →
  p_number (print_number n ++ rest) = Some (n, rest).
Proof.
  intros Hn Hr. destruct n as [neg i f]. unfold wf_number in Hn.
  unfold p_number, print_number. cbn [num_neg num_int num_frac] in *.
  rewrite <-!app_assoc.
  rewrite bind_run, p_sign_print by by apply chars_of_uint_starts.
  rewrite bind_run, p_uint_print by auto using print_frac_no_digit.
  by rewrite bind_run, p_frac_print.
Qed.

Lemma p_number_Some s n rest :
  p_number s = Some (n, rest) → wf_number n ∧ s = print_number n ++ rest.
Proof.
  unfold p_number. rewrite bind_run.
  destruct (p_sign s) as [[neg r1]|] eqn:E1; [|done]. rewrite bind_run.
  destruct (p_uint r1) as [[i r2]|] eqn:E2; [|done]. rewrite bind_run.
  destruct (p_frac r2) as [[f r3]|] eqn:E3; [|done]. intros [= <- <-].
  apply p_sign_Some in E1 as ->. apply p_uint_Some in E2 as (Hi & -> & _).
  apply p_frac_Some in E3 as ->. split; [done|].
  unfold print_number. cbn [num_neg num_int num_frac]. by rewrite <-!app_assoc.
Qed.

(** ** Lemmas: hexadecimal bytes *)

Lemma p_hex_byte_print n rest :
  (n < 256)%N → p_hex_byte (print_hex_byte n ++ rest) = Some (n, rest).
Proof.
  intros Hn. unfold p_hex_byte, print_hex_byte. simpl.
  rewrite !hex_val_upper by auto using byte_high_lt, byte_low_lt. simpl.
  by rewrite byte_digits.
Qed.

Lemma p_hex_byte_Some s n rest :
  p_hex_byte s = Some (n, rest) → (n < 256)%N ∧ length s = S (S (length rest)).
Proof.
  unfold p_hex_byte. destruct s as [|h [|l r]]; [done..|].
  destruct (hex_val h) as [a|] eqn:Ha; [|done].
  destruct (hex_val l) as [b|] eqn:Hb; [|done]. simpl. intros [= <- <-].
  apply hex_val_bound in Ha, Hb. split; [lia|done].
Qed.

(** ** What every codec gives its clients *)

Section codec.
Context {A : Type} `{Codec A}.
Implicit Types (a b : A) (s : string).

(** A printed value is read back from the whole string. *)
Lemma parse_all_print a :
  codec_wf a → parse_all parse (string_of (print a)) = Some a.
Proof.
  intros Ha. apply parse_all_Some. rewrite chars_of_string_of.
  rewrite <-(app_nil_r (print a)). apply parse_print; [done|apply follow_nil].
Qed.

(** Different values have different texts. *)
Lemma print_inj a b : codec_wf a → codec_wf b → print a = print b → a = b.
Proof.
  intros Ha Hb E. apply (inj Some).
  rewrite <-(parse_all_print a), <-(parse_all_print b) by done. by rewrite E.
Qed.

Lemma canonical_print a : codec_wf a → canonical A (string_of (print a)).
Proof. intros Ha. exists a. by rewrite parse_all_print. Qed.

(** A canonical text is the text of exactly one well-formed value. *)
Lemma canonical_unique s a b :
  codec_wf a → codec_wf b →
  string_of (print a) = s → string_of (print b) = s → a = b.
Proof.
  intros Ha Hb <- E. apply print_inj; [done..|].
  by rewrite <-(chars_of_string_of (print a)), <-E, chars_of_string_of.
Qed.

Lemma canonical_wf s :
  canonical A s → ∃ a, parse_all parse s = Some a ∧ codec_wf a.
Proof.
  intros (a & Hp & _). exists a. split; [done|].
  apply parse_all_Some in Hp. by eapply parse_wf.
Qed.

End codec.
