(* ===== verification/Grammar.v ===== *)
(** * Grammar: grammars as relations and the parsers that decide them

    A grammar says which texts denote which values ([grammar A], a
    relation between a text and a value).  A parser implements a grammar
    ([parses p G follow]) when

    - it reads every text of the grammar when what comes after it
      satisfies [follow] (after a numeral, a further digit would be
      read as part of it, so the rest must be in [avoids is_digit]),
      and
    - whatever it reads is a text of the grammar, and it returns the
      rest untouched.

    The file gives the grammars of the primitive parsers of [Lexical]
    and the rules that compose them: sequence ([parses_bind]), choice
    ([parses_or]), test ([parses_filter]) and mapping ([parses_fmap]).
    The side conditions of sequencing are about the first character of
    what comes next ([g_starts]).  The grammars of colours and lengths
    are built from these, so that their parsers are correct by
    composition. *)

From Stdlib Require Import Decimal.
From S2P Require Import Prelude Lexical.

#[local] Open Scope char_scope.

(** ** Grammars *)

Definition grammar (A : Type) : Type := chars → A → Prop.

(** What may come after a text: anything, or anything that does not
    begin with a character of a class. *)
Definition any_rest : chars → Prop := λ _, True.

Definition avoids (stop : ascii → bool) : chars → Prop :=
  λ rest, starts_with stop rest = false.

Record parses {A} (p : parser A) (G : grammar A) (follow : chars → Prop) : Prop := {
  parses_complete pre a rest :
    G pre a → follow rest → p (pre ++ rest) = Some (a, rest);
  parses_sound s a rest :
    p s = Some (a, rest) → ∃ pre, s = pre ++ rest ∧ G pre a;
}.

(** Every text of the grammar is not empty and begins with a character
    of the class. *)
Definition g_starts {A} (G : grammar A) (first : ascii → bool) : Prop :=
  ∀ s a, G s a → starts_with first s = true.

(** Two classes of characters with no character in common. *)
Definition disjoint_classes (f g : ascii → bool) : Prop :=
  ∀ c, f c = true → g c = false.

Definition g_ret {A} (a : A) : grammar A := λ s x, s = [] ∧ x = a.

Definition g_bind {A B} (G1 : grammar A) (G2 : A → grammar B) : grammar B :=
  λ s b, ∃ s1 s2 a, s = s1 ++ s2 ∧ G1 s1 a ∧ G2 a s2 b.

Definition g_fmap {A B} (f : A → B) (G : grammar A) : grammar B :=
  λ s b, ∃ a, G s a ∧ b = f a.

Definition g_or {A} (G1 G2 : grammar A) : grammar A :=
  λ s a, G1 s a ∨ G2 s a.

Definition g_filter {A} (ok : A → bool) (G : grammar A) : grammar A :=
  λ s a, G s a ∧ ok a = true.

Definition g_lit (l : chars) : grammar () := λ s _, s = l.

Definition blank (w : chars) : Prop := forallb is_space w = true.

Definition g_ws : grammar () := λ s _, blank s.

Definition g_uint : grammar uint := λ s u, u ≠ Nil ∧ s = chars_of_uint u.

Definition g_number : grammar number :=
  λ s n, wf_number n ∧ s = print_number n.

Definition g_hex_byte : grammar N :=
  λ s n, (n < 256)%N ∧ ∃ h l a b,
    s = [h; l] ∧ hex_val h = Some a ∧ hex_val l = Some b ∧ n = (16 * a + b)%N.

(** A keyword of a table, and its value. *)
Definition g_keyword {A} (table : list (chars * A)) : grammar A :=
  λ s a, (s, a) ∈ table.

(** No keyword of the table begins with another keyword of the table:
    reading the first that matches reads the right one. *)
Fixpoint prefix_free {A} (table : list (chars * A)) : bool :=
  match table with
  | [] => true
  | (k, _) :: table' =>
      forallb (λ p, negb (bool_decide (k `prefix_of` p.1)) &&
                    negb (bool_decide (p.1 `prefix_of` k))) table' &&
      prefix_free table'
  end.

(** Classes of first characters. *)
Definition is_char (c : ascii) : ascii → bool := λ c', bool_decide (c' = c).

Definition class_or (f g : ascii → bool) : ascii → bool := λ c, f c || g c.

Definition starts_number : ascii → bool := class_or is_digit (is_char "-").

(** [solve_class] decides a statement about all characters by cases. *)
Ltac solve_class :=
  let c := fresh "c" in
  intros c; destruct c as [[] [] [] [] [] [] [] []]; by vm_compute.

(** ** Lemmas: first characters *)

Lemma starts_with_app {A} (f : A → bool) s rest :
  starts_with f s = true → starts_with f (s ++ rest) = true.
Proof. by destruct s. Qed.

Lemma starts_with_disjoint f g (s : chars) :
  disjoint_classes f g → starts_with f s = true → starts_with g s = false.
Proof. intros Hd. destruct s as [|c s]; [done|]. apply Hd. Qed.

(** What begins with a character outside [stop] does not stop. *)
Lemma g_starts_avoid {A} (G : grammar A) first stop s a rest :
  g_starts G first → disjoint_classes first stop → G s a →
  avoids stop (s ++ rest).
Proof.
  intros Hs Hd HG. eapply starts_with_disjoint; [exact Hd|].
  by eapply starts_with_app, Hs.
Qed.

Lemma blank_app_avoid stop w rest :
  disjoint_classes is_space stop → blank w →
  avoids stop rest → avoids stop (w ++ rest).
Proof.
  unfold avoids. intros Hd Hw Hr. destruct w as [|c w]; [done|]. simpl in *.
  apply Hd. by apply andb_prop in Hw as [-> _].
Qed.

Lemma avoids_nil stop : avoids stop [].
Proof. done. Qed.

Lemma avoids_weaken (stop stop' : ascii → bool) rest :
  (∀ c, stop c = true → stop' c = true) → avoids stop' rest → avoids stop rest.
Proof.
  unfold avoids. intros Hsub Hr. destruct rest as [|c r]; [done|]. simpl in *.
  destruct (stop c) eqn:E; [|done]. by rewrite (Hsub c E) in Hr.
Qed.

Lemma g_starts_weaken {A} (G : grammar A) f g :
  g_starts G f → (∀ c, f c = true → g c = true) → g_starts G g.
Proof.
  intros Hs Hfg s a HG. specialize (Hs s a HG).
  destruct s as [|c s]; [done|]. by apply Hfg.
Qed.

Lemma g_starts_lit c l : g_starts (g_lit (c :: l)) (is_char c).
Proof. intros s [] ->. simpl. by apply bool_decide_eq_true. Qed.

Lemma g_starts_uint : g_starts g_uint is_digit.
Proof.
  intros s u [Hu ->]. rewrite <-(app_nil_r (chars_of_uint u)).
  by apply chars_of_uint_starts.
Qed.

Lemma g_starts_number : g_starts g_number starts_number.
Proof.
  intros s [neg i f] [Hn ->]. unfold print_number, starts_number, class_or.
  cbn [num_neg num_int num_frac]. destruct neg; [done|]. simpl.
  pose proof (chars_of_uint_starts i (print_frac f) Hn) as Hd.
  destruct (chars_of_uint i ++ print_frac f) as [|c r]; [done|].
  simpl in *. by rewrite Hd.
Qed.

Lemma g_starts_bind {A B} (G1 : grammar A) (G2 : A → grammar B) first :
  g_starts G1 first → g_starts (g_bind G1 G2) first.
Proof.
  intros Hs s b (s1 & s2 & a & -> & H1 & _). by eapply starts_with_app, Hs.
Qed.

(** After optional blanks: a blank, or the first character of what
    comes next. *)
Lemma g_starts_ws_bind {B} (G2 : () → grammar B) first :
  (∀ u, g_starts (G2 u) first) →
  g_starts (g_bind g_ws G2) (class_or is_space first).
Proof.
  intros Hs s b (w & s2 & u & -> & Hw & H2). unfold class_or.
  destruct w as [|c w]; simpl in *.
  - specialize (Hs u s2 b H2). destruct s2; [done|]. simpl in *.
    rewrite Hs. apply orb_true_r.
  - by apply andb_prop in Hw as [-> _].
Qed.

Lemma g_starts_fmap {A B} (f : A → B) (G : grammar A) first :
  g_starts G first → g_starts (g_fmap f G) first.
Proof. intros Hs s b (a & HG & _). by eapply Hs. Qed.

Lemma g_starts_filter {A} (ok : A → bool) (G : grammar A) first :
  g_starts G first → g_starts (g_filter ok G) first.
Proof. intros Hs s a [HG _]. by eapply Hs. Qed.

Lemma g_starts_or {A} (G1 G2 : grammar A) f1 f2 :
  g_starts G1 f1 → g_starts G2 f2 → g_starts (g_or G1 G2) (class_or f1 f2).
Proof.
  intros H1 H2 s a [HG|HG]; [apply H1 in HG|apply H2 in HG];
    destruct s as [|c s]; try done; unfold class_or; simpl in *; rewrite HG;
    [done|apply orb_true_r].
Qed.

Lemma disjoint_class_or_l f g h :
  disjoint_classes f h → disjoint_classes g h → disjoint_classes (class_or f g) h.
Proof. intros Hf Hg c [?|?]%orb_prop; auto. Qed.

Lemma disjoint_class_or_r f g h :
  disjoint_classes f g → disjoint_classes f h → disjoint_classes f (class_or g h).
Proof. intros Hg Hh c Hc. unfold class_or. by rewrite (Hg c Hc), (Hh c Hc). Qed.

(** ** Lemmas: texts of a sequence *)

Lemma g_bind_intro {A B} (G1 : grammar A) (G2 : A → grammar B) s1 s2 a b :
  G1 s1 a → G2 a s2 b → g_bind G1 G2 (s1 ++ s2) b.
Proof. intros H1 H2. by exists s1, s2, a. Qed.

(** Optional blanks may be left out. *)
Lemma g_bind_ws_skip {B} (G2 : () → grammar B) s b :
  G2 () s b → g_bind g_ws G2 s b.
Proof. intros H2. by apply (g_bind_intro g_ws G2 [] s ()). Qed.

Lemma g_bind_ret {A B} (G : grammar A) (f : A → B) s a :
  G s a → g_bind G (λ x, g_ret (f x)) s (f a).
Proof.
  intros HG. rewrite <-(app_nil_r s). by apply g_bind_intro with a.
Qed.

(** ** Lemmas: the primitive parsers implement their grammars *)

Lemma parses_weaken {A} (p : parser A) G (follow follow' : chars → Prop) :
  parses p G follow → (∀ rest, follow' rest → follow rest) →
  parses p G follow'.
Proof. intros [Hc Hs] Hsub. split; [|done]. intros pre a rest HG Hr. auto. Qed.

Lemma parses_ret {A} (a : A) follow : parses (mret a) (g_ret a) follow.
Proof.
  split.
  - by intros pre x rest [-> ->] _.
  - intros s x rest [= <- <-]. by exists [].
Qed.

Lemma parses_lit l follow : parses (p_lit l) (g_lit l) follow.
Proof.
  split.
  - intros pre [] rest -> _. apply p_lit_app.
  - intros s [] rest ->%p_lit_Some. by exists l.
Qed.

Lemma parses_ws : parses p_ws g_ws (avoids is_space).
Proof.
  split.
  - intros pre [] rest Hw Hr. unfold p_ws. by rewrite (span_app _ _ _ Hw Hr).
  - intros s [] rest. unfold p_ws. destruct (span is_space s) as [w r] eqn:E.
    intros [= <-]. apply span_spec in E as (-> & Hw & _). by exists w.
Qed.

Lemma parses_uint : parses p_uint g_uint (avoids is_digit).
Proof.
  split.
  - intros pre u rest [Hu ->] Hr. by apply p_uint_print.
  - intros s u rest (Hu & -> & _)%p_uint_Some. by exists (chars_of_uint u).
Qed.

Lemma parses_number : parses p_number g_number (avoids continues_number).
Proof.
  split.
  - intros pre n rest [Hn ->] Hr. by apply p_number_print.
  - intros s n rest [Hn ->]%p_number_Some. by exists (print_number n).
Qed.

Lemma parses_hex_byte follow : parses p_hex_byte g_hex_byte follow.
Proof.
  split.
  - intros pre n rest (Hn & h & l & a & b & -> & Ha & Hb & ->) _.
    simpl. by rewrite Ha, Hb.
  - intros s n rest Hp. pose proof (p_hex_byte_Some _ _ _ Hp) as [Hn _].
    unfold p_hex_byte in Hp. destruct s as [|h [|l r]]; [done..|].
    destruct (hex_val h) as [a|] eqn:Ha; [|done].
    destruct (hex_val l) as [b|] eqn:Hb; [|done]. simpl in Hp.
    injection Hp as <- <-. exists [h; l]. split; [done|].
    split; [done|]. by exists h, l, a, b.
Qed.

(** ** Lemmas: composition *)

Lemma parses_bind {A B} (p1 : parser A) (p2 : A → parser B) G1 G2
    (follow1 follow2 : chars → Prop) :
  parses p1 G1 follow1 → (∀ a, parses (p2 a) (G2 a) follow2) →
  (∀ a s2 b rest, G2 a s2 b → follow2 rest → follow1 (s2 ++ rest)) →
  parses (p1 ≫= p2) (g_bind G1 G2) follow2.
Proof.
  intros [Hc1 Hs1] H2 Hstop. split.
  - intros pre b rest (s1 & s2 & a & -> & HG1 & HG2) Hr.
    rewrite <-app_assoc, bind_run, (Hc1 _ _ _ HG1) by eauto.
    by apply (H2 a).
  - intros s b rest. rewrite bind_run.
    destruct (p1 s) as [[a r1]|] eqn:E1; [|done]. intros E2.
    apply Hs1 in E1 as (s1 & -> & HG1).
    apply (H2 a) in E2 as (s2 & -> & HG2).
    exists (s1 ++ s2). split; [by rewrite app_assoc|]. by exists s1, s2, a.
Qed.

(** Sequence after a parser that needs no look-ahead. *)
Lemma parses_bind_free {A B} (p1 : parser A) (p2 : A → parser B) G1 G2 follow :
  parses p1 G1 any_rest → (∀ a, parses (p2 a) (G2 a) follow) →
  parses (p1 ≫= p2) (g_bind G1 G2) follow.
Proof. intros H1 H2. by eapply parses_bind. Qed.

(** Sequence when what comes next begins with a character at which the
    first parser stops. *)
Lemma parses_bind_starts {A B} (p1 : parser A) (p2 : A → parser B)
    G1 G2 stop1 follow first :
  parses p1 G1 (avoids stop1) → (∀ a, parses (p2 a) (G2 a) follow) →
  (∀ a, g_starts (G2 a) first) → disjoint_classes first stop1 →
  parses (p1 ≫= p2) (g_bind G1 G2) follow.
Proof.
  intros H1 H2 Hs Hd. eapply parses_bind; [done..|].
  intros a s2 b rest HG _. by eapply g_starts_avoid.
Qed.

Lemma parses_fmap {A B} (f : A → B) (p : parser A) G follow :
  parses p G follow → parses (f <$> p) (g_fmap f G) follow.
Proof.
  intros [Hc Hs]. split.
  - intros pre b rest (a & HG & ->) Hr. by rewrite fmap_run, (Hc _ _ _ HG Hr).
  - intros s b rest. rewrite fmap_run.
    destruct (p s) as [[a r]|] eqn:E; [|done]. intros [= <- <-].
    apply Hs in E as (pre & -> & HG). exists pre. split; [done|]. by exists a.
Qed.

Lemma parses_filter {A} (ok : A → bool) (p : parser A) G follow :
  parses p G follow → parses (p_filter ok p) (g_filter ok G) follow.
Proof.
  intros [Hc Hs]. split.
  - intros pre a rest [HG Hok] Hr. unfold p_filter.
    by rewrite (Hc _ _ _ HG Hr), Hok.
  - intros s a rest. unfold p_filter.
    destruct (p s) as [[a' r]|] eqn:E; [|done].
    destruct (ok a') eqn:Hok; [|done]. intros [= <- <-].
    apply Hs in E as (pre & -> & HG). by exists pre.
Qed.

(** Choice: the second grammar is read when the first parser fails on
    its texts. *)
Lemma parses_or {A} (p q : parser A) G1 G2 (follow : chars → Prop) :
  parses p G1 follow → parses q G2 follow →
  (∀ pre a rest, G2 pre a → follow rest → p (pre ++ rest) = None) →
  parses (p_or p q) (g_or G1 G2) follow.
Proof.
  intros [Hc1 Hs1] [Hc2 Hs2] Hfail. split.
  - intros pre a rest [HG|HG] Hr; unfold p_or.
    + by rewrite (Hc1 _ _ _ HG Hr).
    + by rewrite (Hfail _ _ _ HG Hr), (Hc2 _ _ _ HG Hr).
  - intros s a rest. unfold p_or. destruct (p s) as [[a' r]|] eqn:E.
    + intros [= <- <-]. apply Hs1 in E as (pre & -> & HG).
      exists pre. split; [done|]. by left.
    + intros (pre & -> & HG)%Hs2. exists pre. split; [done|]. by right.
Qed.

(** A parser fails on what does not begin like a text of its grammar. *)
Lemma parses_fails {A} (p : parser A) G follow first s :
  parses p G follow → g_starts G first → avoids first s → p s = None.
Proof.
  intros [_ Hs] Hf Hav. destruct (p s) as [[a rest]|] eqn:E; [|done].
  apply Hs in E as (pre & -> & HG). apply Hf in HG. unfold avoids in Hav.
  by rewrite (starts_with_app _ _ _ HG) in Hav.
Qed.

(** Choice between grammars that begin differently. *)
Lemma parses_or_starts {A} (p q : parser A) G1 G2 (follow : chars → Prop) f1 f2 :
  parses p G1 follow → parses q G2 follow →
  g_starts G1 f1 → g_starts G2 f2 → disjoint_classes f2 f1 →
  parses (p_or p q) (g_or G1 G2) follow.
Proof.
  intros Hp Hq H1 H2 Hd. apply parses_or; [done..|].
  intros pre a rest HG _. eapply parses_fails; [exact Hp|exact H1|].
  by eapply g_starts_avoid.
Qed.

Lemma parses_equiv {A} (p : parser A) (G G' : grammar A) follow :
  parses p G follow → (∀ s a, G s a ↔ G' s a) → parses p G' follow.
Proof.
  intros [Hc Hs] He. split.
  - intros pre a rest HG%He. by apply Hc.
  - intros s a rest (pre & -> & HG%He)%Hs. by exists pre.
Qed.

(** Keywords. *)
Lemma p_lit_None l s : ¬ l `prefix_of` s → p_lit l s = None.
Proof.
  revert s. induction l as [|c l IH]; intros s Hp.
  - destruct Hp. apply prefix_nil.
  - destruct s as [|c' s]; [done|]. simpl. case_decide; [subst|done].
    apply IH. intros [r ->]. apply Hp. by exists r.
Qed.

Lemma prefix_app_cases (k1 k2 rest : chars) :
  k1 `prefix_of` k2 ++ rest → k1 `prefix_of` k2 ∨ k2 `prefix_of` k1.
Proof.
  revert k2. induction k1 as [|c k1 IH]; intros k2 Hp.
  - left. apply prefix_nil.
  - destruct k2 as [|c' k2]; [right; apply prefix_nil|].
    destruct Hp as [r Hr]. simpl in Hr. injection Hr as <- Hr.
    destruct (IH k2) as [H|H]; [by exists r|..].
    + left. by apply prefix_cons.
    + right. by apply prefix_cons.
Qed.

Lemma parses_keyword {A} (table : list (chars * A)) follow :
  prefix_free table = true → parses (p_keyword table) (g_keyword table) follow.
Proof.
  induction table as [|[k a] table IH]; simpl.
  - split; [by intros ??? ?%elem_of_nil|done].
  - intros [Hk Hfree]%andb_prop. specialize (IH Hfree).
    rewrite forallb_Forall, Forall_forall in Hk. split.
    + intros pre x rest [[= -> ->]|Hin]%elem_of_cons Hr; unfold p_or.
      * by rewrite fmap_run, p_lit_app.
      * specialize (Hk _ Hin). simpl in Hk.
        apply andb_prop in Hk as [Hk1%negb_true_iff%bool_decide_eq_false
                                  Hk2%negb_true_iff%bool_decide_eq_false].
        rewrite fmap_run, p_lit_None.
        -- by apply (parses_complete _ _ _ IH).
        -- by intros [?|?]%prefix_app_cases.
    + intros s x rest. unfold p_or. rewrite fmap_run.
      destruct (p_lit k s) as [[[] r]|] eqn:E.
      * intros [= <- <-]. apply p_lit_Some in E as ->. exists k.
        split; [done|]. left.
      * intros (pre & -> & Hin)%(parses_sound _ _ _ IH). exists pre.
        split; [done|]. by right.
Qed.

Lemma g_starts_keyword {A} (table : list (chars * A)) first :
  forallb (λ p, starts_with first p.1) table = true →
  g_starts (g_keyword table) first.
Proof.
  rewrite forallb_Forall, Forall_forall. intros H s a Hin. apply (H _ Hin).
Qed.

(** A parser of a grammar, run on a whole string. *)
Lemma parses_all {A} (p : parser A) G (follow : chars → Prop) s a :
  parses p G follow → follow [] → parse_all p s = Some a ↔ G (chars_of s) a.
Proof.
  intros [Hc Hs] Hnil. rewrite parse_all_Some. split.
  - intros (pre & E & HG)%Hs. by rewrite E, app_nil_r.
  - intros HG. rewrite <-(app_nil_r (chars_of s)). by apply Hc.
Qed.

#[export] Hint Resolve parses_ret parses_lit parses_ws parses_uint
  parses_number parses_hex_byte parses_fmap parses_filter : theme.
#[export] Hint Resolve g_starts_lit g_starts_uint g_starts_number
  g_starts_bind g_starts_fmap g_starts_filter g_starts_or
  disjoint_class_or_l disjoint_class_or_r avoids_nil : theme.
