(* ===== verification/Repeat.v ===== *)
(** * Repeat: optional and repeated parts of a text

    The values of [boxShadow] and [backgroundImage] are lists: shadows
    separated by commas, colour stops separated by commas, the parts of
    a shadow separated by blanks.  This file adds to the parsers of
    [Lexical] and the grammars of [Grammar] what lists need:

    - [p_opt]: a part that may be missing;
    - [p_many]: a part repeated until it fails.  The recursion is on
      fuel ([p_many_fuel]); [p_many] gives it one more than the length
      of the text, which is enough whenever each round consumes a
      character ([p_many_enough], [p_many_total]);
    - [p_sep_by1]: one or more parts with a separator between them;
    - [p_ws1]: blanks, at least one;
    - [p_omap]: the results of a parser mapped by a partial function.

    Each comes with its grammar and the lemma that the parser implements
    it.  A repetition ends where its part fails, so the condition on
    what follows a list is that the part does not parse there; the
    lemmas [parses_fails] and [p_ws1_then_None] establish it from the
    first character of the rest. *)

From S2P Require Import Prelude Lexical Grammar.

#[local] Open Scope char_scope.

(** ** Parsers *)

Definition p_lift {A} (o : option A) : parser A := λ s, a ← o; Some (a, s).

Definition p_omap {A B} (f : A → option B) (p : parser A) : parser B :=
  a ← p; p_lift (f a).

Definition p_opt {A} (p : parser A) : parser (option A) :=
  p_or (Some <$> p) (mret None).

(** One or more blanks. *)
Definition p_ws1 : parser () := λ s,
  match span is_space s with
  | ([], _) => None
  | (_, rest) => Some ((), rest)
  end.

(** [p] as often as it succeeds.  [None] only when the fuel runs out. *)
Fixpoint p_many_fuel {A} (fuel : nat) (p : parser A) : parser (list A) := λ s,
  match fuel with
  | 0 => None
  | S fuel' =>
      match p s with
      | None => Some ([], s)
      | Some (a, rest) =>
          '(l, rest') ← p_many_fuel fuel' p rest; Some (a :: l, rest')
      end
  end.

Definition p_many {A} (p : parser A) : parser (list A) := λ s,
  p_many_fuel (S (length s)) p s.

Definition p_sep_by1 {A} (p : parser A) (sep : parser ()) : parser (list A) :=
  a ← p; l ← p_many (sep ≫= λ _, p); mret (a :: l).

(** A parser that consumes at least one character when it succeeds. *)
Definition consuming {A} (p : parser A) : Prop :=
  ∀ s a rest, p s = Some (a, rest) → length rest < length s.

(** ** Grammars *)

Definition g_lift {A} (o : option A) : grammar A := λ s a, s = [] ∧ o = Some a.

Definition g_omap {A B} (f : A → option B) (G : grammar A) : grammar B :=
  g_bind G (λ a, g_lift (f a)).

Definition g_opt {A} (G : grammar A) : grammar (option A) :=
  g_or (g_fmap Some G) (g_ret None).

Definition g_ws1 : grammar () := λ s _, blank s ∧ s ≠ [].

Inductive g_many {A} (G : grammar A) : grammar (list A) :=
| g_many_nil : g_many G [] []
| g_many_cons s1 s2 a l :
    G s1 a → g_many G s2 l → g_many G (s1 ++ s2) (a :: l).

Inductive g_sep_by1 {A} (G : grammar A) (Gsep : grammar ()) : grammar (list A) :=
| g_sep_by1_one s a : G s a → g_sep_by1 G Gsep s [a]
| g_sep_by1_more s1 s2 s3 a l u :
    G s1 a → Gsep s2 u → g_sep_by1 G Gsep s3 l →
    g_sep_by1 G Gsep (s1 ++ s2 ++ s3) (a :: l).

(** The text of a list: the texts of its elements with the separator
    between them. *)
Fixpoint print_sep_by {A} (pr : A → chars) (sep : chars) (l : list A) : chars :=
  match l with
  | [] => []
  | [a] => pr a
  | a :: l' => pr a ++ sep ++ print_sep_by pr sep l'
  end.

(** Every text of the grammar has at least one character. *)
Definition g_nonempty {A} (G : grammar A) : Prop := ∀ s a, G s a → s ≠ [].

(** ** Lemmas: failing and consuming *)

Lemma g_starts_nonempty {A} (G : grammar A) first :
  g_starts G first → g_nonempty G.
Proof. intros Hs s a HG%Hs ->. done. Qed.

Lemma parses_consuming {A} (p : parser A) G follow :
  parses p G follow → g_nonempty G → consuming p.
Proof.
  intros [_ Hs] Hne s a rest (pre & -> & HG)%Hs. apply Hne in HG.
  rewrite length_app. destruct pre; [done|]. simpl. lia.
Qed.

Lemma g_nonempty_bind_l {A B} (G1 : grammar A) (G2 : A → grammar B) :
  g_nonempty G1 → g_nonempty (g_bind G1 G2).
Proof.
  intros H s b (s1 & s2 & a & -> & H1%H & _). by destruct s1.
Qed.

Lemma g_nonempty_bind_r {A B} (G1 : grammar A) (G2 : A → grammar B) :
  (∀ a, g_nonempty (G2 a)) → g_nonempty (g_bind G1 G2).
Proof.
  intros H s b (s1 & s2 & a & -> & _ & H2%H). by destruct s1, s2.
Qed.

(** ** Lemmas: the simple parts *)

Lemma parses_lift {A} (o : option A) follow : parses (p_lift o) (g_lift o) follow.
Proof.
  split.
  - intros pre a rest [-> ->] _. done.
  - intros s a rest. unfold p_lift. destruct o as [a'|]; [|done].
    intros [= <- <-]. by exists [].
Qed.

Lemma parses_omap {A B} (f : A → option B) (p : parser A) G follow :
  parses p G follow → parses (p_omap f p) (g_omap f G) follow.
Proof.
  intros Hp. eapply parses_bind; [done|intros a; apply parses_lift|].
  by intros a s2 b rest [-> _].
Qed.

Lemma parses_opt {A} (p : parser A) G (follow : chars → Prop) :
  parses p G follow →
  parses (p_opt p) (g_opt G) (λ rest, follow rest ∧ p rest = None).
Proof.
  intros Hp. apply parses_or.
  - apply parses_fmap. eapply parses_weaken; [done|]. by intros rest [? _].
  - apply parses_ret.
  - intros pre o rest [-> _] [_ Hnone]. rewrite fmap_run. simpl. by rewrite Hnone.
Qed.

Lemma parses_ws1 : parses p_ws1 g_ws1 (avoids is_space).
Proof.
  split.
  - intros pre [] rest [Hw Hne] Hr. unfold p_ws1.
    rewrite (span_app _ _ _ Hw Hr). by destruct pre.
  - intros s [] rest. unfold p_ws1. destruct (span is_space s) as [w r] eqn:E.
    apply span_spec in E as (-> & Hw & _). destruct w as [|c w]; [done|].
    intros [= <-]. by exists (c :: w).
Qed.

Lemma g_starts_ws1 : g_starts g_ws1 is_space.
Proof.
  intros s [] [Hw Hne]. destruct s as [|c s]; [done|].
  by apply andb_prop in Hw as [? _].
Qed.

(** After blanks, a parser that fails on the rest makes the sequence
    fail, however many blanks there are. *)
Lemma p_ws1_then_None {A} (p : parser A) w rest :
  blank w → avoids is_space rest → p rest = None →
  (p_ws1 ≫= λ _, p) (w ++ rest) = None.
Proof.
  intros Hw Hr Hp. rewrite bind_run. unfold p_ws1.
  rewrite (span_app _ _ _ Hw Hr). by destruct w.
Qed.

Lemma p_ws_then_None {A} (p : parser A) w rest :
  blank w → avoids is_space rest → p rest = None →
  (p_ws ≫= λ _, p) (w ++ rest) = None.
Proof.
  intros Hw Hr Hp. rewrite bind_run. unfold p_ws.
  by rewrite (span_app _ _ _ Hw Hr).
Qed.

(** ** Lemmas: fuel *)

Lemma p_many_fuel_mono {A} (p : parser A) n m s r :
  p_many_fuel n p s = Some r → n ≤ m → p_many_fuel m p s = Some r.
Proof.
  revert m s r. induction n as [|n IH]; intros m s r; [done|].
  destruct m as [|m]; [lia|]. simpl. intros H Hle.
  destruct (p s) as [[a rest]|]; [|done].
  destruct (p_many_fuel n p rest) as [[l rest']|] eqn:E; [|done].
  by rewrite (IH m _ _ E) by lia.
Qed.

(** With more fuel than the text has characters, the fuel does not run
    out. *)
Lemma p_many_enough {A} (p : parser A) n s :
  consuming p → length s < n → is_Some (p_many_fuel n p s).
Proof.
  intros Hp. revert s. induction n as [|n IH]; intros s Hn; [lia|]. simpl.
  destruct (p s) as [[a rest]|] eqn:E; [|by eexists].
  apply Hp in E. destruct (IH rest) as [[l r] ->]; [lia|]. by eexists.
Qed.

Lemma p_many_total {A} (p : parser A) s : consuming p → is_Some (p_many p s).
Proof. intros Hp. apply p_many_enough; [done|lia]. Qed.

(** The equation of [p_many], free of fuel. *)
Lemma p_many_unfold {A} (p : parser A) s :
  consuming p →
  p_many p s =
    match p s with
    | None => Some ([], s)
    | Some (a, rest) => '(l, rest') ← p_many p rest; Some (a :: l, rest')
    end.
Proof.
  intros Hp. unfold p_many at 1. simpl.
  destruct (p s) as [[a rest]|] eqn:E; [|done].
  destruct (p_many_total p rest Hp) as [r Hr]. rewrite Hr.
  apply Hp in E. by rewrite (p_many_fuel_mono _ _ (length s) _ _ Hr) by lia.
Qed.

(** ** Lemmas: repetition *)

Lemma g_many_length {A} (G : grammar A) s l :
  g_nonempty G → g_many G s l → length l ≤ length s.
Proof.
  intros Hne. induction 1 as [|s1 s2 a l HG%Hne _ IH]; [done|].
  rewrite length_app. destruct s1; [done|]. simpl. lia.
Qed.

Lemma p_many_fuel_sound {A} (p : parser A) G follow n s l rest :
  parses p G follow → p_many_fuel n p s = Some (l, rest) →
  ∃ pre, s = pre ++ rest ∧ g_many G pre l.
Proof.
  intros [_ Hs]. revert s l. induction n as [|n IH]; intros s l; [done|]. simpl.
  destruct (p s) as [[a r]|] eqn:E.
  - destruct (p_many_fuel n p r) as [[l' r']|] eqn:E'; [|done].
    intros [= <- <-]. apply Hs in E as (s1 & -> & HG).
    apply IH in E' as (s2 & -> & Hl). exists (s1 ++ s2).
    split; [by rewrite app_assoc|by constructor].
  - intros [= <- <-]. exists []. split; [done|constructor].
Qed.

Section many.
  Context {A : Type} (p : parser A) (G : grammar A).
  Context (follow final : chars → Prop).
  Context (Hp : parses p G follow).
  Context (Hnext : ∀ s a rest, G s a → follow (s ++ rest)).
  Context (Hfinal : ∀ rest, final rest → follow rest ∧ p rest = None).

Lemma g_many_follow s l rest : g_many G s l → final rest → follow (s ++ rest).
Proof.
  intros [|s1 s2 a l' HG _] Hr; [by apply Hfinal|].
  rewrite <-app_assoc. by eapply Hnext.
Qed.

Lemma p_many_fuel_complete n s l rest :
  g_many G s l → final rest → length l < n →
  p_many_fuel n p (s ++ rest) = Some (l, rest).
Proof.
  intros Hl Hr. revert n.
  induction Hl as [|s1 s2 a l HG Hl IH]; intros n Hn;
    (destruct n as [|n]; [simpl in Hn; lia|]); simpl.
  - by destruct (Hfinal _ Hr) as [_ ->].
  - rewrite <-app_assoc, (parses_complete _ _ _ Hp _ _ _ HG)
      by by eapply g_many_follow.
    rewrite IH by (simpl in Hn; lia). done.
Qed.

Lemma parses_many : g_nonempty G → parses (p_many p) (g_many G) final.
Proof.
  intros Hne. split.
  - intros pre l rest Hl Hr. apply p_many_fuel_complete; [done..|].
    pose proof (g_many_length _ _ _ Hne Hl). rewrite length_app. lia.
  - intros s l rest H. eapply p_many_fuel_sound; [exact Hp|exact H].
Qed.

End many.

(** ** Lemmas: lists with separators *)

(** A list with separators is its first element and then rounds of a
    separator and an element. *)
Lemma g_sep_by1_many {A} (G : grammar A) Gsep s l :
  g_sep_by1 G Gsep s l ↔
  ∃ s1 s2 a l', s = s1 ++ s2 ∧ l = a :: l' ∧ G s1 a ∧
                g_many (g_bind Gsep (λ _, G)) s2 l'.
Proof.
  split.
  - induction 1 as [s a HG|s1 s2 s3 a l u HG Hsep _ IH].
    + exists s, [], a, []. rewrite app_nil_r. split_and!; [done..|constructor].
    + destruct IH as (t1 & t2 & b & l' & -> & -> & Hb & Hl).
      exists s1, ((s2 ++ t1) ++ t2), a, (b :: l').
      split_and!; [by rewrite <-!app_assoc|done..|].
      constructor; [|done]. by exists s2, t1, u.
  - intros (s1 & s2 & a & l' & -> & -> & HG & Hl). revert s1 a HG.
    induction Hl as [|t1 t2 b l' (ts & tb & u & -> & Hsep & Hb) _ IH];
      intros s1 a HG.
    + rewrite app_nil_r. by constructor.
    + rewrite <-app_assoc. econstructor; eauto.
Qed.

(** One or more parts with separators.  The list ends where a separator
    and a part do not parse ([final]). *)
Lemma parses_sep_by1 {A} (p : parser A) (sep : parser ()) G Gsep
    (follow fsep final : chars → Prop) :
  parses p G follow → parses sep Gsep fsep →
  g_nonempty G →
  (∀ s a rest, G s a → fsep (s ++ rest)) →
  (∀ s u rest, Gsep s u → follow (s ++ rest)) →
  (∀ rest, final rest → follow rest ∧ (sep ≫= λ _, p) rest = None) →
  parses (p_sep_by1 p sep) (g_sep_by1 G Gsep) final.
Proof.
  intros Hp Hsep Hne Hfsep Hnext Hfinal.
  assert (parses (sep ≫= λ _, p) (g_bind Gsep (λ _, G)) follow) as Hround.
  { eapply parses_bind; [exact Hsep|done|]. intros _ s b rest HG _. eauto. }
  assert (∀ s a rest, g_bind Gsep (λ _, G) s a → follow (s ++ rest)) as Hnext'.
  { intros s a rest (s1 & s2 & u & -> & H1 & _).
    rewrite <-app_assoc. by eapply Hnext. }
  eapply parses_equiv; [|intros s l; symmetry; apply g_sep_by1_many].
  split.
  - intros pre l rest (s1 & s2 & a & l' & -> & -> & HG & Hl) Hr.
    unfold p_sep_by1. rewrite <-app_assoc, bind_run.
    rewrite (parses_complete _ _ _ Hp _ _ _ HG) by by eapply g_many_follow.
    rewrite bind_run, (parses_complete _ _ _
      (parses_many _ _ _ _ Hround Hnext' Hfinal (g_nonempty_bind_r _ _ (λ _, Hne)))
      _ _ _ Hl Hr). done.
  - intros s l rest. unfold p_sep_by1. rewrite bind_run.
    destruct (p s) as [[a r]|] eqn:E; [|done]. rewrite bind_run.
    destruct (p_many _ r) as [[l' r']|] eqn:E'; [|done]. intros [= <- <-].
    apply (parses_sound _ _ _ Hp) in E as (s1 & -> & HG).
    eapply p_many_fuel_sound in E' as (s2 & -> & Hl); [|exact Hround].
    exists (s1 ++ s2). split; [by rewrite app_assoc|]. by exists s1, s2, a, l'.
Qed.

Lemma g_starts_sep_by1 {A} (G : grammar A) Gsep first :
  g_starts G first → g_starts (g_sep_by1 G Gsep) first.
Proof.
  intros Hs s l [s' a HG|s1 s2 s3 a l' u HG _ _]; [by eapply Hs|].
  by eapply starts_with_app, Hs.
Qed.

(** The printed list is a text of the list. *)
Lemma g_sep_by1_print {A} (G : grammar A) Gsep pr sep (l : list A) :
  l ≠ [] → Forall (λ a, G (pr a) a) l → Gsep sep () →
  g_sep_by1 G Gsep (print_sep_by pr sep l) l.
Proof.
  intros Hne Hl Hsep. induction Hl as [|a l Ha Hl IH]; [done|].
  destruct l as [|b l]; [by constructor|].
  change (print_sep_by pr sep (a :: b :: l))
    with (pr a ++ sep ++ print_sep_by pr sep (b :: l)).
  econstructor; eauto.
Qed.

(** The elements of a list with separators are texts of the element
    grammar. *)
Lemma g_sep_by1_Forall {A} (G : grammar A) Gsep (P : A → Prop) s l :
  (∀ s a, G s a → P a) → g_sep_by1 G Gsep s l → Forall P l ∧ l ≠ [].
Proof.
  intros HP. induction 1 as [s a HG|s1 s2 s3 a l u HG _ _ [IH _]];
    (split; [|done]); eauto.
Qed.

#[export] Hint Resolve parses_lift parses_omap parses_ws1 g_starts_ws1 : theme.
