(* ===== verification/JsValue.v ===== *)
(** * JsValue: the JavaScript values of the configuration

    [src/tailwind.config.js] is built from four forms of JavaScript
    literal: strings, numbers, arrays and objects.  [value] has one
    constructor for each.  An object keeps its properties as the list
    the literal writes, in source order and with repetitions, so that
    the model can tell a literal that binds a name twice from one that
    does not; the functions below give what JavaScript makes of it:

    - [get] and [get_path]: property access ([o.k], [o.a.b.c]); a
      missing property is [None] (JavaScript's [undefined]);
    - [own_keys]: the order in which the object enumerates its keys
      (array-index keys ascending, then the other keys in the order
      they were first defined);
    - [entries]: the properties as enumeration lists them;
    - [obj_to_map]: the object as a finite map.

    [wf_value] is the invariant under which the literal and the object
    are the same thing: no key is bound twice, no key is an array index,
    every number is an integer that a double represents exactly. *)

From Stdlib Require Import Decimal DecimalN.
From stdpp Require Import sorting.
From S2P Require Import Prelude Lexical.

(** ** Values *)

Unset Elimination Schemes.
Inductive value : Type :=
| VString (s : string)
| VNumber (n : Z)
| VArray (elems : list value)
| VObject (props : list (string * value)).
Set Elimination Schemes.

Abbreviation props := (list (string * value)).

(** Induction with the hypotheses for the elements of an array and the
    values of an object's properties. *)
Definition value_ind (P : value → Prop)
    (Hstring : ∀ s, P (VString s))
    (Hnumber : ∀ n, P (VNumber n))
    (Harray : ∀ xs, Forall P xs → P (VArray xs))
    (Hobject : ∀ ps, Forall (λ p, P p.2) ps → P (VObject ps)) :
    ∀ v, P v :=
  fix go v :=
    match v with
    | VString s => Hstring s
    | VNumber n => Hnumber n
    | VArray xs =>
        Harray xs ((fix go_list xs : Forall P xs :=
          match xs with
          | [] => Forall_nil_2 P
          | x :: xs' => Forall_cons_2 P x xs' (go x) (go_list xs')
          end) xs)
    | VObject ps =>
        Hobject ps ((fix go_props ps : Forall (λ p, P p.2) ps :=
          match ps with
          | [] => Forall_nil_2 _
          | p :: ps' => Forall_cons_2 (λ p, P p.2) p ps' (go p.2) (go_props ps')
          end) ps)
    end.

#[export] Instance value_eq_dec : EqDecision value.
Proof.
  refine (fix go (v w : value) : Decision (v = w) :=
    match v, w with
    | VString s, VString s' => cast_if (decide (s = s'))
    | VNumber n, VNumber n' => cast_if (decide (n = n'))
    | VArray xs, VArray ys => cast_if (@list_eq_dec _ go xs ys)
    | VObject ps, VObject qs =>
        cast_if (@list_eq_dec _ (@prod_eq_dec _ _ _ go) ps qs)
    | _, _ => right _
    end); clear go; congruence.
Defined.

(** ** Numbers

    A JavaScript number is a double.  The model keeps integers, which is
    exact for the safe integers. *)

Definition safe_integer (n : Z) : Prop :=
  (- (2 ^ 53 - 1) ≤ n ≤ 2 ^ 53 - 1)%Z.

#[export] Instance safe_integer_dec n : Decision (safe_integer n).
Proof. unfold safe_integer. apply _. Defined.

(** ** Keys

    A key is an array index when it is the canonical decimal numeral of
    an integer below [2^32 - 1].  Objects enumerate such keys first, in
    ascending order, wherever the literal writes them. *)

Definition index_of_key (k : string) : option N :=
  u ← uint_of_chars (chars_of k);
  if canonical_uint u && (N.of_uint u <? 2 ^ 32 - 1)%N
  then Some (N.of_uint u) else None.

Definition is_array_index (k : string) : bool :=
  match index_of_key k with Some _ => true | None => false end.

(** The elements of a list in the order of their first occurrence. *)
Fixpoint dedup_first {A} `{EqDecision A} (l : list A) : list A :=
  match l with
  | [] => []
  | x :: l' => x :: filter (λ y, y ≠ x) (dedup_first l')
  end.

Definition index_le (a b : N * string) : Prop := (a.1 ≤ b.1)%N.

#[export] Instance index_le_dec a b : Decision (index_le a b).
Proof. unfold index_le. apply _. Defined.

Definition own_keys (ps : props) : list string :=
  let ks := dedup_first ps.*1 in
  let indexed := omap (λ k, n ← index_of_key k; Some (n, k)) ks in
  (merge_sort index_le indexed).*2 ++
  filter (λ k, index_of_key k = None) ks.

(** ** Property access *)

Definition get (v : value) (k : string) : option value :=
  match v with
  | VObject ps => assoc_get k ps
  | VArray xs =>
      if decide (k = "length") then Some (VNumber (Z.of_nat (length xs)))
      else i ← index_of_key k; xs !! N.to_nat i
  | VString _ | VNumber _ => None
  end.

Fixpoint get_path (v : value) (path : list string) : option value :=
  match path with
  | [] => Some v
  | k :: path' => v' ← get v k; get_path v' path'
  end.

(** The properties of an object as enumeration gives them. *)
Definition entries (ps : props) : props :=
  omap (λ k, v ← assoc_get k ps; Some (k, v)) (own_keys ps).

Definition obj_to_map (ps : props) : gmap string value := assoc_to_map ps.

(** ** Well-formedness *)

Inductive wf_value : value → Prop :=
| wf_VString s : wf_value (VString s)
| wf_VNumber n : safe_integer n → wf_value (VNumber n)
| wf_VArray xs : Forall wf_value xs → wf_value (VArray xs)
| wf_VObject ps :
    NoDup ps.*1 →
    Forall (λ p, is_array_index p.1 = false ∧ wf_value p.2) ps →
    wf_value (VObject ps).

(** The executable check of [wf_value]. *)
Fixpoint wf_valueb (v : value) : bool :=
  match v with
  | VString _ => true
  | VNumber n => bool_decide (safe_integer n)
  | VArray xs => forallb wf_valueb xs
  | VObject ps =>
      bool_decide (NoDup ps.*1) &&
      forallb (λ p, let '(k, x) := p in
                    negb (is_array_index k) && wf_valueb x) ps
  end.

(** The kind of a value, as [typeof] and [Array.isArray] tell it. *)
Inductive kind : Type := KString | KNumber | KArray | KObject.

#[export] Instance kind_eq_dec : EqDecision kind.
Proof. solve_decision. Defined.

Definition kind_of (v : value) : kind :=
  match v with
  | VString _ => KString
  | VNumber _ => KNumber
  | VArray _ => KArray
  | VObject _ => KObject
  end.

(** ** Lemmas *)

Lemma dedup_first_NoDup_id {A} `{EqDecision A} (l : list A) :
  NoDup l → dedup_first l = l.
Proof.
  induction 1 as [|x l Hx Hnd IH]; simpl; [done|]. rewrite IH. f_equal.
  clear Hnd IH. induction l as [|y l IH]; [done|].
  apply not_elem_of_cons in Hx as [? ?].
  rewrite filter_cons_True by done. f_equal. auto.
Qed.

(** Without array-index keys and repetitions, enumeration follows the
    literal. *)
Lemma own_keys_literal (ps : props) :
  NoDup ps.*1 → Forall (λ k, index_of_key k = None) ps.*1 →
  own_keys ps = ps.*1.
Proof.
  intros Hnd Hidx. unfold own_keys. rewrite dedup_first_NoDup_id by done.
  rewrite omap_none, filter_all; [done..|].
  eapply Forall_impl; [exact Hidx|]. by intros k ->.
Qed.

Lemma is_array_index_false k : is_array_index k = false ↔ index_of_key k = None.
Proof. unfold is_array_index. by destruct (index_of_key k). Qed.

Lemma omap_assoc_all (ps : props) :
  NoDup ps.*1 → omap (λ k, v ← assoc_get k ps; Some (k, v)) ps.*1 = ps.
Proof.
  intros Hnd.
  assert (∀ qs : props, qs ⊆ ps →
    omap (λ k, v ← assoc_get k ps; Some (k, v)) qs.*1 = qs) as Hq.
  { induction qs as [|[k v] qs IH]; intros Hsub; simpl; [done|].
    rewrite (assoc_get_NoDup k v ps) by set_solver. simpl. f_equal.
    apply IH. set_solver. }
  by apply Hq.
Qed.

Lemma entries_literal (ps : props) :
  NoDup ps.*1 → Forall (λ k, index_of_key k = None) ps.*1 →
  entries ps = ps.
Proof.
  intros Hnd Hidx. unfold entries.
  rewrite own_keys_literal by done. by apply omap_assoc_all.
Qed.

Lemma wf_valueb_spec v : wf_valueb v = true ↔ wf_value v.
Proof.
  induction v as [s|n|xs IH|ps IH] using value_ind; simpl.
  - split; [constructor|done].
  - rewrite bool_decide_eq_true. split; [by constructor|by inversion 1].
  - rewrite forallb_Forall, (Forall_iff_compat _ _ _ IH).
    split; [by constructor|by inversion 1].
  - rewrite andb_true_iff, bool_decide_eq_true, forallb_Forall.
    rewrite (Forall_iff_compat _ (λ p, is_array_index p.1 = false ∧ wf_value p.2)).
    + split; [intros []; by constructor|by inversion 1].
    + eapply Forall_impl; [exact IH|]. intros [k x] Hx. simpl in *.
      by rewrite andb_true_iff, negb_true_iff, Hx.
Qed.

#[export] Instance wf_value_dec v : Decision (wf_value v).
Proof.
  refine (cast_if (decide (wf_valueb v = true))); by rewrite <-wf_valueb_spec.
Defined.

Lemma wf_object_inv ps :
  wf_value (VObject ps) →
  NoDup ps.*1 ∧ Forall (λ k, index_of_key k = None) ps.*1 ∧
  Forall (λ p, wf_value p.2) ps.
Proof.
  inversion 1 as [| | |? Hnd H']; subst. split_and!; [done|..].
  - rewrite Forall_fmap. eapply Forall_impl; [exact H'|].
    intros [k x] [Hk _]. by apply is_array_index_false.
  - eapply Forall_impl; [exact H'|]. by intros [k x] [_ ?].
Qed.

(** In a well-formed object, access finds exactly the properties
    written. *)
Lemma get_wf_object ps k v :
  wf_value (VObject ps) → get (VObject ps) k = Some v ↔ (k, v) ∈ ps.
Proof.
  intros (Hnd & _ & _)%wf_object_inv. simpl. by apply assoc_get_NoDup_iff.
Qed.

Lemma get_wf ps k v :
  wf_value (VObject ps) → get (VObject ps) k = Some v → wf_value v.
Proof.
  intros Hwf Hget. apply (get_wf_object _ _ _ Hwf) in Hget.
  apply wf_object_inv in Hwf as (_ & _ & Hall).
  rewrite Forall_forall in Hall. by apply (Hall (k, v)).
Qed.

Lemma entries_wf ps : wf_value (VObject ps) → entries ps = ps.
Proof. intros (? & ? & _)%wf_object_inv. by apply entries_literal. Qed.

Lemma own_keys_wf ps : wf_value (VObject ps) → own_keys ps = ps.*1.
Proof. intros (? & ? & _)%wf_object_inv. by apply own_keys_literal. Qed.

Lemma obj_to_map_lookup ps k : obj_to_map ps !! k = get (VObject ps) k.
Proof. apply assoc_to_map_lookup. Qed.

Lemma obj_to_map_size ps : wf_value (VObject ps) → size (obj_to_map ps) = length ps.
Proof. intros (? & _ & _)%wf_object_inv. by apply assoc_to_map_size. Qed.

Lemma get_path_app v p1 p2 :
  get_path v (p1 ++ p2) = v' ← get_path v p1; get_path v' p2.
Proof.
  revert v. induction p1 as [|k p1 IH]; intros v; simpl; [done|].
  destruct (get v k) as [w|]; simpl; [apply IH|done].
Qed.

#[export] Hint Resolve get_wf : theme.
#[export] Hint Rewrite entries_wf own_keys_wf using done : theme_rw.
