(* ===== verification/Tokens.v ===== *)
(** * Tokens: a category of the table read through a codec

    The values of a category are texts of one grammar: colours, sizes,
    shadows, gradients.  What a client needs to read such a category is
    the same for every grammar, and is stated here once against the
    interface [Lexical.Codec]:

    - [read] and [write] go between the JavaScript value of a token and
      the value it denotes;
    - [decode] and [encode] do the same for a whole category and keep
      the names and their order;
    - [all_tokens] is the executable test "every token of the category
      is a text of the grammar and passes a check".

    The lemmas: writing and reading is the identity on well-formed
    values; what is read is well formed; a category that encodes back
    to itself holds only canonical texts. *)

From S2P Require Import Prelude Lexical JsValue.

(** ** Definitions *)

Definition read {A} `{Codec A} (v : value) : option A :=
  match v with
  | VString s => parse_all parse s
  | _ => None
  end.

Definition write {A} `{Codec A} (a : A) : value := VString (string_of (print a)).

Definition decode {A} `{Codec A} (ps : props) : option (list (string * A)) :=
  mapM (λ '(name, v), a ← read v; Some (name, a)) ps.

Definition encode {A} `{Codec A} (table : list (string * A)) : props :=
  (λ '(name, a), (name, write a)) <$> table.

Definition all_tokens {A} `{Codec A} (ps : props)
    (check : string → A → bool) : bool :=
  forallb (λ p, from_option (check p.1) false (read p.2)) ps.

(** ** Lemmas *)

Section tokens.
Context {A : Type} `{Codec A}.
Implicit Types (a : A) (v : value) (ps : props) (table : list (string * A)).

Lemma read_write a : codec_wf a → read (write a) = Some a.
Proof. apply parse_all_print. Qed.

Lemma read_Some v a :
  read v = Some a →
  ∃ s, v = VString s ∧ parse_all parse s = Some a ∧ codec_wf a.
Proof.
  destruct v as [s| | |]; try done. simpl. intros Hp. exists s.
  split_and!; [done..|]. apply parse_all_Some in Hp. by eapply parse_wf.
Qed.

Lemma write_inj a b : codec_wf a → codec_wf b → write a = write b → a = b.
Proof.
  intros Ha Hb [= E]. apply print_inj; [done..|].
  by rewrite <-(chars_of_string_of (print a)), E, chars_of_string_of.
Qed.

(** Encoding a table of well-formed values and decoding it gives the
    table back. *)
Lemma decode_encode table :
  Forall (λ p, codec_wf p.2) table → decode (encode table) = Some table.
Proof.
  unfold decode, encode. intros Hwf.
  apply mapM_Some, Forall2_fmap_l, Forall_Forall2_diag.
  eapply Forall_impl; [exact Hwf|]. intros [name a] Ha. simpl in *.
  by rewrite parse_all_print.
Qed.

Lemma decode_lookup ps table name v :
  decode ps = Some table → (name, v) ∈ ps →
  ∃ a, read v = Some a ∧ (name, a) ∈ table.
Proof.
  unfold decode. intros Hdec%mapM_Some [i Hi]%list_elem_of_lookup.
  destruct (Forall2_lookup_l _ _ _ _ _ Hdec Hi) as ([name' a] & Hq & Hf).
  simpl in Hf. destruct (read v) as [a'|]; simplify_eq/=.
  exists a. split; [done|]. by eapply list_elem_of_lookup_2.
Qed.

Lemma decode_wf ps table :
  decode ps = Some table → Forall (λ p, codec_wf p.2) table.
Proof.
  unfold decode. intros Hdec%mapM_Some. apply Forall_forall.
  intros [name a] [i Hi]%list_elem_of_lookup.
  destruct (Forall2_lookup_r _ _ _ _ _ Hdec Hi) as ([name' v] & _ & Hf).
  simpl in Hf. destruct (read v) as [a'|] eqn:E; simplify_eq/=.
  by apply read_Some in E as (_ & _ & _ & ?).
Qed.

(** When a category decodes to a table that encodes to the category,
    every value of the category is the canonical text of what it
    denotes. *)
Lemma decode_canonical ps table :
  decode ps = Some table → encode table = ps →
  ∀ name v, (name, v) ∈ ps → ∃ a, read v = Some a ∧ write a = v.
Proof.
  unfold decode, encode.
  intros Hdec%mapM_Some Henc name v [i Hi]%list_elem_of_lookup.
  destruct (Forall2_lookup_l _ _ _ _ _ Hdec Hi) as ([name' a] & Hq & Hf).
  rewrite <-Henc, list_lookup_fmap, Hq in Hi. simpl in Hi, Hf.
  injection Hi as -> <-. exists a. split; [|done].
  destruct (read _); by simplify_eq/=.
Qed.

Lemma all_tokens_forall ps check :
  all_tokens ps check = true →
  ∀ name v, (name, v) ∈ ps → ∃ a, read v = Some a ∧ check name a = true.
Proof.
  unfold all_tokens. rewrite forallb_Forall, Forall_forall.
  intros Hall name v Hin. specialize (Hall _ Hin). simpl in Hall.
  destruct (read v) as [a|]; [|done]. by exists a.
Qed.

End tokens.
