(* ===== verification/Json.v ===== *)
(** * Json: writing a value as JSON text and reading it back

    A build tool may keep the configuration as JSON: it writes the
    object with [JSON.stringify] and loads it again with [JSON.parse].
    This file models both on the values of [JsValue]:

    - [normalize] is the object a literal denotes: in every object each
      key once, with its last value, in the order of enumeration;
    - [stringify] writes a value as [JSON.stringify] does, without
      blanks: strings in double quotes with the escapes of JSON,
      integers in decimal, arrays in brackets, objects in braces;
      [json_stringify] writes the object that a literal denotes;
    - [p_json] reads a JSON text, with blanks where JSON allows them.
      It recurses on fuel; [json_parse] gives it one more than the
      length of the text, which is enough because every level of
      nesting and every element of a list consumes a character.

    The theorem ([json_roundtrip]): a well-formed value that is written
    and read back is the same value.  The fuel of [json_parse] never
    runs out on a written text ([p_json_stringify] holds for every
    amount of fuel above the length of the text).

    The values of [JsValue] have no [true], [false] and [null] and no
    numbers with a fraction or an exponent; [p_json] does not read
    them, and reads a [\u] escape only below 256, one character of a
    [string]. *)

From Stdlib Require Import Decimal DecimalN.
From S2P Require Import Prelude Lexical Grammar JsValue.

#[local] Open Scope char_scope.

(** ** Strings *)

Definition quote : ascii := "034".
Definition backslash : ascii := "\".

Definition is_control (c : ascii) : bool := (N_of_ascii c <? 32)%N.

Definition hex_lower (d : N) : ascii :=
  ascii_of_N (if (d <? 10)%N then 48 + d else 87 + d).

(** The characters with an escape of their own, and the letter of the
    escape. *)
Definition short_escapes : list (ascii * ascii) :=
  [("008", "b"); ("009", "t"); ("010", "n"); ("012", "f"); ("013", "r");
   (quote, quote); (backslash, backslash)].

(** The letters that may follow a backslash, and what they stand for. *)
Definition escape_letters : list (ascii * ascii) :=
  ("/", "/") :: ((λ p, (p.2, p.1)) <$> short_escapes).

Definition escape_char (c : ascii) : chars :=
  match assoc_get c short_escapes with
  | Some e => [backslash; e]
  | None =>
      if is_control c then
        let n := N_of_ascii c in
        [backslash; "u"; "0"; "0"; hex_lower (n / 16); hex_lower (n mod 16)]
      else [c]
  end.

Definition print_json_string (s : string) : chars :=
  quote :: (chars_of s ≫= escape_char) ++ [quote].

(** The code of four hexadecimal digits. *)
Definition hex4 (a b c d : ascii) : option N :=
  x ← hex_val a; y ← hex_val b; z ← hex_val c; w ← hex_val d;
  Some (((x * 16 + y) * 16 + z) * 16 + w)%N.

(** The characters of a string up to the closing quote, and the rest
    after it. *)
Fixpoint p_json_chars (s : chars) : option (chars * chars) :=
  match s with
  | [] => None
  | c :: r =>
      if decide (c = quote) then Some ([], r)
      else if decide (c = backslash) then
        match r with
        | e :: r' =>
            match assoc_get e escape_letters with
            | Some c' => '(cs, r'') ← p_json_chars r'; Some (c' :: cs, r'')
            | None =>
                match r' with
                | h1 :: h2 :: h3 :: h4 :: r'' =>
                    if decide (e = "u") then
                      n ← hex4 h1 h2 h3 h4;
                      if (n <? 256)%N then
                        '(cs, r3) ← p_json_chars r''; Some (ascii_of_N n :: cs, r3)
                      else None
                    else None
                | _ => None
                end
            end
        | [] => None
        end
      else if is_control c then None
      else '(cs, r') ← p_json_chars r; Some (c :: cs, r')
  end.

Definition p_json_string : parser string := λ s,
  match s with
  | c :: r =>
      if decide (c = quote) then
        '(cs, r') ← p_json_chars r; Some (string_of cs, r')
      else None
  | [] => None
  end.

(** ** Numbers *)

Definition print_int (z : Z) : chars :=
  (if (z <? 0)%Z then ["-"] else []) ++ chars_of_uint (N.to_uint (Z.abs_N z)).

Definition int_of (neg : bool) (u : uint) : Z :=
  if neg then (- Z.of_N (N.of_uint u))%Z else Z.of_N (N.of_uint u).

Definition p_json_int : parser Z :=
  neg ← p_sign; u ← p_filter canonical_uint p_uint; mret (int_of neg u).

(** ** Values *)

(** The object a literal denotes. *)
Fixpoint normalize (v : value) : value :=
  match v with
  | VString _ | VNumber _ => v
  | VArray xs => VArray (normalize <$> xs)
  | VObject ps => VObject (entries ((λ p, (p.1, normalize p.2)) <$> ps))
  end.

(** The texts of a list with a comma between them. *)
Fixpoint print_commas {A} (pr : A → chars) (l : list A) : chars :=
  match l with
  | [] => []
  | [a] => pr a
  | a :: l' => pr a ++ "," :: print_commas pr l'
  end.

Fixpoint stringify (v : value) : chars :=
  match v with
  | VString s => print_json_string s
  | VNumber n => print_int n
  | VArray xs => "[" :: print_commas stringify xs ++ ["]"]
  | VObject ps =>
      "{" :: print_commas
               (λ p, print_json_string p.1 ++ ":" :: stringify p.2) ps ++ ["}"]
  end.

Definition json_stringify (v : value) : string :=
  string_of (stringify (normalize v)).

Definition skip_ws (s : chars) : chars := (span is_space s).2.

(** One or more elements with commas between them, up to the closing
    character. *)
Fixpoint p_json_seq {A} (n : nat) (p : parser A) (close : ascii) :
    parser (list A) := λ s,
  match n with
  | 0 => None
  | S n' =>
      '(a, r) ← p s;
      match skip_ws r with
      | c :: r' =>
          if decide (c = ",") then
            '(l, r'') ← p_json_seq n' p close r'; Some (a :: l, r'')
          else if decide (c = close) then Some ([a], r')
          else None
      | [] => None
      end
  end.

(** The elements of an array or the members of an object, after the
    opening character. *)
Definition p_json_list {A} (n : nat) (p : parser A) (close : ascii) :
    parser (list A) := λ s,
  match skip_ws s with
  | c :: r => if decide (c = close) then Some ([], r)
              else p_json_seq n p close (c :: r)
  | [] => None
  end.

Definition p_json_member (p : parser value) : parser (string * value) := λ s,
  '(k, r) ← p_json_string (skip_ws s);
  match skip_ws r with
  | c :: r' => if decide (c = ":") then '(x, r'') ← p r'; Some ((k, x), r'')
               else None
  | [] => None
  end.

Fixpoint p_json (fuel : nat) : parser value := λ s,
  match fuel with
  | 0 => None
  | S fuel' =>
      match skip_ws s with
      | c :: r =>
          if decide (c = quote) then
            '(x, r') ← p_json_string (c :: r); Some (VString x, r')
          else if decide (c = "[") then
            '(xs, r') ← p_json_list fuel' (p_json fuel') "]" r;
            Some (VArray xs, r')
          else if decide (c = "{") then
            '(ps, r') ← p_json_list fuel' (p_json_member (p_json fuel')) "}" r;
            Some (VObject (entries ps), r')
          else
            '(n, r') ← p_json_int (c :: r); Some (VNumber n, r')
      | [] => None
      end
  end.

Definition json_parse (s : string) : option value :=
  '(v, rest) ← p_json (S (String.length s)) (chars_of s);
  if forallb is_space rest then Some v else None.

(** The characters at which a value, a member or a list goes on or
    ends. *)
Definition is_delimiter (c : ascii) : bool :=
  bool_decide (c ∈ [","; "]"; "}"; ":"]).

(** What may follow a written value: the end, or a delimiter. *)
Definition after_value : chars → Prop := avoids (λ c, negb (is_delimiter c)).

(** The first characters of a written value. *)
Definition starts_value : ascii → bool :=
  class_or starts_number
    (class_or (is_char quote) (class_or (is_char "[") (is_char "{"))).

(** What the elements of a written list have to be: read back before a
    delimiter, and beginning like a value. *)
Definition element_ok {A} (p : parser A) (pr : A → chars) (x : A) : Prop :=
  (∀ rest, after_value rest → p (pr x ++ rest) = Some (x, rest)) ∧
  (∀ rest, starts_with starts_value (pr x ++ rest) = true).

(** ** Lemmas: strings *)

(** An escaped character is read as the character. *)
Lemma p_json_chars_escape c s :
  p_json_chars (escape_char c ++ s) =
  '(cs, r) ← p_json_chars s; Some (c :: cs, r).
Proof. destruct c as [[] [] [] [] [] [] [] []]; reflexivity. Qed.

Lemma p_json_chars_print cs rest :
  p_json_chars ((cs ≫= escape_char) ++ quote :: rest) = Some (cs, rest).
Proof.
  induction cs as [|c cs IH]; [done|].
  change ((c :: cs) ≫= escape_char) with (escape_char c ++ (cs ≫= escape_char)).
  by rewrite <-app_assoc, p_json_chars_escape, IH.
Qed.

Lemma p_json_string_print s rest :
  p_json_string (print_json_string s ++ rest) = Some (s, rest).
Proof.
  unfold print_json_string, p_json_string. rewrite <-app_comm_cons.
  rewrite decide_True, <-app_assoc by done.
  change ([quote] ++ rest) with (quote :: rest).
  rewrite p_json_chars_print. cbn [mbind option_bind]. by rewrite string_of_chars_of.
Qed.

(** ** Lemmas: numbers *)

Lemma int_of_print z :
  int_of (z <? 0)%Z (N.to_uint (Z.abs_N z)) = z.
Proof.
  unfold int_of. rewrite DecimalN.Unsigned.of_to.
  destruct (Z.ltb_spec z 0); lia.
Qed.

Lemma p_json_int_print z rest :
  avoids is_digit rest → p_json_int (print_int z ++ rest) = Some (z, rest).
Proof.
  intros Hr. unfold p_json_int, print_int.
  rewrite <-app_assoc, bind_run, p_sign_print
    by apply chars_of_uint_starts, N_to_uint_nonnil.
  rewrite bind_run. unfold p_filter.
  rewrite p_uint_print by auto using N_to_uint_nonnil.
  by rewrite N_to_uint_canonical, ret_run, int_of_print.
Qed.

Lemma print_int_starts z rest :
  starts_with starts_number (print_int z ++ rest) = true.
Proof.
  unfold print_int, starts_number, class_or. destruct (z <? 0)%Z; [done|].
  rewrite <-app_assoc. simpl.
  pose proof (chars_of_uint_starts (N.to_uint (Z.abs_N z)) rest
                (N_to_uint_nonnil _)) as Hd.
  destruct (_ ++ rest) as [|c r]; [done|]. simpl in *. by rewrite Hd.
Qed.

(** ** Lemmas: the cases of [p_json] *)

Lemma p_json_string_eq fuel r :
  p_json (S fuel) (quote :: r) =
  '(x, r') ← p_json_string (quote :: r); Some (VString x, r').
Proof. reflexivity. Qed.

Lemma p_json_array_eq fuel r :
  p_json (S fuel) ("[" :: r) =
  '(xs, r') ← p_json_list fuel (p_json fuel) "]" r; Some (VArray xs, r').
Proof. reflexivity. Qed.

Lemma p_json_object_eq fuel r :
  p_json (S fuel) ("{" :: r) =
  '(ps, r') ← p_json_list fuel (p_json_member (p_json fuel)) "}" r;
  Some (VObject (entries ps), r').
Proof. reflexivity. Qed.

Lemma p_json_number_eq fuel s :
  starts_with starts_number s = true →
  p_json (S fuel) s = '(n, r') ← p_json_int s; Some (VNumber n, r').
Proof.
  destruct s as [|c r]; [done|]. intros Hc.
  destruct c as [[] [] [] [] [] [] [] []]; first [discriminate Hc|reflexivity].
Qed.

(** No blank is skipped before a delimiter or a value. *)
Lemma skip_ws_avoids s : avoids is_space s → skip_ws s = s.
Proof. intros Hs. unfold skip_ws. by rewrite span_stop. Qed.

Lemma delimiter_not_space : disjoint_classes is_delimiter is_space.
Proof. solve_class. Qed.

Lemma value_not_space : disjoint_classes starts_value is_space.
Proof. solve_class. Qed.

Lemma value_not_delimiter : disjoint_classes starts_value is_delimiter.
Proof. solve_class. Qed.

Lemma after_value_avoids_digit rest : after_value rest → avoids is_digit rest.
Proof.
  apply avoids_weaken. intros c Hc.
  destruct c as [[] [] [] [] [] [] [] []]; first [discriminate Hc|reflexivity].
Qed.

Lemma after_value_delimiter c rest : is_delimiter c = true → after_value (c :: rest).
Proof. unfold after_value, avoids. simpl. by intros ->. Qed.

(** ** Lemmas: lists *)

Lemma print_commas_cons {A} (pr : A → chars) x xs :
  xs ≠ [] → print_commas pr (x :: xs) = pr x ++ "," :: print_commas pr xs.
Proof. by destruct xs. Qed.

Lemma print_commas_length_elem {A} (pr : A → chars) x xs :
  x ∈ xs → length (pr x) ≤ length (print_commas pr xs).
Proof.
  induction xs as [|y xs IH]; [by intros ?%elem_of_nil|].
  destruct (decide (xs = [])) as [->|Hne].
  - intros ->%list_elem_of_singleton. done.
  - rewrite print_commas_cons, length_app by done. simpl.
    intros [->|Hin%IH]%elem_of_cons; lia.
Qed.

Lemma print_commas_length {A} (pr : A → chars) xs :
  Forall (λ x, pr x ≠ []) xs → length xs ≤ length (print_commas pr xs).
Proof.
  induction 1 as [|x xs Hx Hxs IH]; [done|].
  destruct (decide (xs = [])) as [->|Hne].
  - simpl. destruct (pr x); [done|]. simpl. lia.
  - rewrite print_commas_cons, length_app by done. simpl in *. lia.
Qed.

Section lists.
Context {A : Type} (p : parser A) (pr : A → chars) (close : ascii).
Context (Hclose : is_delimiter close = true) (Hcomma : close ≠ ",").
Implicit Types (x : A) (xs : list A).

Lemma p_json_seq_print n xs rest :
  xs ≠ [] → length xs ≤ n → Forall (element_ok p pr) xs →
  p_json_seq n p close (print_commas pr xs ++ close :: rest) = Some (xs, rest).
Proof.
  intros Hne Hn Hall. revert n Hn.
  induction Hall as [|x xs [Hx _] Hall IH]; [done|].
  intros [|n] Hn; [simpl in Hn; lia|]. simpl in Hn.
  destruct (decide (xs = [])) as [->|Hxs].
  - cbn [p_json_seq print_commas].
    rewrite Hx by by apply after_value_delimiter. cbn [mbind option_bind].
    rewrite skip_ws_avoids by by apply delimiter_not_space. cbv beta iota.
    by rewrite decide_False, decide_True.
  - rewrite print_commas_cons, <-app_assoc by done. cbn [p_json_seq].
    rewrite Hx by by apply after_value_delimiter. cbn [mbind option_bind].
    rewrite <-app_comm_cons, skip_ws_avoids by done. cbv beta iota.
    rewrite decide_True by done. by rewrite IH by (done || lia).
Qed.

Lemma p_json_list_print n xs rest :
  length xs ≤ n → Forall (element_ok p pr) xs →
  p_json_list n p close (print_commas pr xs ++ close :: rest) = Some (xs, rest).
Proof.
  intros Hn Hall. unfold p_json_list. destruct xs as [|x xs].
  - simpl. rewrite skip_ws_avoids by by apply delimiter_not_space.
    cbv beta iota. by rewrite decide_True.
  - pose proof (p_json_seq_print n (x :: xs) rest) as Hseq.
    assert (∃ r, print_commas pr (x :: xs) ++ close :: rest = pr x ++ r)
      as [r Hr].
    { destruct (decide (xs = [])) as [->|Hne]; [by eexists|].
      eexists. by rewrite print_commas_cons, <-app_assoc by done. }
    apply Forall_cons_1 in Hall as Hx. destruct Hx as [[_ Hx] _].
    specialize (Hx r). rewrite <-Hr in Hx.
    destruct (print_commas pr (x :: xs) ++ close :: rest) as [|c t]; [done|].
    simpl in Hx. rewrite skip_ws_avoids by by apply value_not_space.
    cbv beta iota. rewrite decide_False; [by apply Hseq|].
    intros ->. by rewrite (value_not_delimiter _ Hx) in Hclose.
Qed.

End lists.

(** ** Lemmas: values *)

Lemma stringify_starts v rest :
  starts_with starts_value (stringify v ++ rest) = true.
Proof.
  destruct v as [s|n|xs|ps]; try done. cbn [stringify].
  pose proof (print_int_starts n rest) as Hn.
  destruct (print_int n ++ rest) as [|c r]; [done|].
  unfold starts_value, class_or. simpl in *. by rewrite Hn.
Qed.

Lemma stringify_nonempty v : stringify v ≠ [].
Proof.
  intros E. pose proof (stringify_starts v []) as H. by rewrite E in H.
Qed.

Lemma p_json_member_print (p : parser value) k x rest :
  (∀ rest', after_value rest' → p (stringify x ++ rest') = Some (x, rest')) →
  after_value rest →
  p_json_member p ((print_json_string k ++ ":" :: stringify x) ++ rest)
    = Some ((k, x), rest).
Proof.
  intros Hp Hrest. unfold p_json_member.
  rewrite <-app_assoc, skip_ws_avoids, p_json_string_print by done.
  cbn [mbind option_bind]. rewrite <-app_comm_cons, skip_ws_avoids by done.
  cbv beta iota. rewrite decide_True by done. by rewrite Hp.
Qed.

(** The elements of a written array are read back with less fuel. *)
Lemma elements_ok fuel xs :
  Forall (λ x, ∀ fuel rest, length (stringify x) < fuel → after_value rest →
                p_json fuel (stringify x ++ rest) = Some (x, rest)) xs →
  length (print_commas stringify xs) < fuel →
  Forall (element_ok (p_json fuel) stringify) xs.
Proof.
  rewrite !Forall_forall. intros IH Hfuel x Hx. split.
  - intros rest Hrest. apply IH; [done| |done].
    pose proof (print_commas_length_elem stringify x xs Hx). lia.
  - apply stringify_starts.
Qed.

Lemma members_ok fuel (ps : props) :
  Forall (λ p, ∀ fuel rest, length (stringify p.2) < fuel → after_value rest →
                p_json fuel (stringify p.2 ++ rest) = Some (p.2, rest)) ps →
  length (print_commas
            (λ p, print_json_string p.1 ++ ":" :: stringify p.2) ps) < fuel →
  Forall (element_ok (p_json_member (p_json fuel))
            (λ p, print_json_string p.1 ++ ":" :: stringify p.2)) ps.
Proof.
  rewrite !Forall_forall. intros IH Hfuel [k x] Hx. split; [|done].
  intros rest Hrest. apply p_json_member_print; [|done].
  intros rest' Hrest'. apply (IH _ Hx); [|done].
  pose proof (print_commas_length_elem
    (λ p, print_json_string p.1 ++ ":" :: stringify p.2) _ ps Hx) as Hlen.
  cbv beta in Hlen. cbn [fst snd] in Hlen.
  rewrite length_app in Hlen. simpl in *. lia.
Qed.

(** A written value is read back, with any fuel above the length of its
    text. *)
Lemma p_json_stringify v :
  wf_value v → ∀ fuel rest, length (stringify v) < fuel → after_value rest →
  p_json fuel (stringify v ++ rest) = Some (v, rest).
Proof.
  induction v as [s|n|xs IH|ps IH] using value_ind;
    intros Hwf [|fuel] rest Hfuel Hrest; try (by inversion Hfuel).
  - pose proof (p_json_string_print s rest) as Hs.
    cbn [stringify]. unfold print_json_string in *.
    rewrite <-app_comm_cons in *. by rewrite p_json_string_eq, Hs.
  - cbn [stringify]. rewrite p_json_number_eq by apply print_int_starts.
    by rewrite p_json_int_print by by apply after_value_avoids_digit.
  - cbn [stringify] in *. rewrite <-app_comm_cons, <-app_assoc, p_json_array_eq.
    cbn [length] in Hfuel. rewrite length_app in Hfuel. cbn [length] in Hfuel.
    inversion Hwf as [| |? Hxs|]; subst.
    change (["]"] ++ rest) with ("]" :: rest).
    rewrite (p_json_list_print _ stringify "]"); [done..| |].
    + etransitivity; [apply (print_commas_length stringify)|lia].
      apply Forall_forall. intros x _. apply stringify_nonempty.
    + apply elements_ok; [|lia]. rewrite Forall_forall in IH, Hxs |- *.
      intros x Hx fuel' rest' ? ?. apply IH; auto.
  - cbn [stringify] in *. rewrite <-app_comm_cons, <-app_assoc, p_json_object_eq.
    cbn [length] in Hfuel. rewrite length_app in Hfuel. cbn [length] in Hfuel.
    pose proof Hwf as (_ & _ & Hps)%wf_object_inv.
    change (["}"] ++ rest) with ("}" :: rest).
    rewrite (p_json_list_print _
      (λ p, print_json_string p.1 ++ ":" :: stringify p.2) "}"); [|done..| |].
    + cbn [mbind option_bind]. by rewrite entries_wf.
    + etransitivity; [apply (print_commas_length
        (λ p, print_json_string p.1 ++ ":" :: stringify p.2))|lia].
      apply Forall_forall. by intros [k x] _.
    + apply members_ok; [|lia]. rewrite Forall_forall in IH, Hps |- *.
      intros p Hp fuel' rest' ? ?. apply IH; auto.
Qed.

(** A well-formed literal denotes itself. *)
Lemma normalize_wf v : wf_value v → normalize v = v.
Proof.
  induction v as [s|n|xs IH|ps IH] using value_ind; intros Hwf; try done.
  - inversion Hwf as [| |? Hxs|]; subst. cbn [normalize]. f_equal.
    rewrite <-(list_fmap_id xs) at 2. apply Forall_fmap_ext_1.
    rewrite Forall_forall in IH, Hxs |- *. auto.
  - pose proof Hwf as (_ & _ & Hps)%wf_object_inv. cbn [normalize].
    assert ((λ p, (p.1, normalize p.2)) <$> ps = ps) as ->.
    { rewrite <-(list_fmap_id ps) at 2. apply Forall_fmap_ext_1.
      rewrite Forall_forall in IH, Hps |- *. intros [k x] Hin. simpl.
      f_equal. by apply (IH (k, x)), (Hps (k, x)). }
    by rewrite entries_wf.
Qed.

Lemma after_value_nil : after_value [].
Proof. done. Qed.

(** ** The round trip *)

(** Writing a well-formed value and reading the text gives the value
    back. *)
Theorem json_roundtrip v : wf_value v → json_parse (json_stringify v) = Some v.
Proof.
  intros Hwf. unfold json_parse, json_stringify.
  rewrite normalize_wf, chars_of_string_of by done.
  rewrite <-(app_nil_r (stringify v)) at 2.
  rewrite p_json_stringify; [done|done| |done].
  rewrite length_string_of. lia.
Qed.

