(* ===== verification/Config.v ===== *)
(** * Config: the configuration object of [src/tailwind.config.js]

    The first part of this file is the source file, property by
    property, as a [JsValue.value]: every definition carries the name
    the source gives the property and lists its entries in source
    order.  [module_exports] is the value the module assigns to
    [module.exports].

    The second part states what the table is expected to be: the kind of
    value each category holds ([token_kind]), the list of all tokens
    with their category ([tokens_of]), the shape of the whole object
    ([config_shape]).

    The theorems show that the literal is well formed (no name bound
    twice, at any level; no key JavaScript would reorder; exact
    numbers), and what follows from that for a reader of the object:
    a token is found under its path exactly when the source writes it,
    enumeration lists the tokens in source order, and every token has
    the kind of its category. *)

From S2P Require Import Prelude Lexical JsValue.

(** ** The source, transcribed *)

Definition content : list value := [
  VString "./index.html";
  VString "./src/**/*.{svelte,js,ts,jsx,tsx}"
].

Definition colors : props := [
  ("background1", VString "#1E1E1E");
  ("background2", VString "#2E2E2E");
  ("background3", VString "#383838");
  ("background4", VString "#373737");
  ("background5", VString "#444444");
  ("backgroundInactive", VString "#2E2E2E");
  ("backgroundInverse", VString "#EBEBEB");
  ("backgroundInput", VString "rgba(0, 0, 0, 0.15)");
  ("actionPrimaryBackground", VString "#006ACC");
  ("actionPrimaryBackgroundHover", VString "#187CD9");
  ("actionPrimaryText", VString "#FFFFFF");
  ("actionSecondaryText", VString "#E0E0E0");
  ("text1", VString "#F5F5F5");
  ("text2", VString "#BDBDBD");
  ("text3", VString "#A3A3A3");
  ("textInactive", VString "#757575");
  ("textInverse", VString "#1E1E1E");
  ("border1", VString "rgba(255, 255, 255, 0.13)");
  ("border2", VString "rgba(255, 255, 255, 0.14)");
  ("border3", VString "rgba(255, 255, 255, 0.19)")
].

Definition backgroundImage : props := [
  ("action-secondary", VString "linear-gradient(180deg, rgba(255, 255, 255, 0.12) 0%, rgba(255, 255, 255, 0.10) 100%)");
  ("action-secondary-hover", VString "linear-gradient(180deg, rgba(255, 255, 255, 0.18) 0%, rgba(255, 255, 255, 0.16) 100%)")
].

Definition boxShadow : props := [
  ("action-colored", VString "0px 0.5px 1px 0px rgba(0, 0, 0, 0.8), 0px 0.5px 0.5px 0px rgba(255, 255, 255, 0.20) inset");
  ("action-secondary", VString "0px 0.5px 1px rgba(0, 0, 0, 0.8), inset 0px 0.5px 0.5px rgba(255, 255, 255, 0.12)");
  ("input-inner", VString "0px 1px 1px -1px rgba(0, 0, 0, 0.13) inset, 0px 3px 3px -3px rgba(0, 0, 0, 0.17) inset, 0px 4px 4px -4px rgba(0, 0, 0, 0.17) inset, 0px 8px 8px -8px rgba(0, 0, 0, 0.17) inset, 0px 12px 12px -12px rgba(0, 0, 0, 0.13) inset, 0px 16px 16px -16px rgba(0, 0, 0, 0.13) inset");
  ("menu", VString "0px 0.5px 0.5px 0px rgba(255, 255, 255, 0.12) inset, 0px 12px 24px 8px rgba(0, 0, 0, 0.04), 0px 8px 16px 4px rgba(0, 0, 0, 0.04), 0px 4px 8px 2px rgba(0, 0, 0, 0.04), 0px 2px 6px 0px rgba(0, 0, 0, 0.04), 0px 0px 1px 0px rgba(0, 0, 0, 0.25)")
].

Definition fontFamily : props := [
  ("sans", VArray [VString "Inter"; VString "sans-serif"])
].

Definition fontSize : props := [
  ("small", VString "11.5px");
  ("large", VString "12.5px")
].

Definition fontWeight : props := [
  ("normal", VNumber 400);
  ("medium", VNumber 600)
].

Definition letterSpacing : props := [
  ("small", VString "-0.115px")
].

Definition borderRadius : props := [
  ("DEFAULT", VString "4px")
].

Definition extend : props := [
  ("colors", VObject colors);
  ("backgroundImage", VObject backgroundImage);
  ("boxShadow", VObject boxShadow);
  ("fontFamily", VObject fontFamily);
  ("fontSize", VObject fontSize);
  ("fontWeight", VObject fontWeight);
  ("letterSpacing", VObject letterSpacing);
  ("borderRadius", VObject borderRadius)
].

Definition theme : props := [
  ("extend", VObject extend)
].

Definition plugins : list value := [].

Definition module_exports : value := VObject [
  ("content", VArray content);
  ("theme", VObject theme);
  ("plugins", VArray plugins)
].


(** ** What the table is expected to be *)

(** Every token of a table of categories, with its category. *)
Definition tokens_of (table : props) : list (string * string * value) :=
  '(category, w) ← table;
  match w with
  | VObject tokens => (λ '(name, v), (category, name, v)) <$> tokens
  | _ => []
  end.

(** The kind of value the tokens of a category hold: numbers for font
    weights, a list of family names for font families, CSS text for the
    others. *)
Definition token_kind (category : string) : kind :=
  if decide (category = "fontWeight") then KNumber
  else if decide (category = "fontFamily") then KArray
  else KString.

(** The shape of the exported object: globs to scan, a theme that only
    extends, and plugins. *)
Definition config_shape (cfg : value) : Prop :=
  ∃ globs table plugs,
    cfg = VObject [("content", VArray globs);
                   ("theme", VObject [("extend", VObject table)]);
                   ("plugins", VArray plugs)] ∧
    Forall (λ g, kind_of g = KString) globs ∧
    Forall (λ p, kind_of p.2 = KObject) table.

(** The path of a token of the theme extension. *)
Definition token_path (category name : string) : list string :=
  ["theme"; "extend"; category; name].

(** The check under which a table of categories reads as it is written:
    the table is well formed and every category is an object. *)
Definition table_ok (table : props) : bool :=
  wf_valueb (VObject table) &&
  forallb (λ p, bool_decide (kind_of p.2 = KObject)) table.

(** ** Lemmas *)

Lemma elem_of_tokens_of table category name v :
  (category, name, v) ∈ tokens_of table ↔
  ∃ tokens, (category, VObject tokens) ∈ table ∧ (name, v) ∈ tokens.
Proof.
  unfold tokens_of. rewrite list_elem_of_bind. split.
  - intros ([c w] & Hin & Hc). destruct w as [| | |tokens]; try by inversion Hin.
    apply list_elem_of_fmap in Hin as ([n x] & [= -> -> ->] & Hn). eauto.
  - intros (tokens & Hc & Hn). exists (category, VObject tokens). split; [|done].
    apply list_elem_of_fmap. by exists (name, v).
Qed.

Section table.
  Context (table : props) (Hok : table_ok table = true).

Lemma table_wf : wf_value (VObject table).
Proof. apply wf_valueb_spec. by apply andb_prop in Hok as [? _]. Qed.

Lemma table_objects : Forall (λ p, kind_of p.2 = KObject) table.
Proof.
  apply andb_prop in Hok as [_ Hk]. rewrite forallb_Forall in Hk.
  eapply Forall_impl; [exact Hk|]. by intros p ?%bool_decide_eq_true.
Qed.

Lemma table_categories category w :
  (category, w) ∈ table → ∃ tokens, w = VObject tokens ∧ wf_value w.
Proof.
  intros Hin. pose proof table_wf as (_ & _ & Hall)%wf_object_inv.
  apply andb_prop in Hok as [_ Hk]. rewrite forallb_Forall in Hk.
  rewrite Forall_forall in Hall, Hk.
  specialize (Hall _ Hin). specialize (Hk _ Hin). simpl in *.
  apply bool_decide_eq_true in Hk. destruct w; try done. eauto.
Qed.

(** A token is read under its path exactly when the table writes it. *)
Lemma table_lookup category name v :
  get_path (VObject table) [category; name] = Some v ↔
  (category, name, v) ∈ tokens_of table.
Proof.
  rewrite elem_of_tokens_of.
  change (get_path (VObject table) [category; name])
    with (w ← get (VObject table) category; w' ← get w name; Some w').
  split.
  - destruct (get _ category) as [w|] eqn:Hc; simpl; [|done].
    apply (get_wf_object _ _ _ table_wf) in Hc.
    destruct (table_categories _ _ Hc) as (tokens & -> & Hwf).
    destruct (get _ name) as [w'|] eqn:Hn; simpl; [|done]. intros [= ->].
    exists tokens. split; [done|]. by apply (get_wf_object _ _ _ Hwf).
  - intros (tokens & Hc & Hn).
    destruct (table_categories _ _ Hc) as (? & _ & Hwf).
    apply (get_wf_object _ _ _ table_wf) in Hc.
    apply (get_wf_object _ _ _ Hwf) in Hn. rewrite Hc. simpl in *. by rewrite Hn.
Qed.

(** Each category enumerates as written. *)
Lemma table_category_order category tokens :
  (category, VObject tokens) ∈ table →
  entries tokens = tokens ∧ own_keys tokens = tokens.*1.
Proof.
  intros (? & [= <-] & Hwf)%table_categories.
  split; auto using entries_wf, own_keys_wf.
Qed.

End table.

(** ** Theorems *)

(** C1: the object literal of the source is well formed: at every level
    no property name is written twice, no key is an array index (which
    JavaScript would move to the front), and every number is an integer
    a double holds exactly. *)
Theorem module_exports_wf : wf_value module_exports.
Proof. apply wf_valueb_spec. by vm_compute. Qed.

(** C5: reading [theme.extend.<category>.<name>] from the exported
    object gives the value the source writes for that token, which is
    the only one it writes for it; and it gives [undefined] exactly when
    the source writes no such token.  Nothing is shadowed and nothing is
    invented. *)
Theorem token_lookup_literal category name :
  match get_path module_exports (token_path category name) with
  | Some v =>
      (category, name, v) ∈ tokens_of extend ∧
      ∀ v', (category, name, v') ∈ tokens_of extend → v' = v
  | None => ∀ v, (category, name, v) ∉ tokens_of extend
  end.
Proof.
  assert (table_ok extend = true) as Hok by by vm_compute.
  change (get_path module_exports (token_path category name))
    with (get_path (VObject extend) [category; name]).
  destruct (get_path _ _) as [v|] eqn:E.
  - split; [by apply table_lookup|].
    intros v' Hv'%table_lookup; [|done]. by simplify_eq.
  - intros v Hv%table_lookup; [|done]. by simplify_eq.
Qed.

(** C11: every token has the JavaScript kind of its category: the font
    weights are numbers, the font family is an array, every other token
    is a string. *)
Theorem token_kinds category name v :
  (category, name, v) ∈ tokens_of extend → kind_of v = token_kind category.
Proof.
  assert (Forall (λ t, kind_of t.2 = token_kind t.1.1) (tokens_of extend))
    as H by reflect_decide.
  rewrite Forall_forall in H. intros Hin. apply (H _ Hin).
Qed.

Lemma token_kinds_witness : kind_of (VNumber 400) = KNumber.
Proof.
  apply (token_kinds "fontWeight" "normal" (VNumber 400)). reflect_decide.
Defined.

(** C17: enumerating the theme extension, or any of its categories,
    lists the properties in the order of the source. *)
Theorem enumeration_is_source_order category tokens :
  (category, VObject tokens) ∈ extend →
  entries extend = extend ∧ entries tokens = tokens ∧
  own_keys tokens = tokens.*1.
Proof.
  assert (table_ok extend = true) as Hok by by vm_compute.
  intros [? ?]%table_category_order; [|done].
  split_and!; [|done..]. apply entries_wf. by apply table_wf.
Qed.

Lemma enumeration_is_source_order_witness :
  entries extend = extend ∧ entries fontSize = fontSize ∧
  own_keys fontSize = ["small"; "large"].
Proof.
  apply (enumeration_is_source_order "fontSize" fontSize). reflect_decide.
Defined.

(** C16: the exported object has the three properties [content], [theme]
    and [plugins]; the content globs are strings; the theme has the one
    property [extend], so it replaces no category of the framework's
    default theme; every category is an object. *)
Theorem module_exports_shape : config_shape module_exports.
Proof.
  exists content, extend, plugins. split_and!; [done|reflect_decide..].
Qed.

(** C36: [fontFamily.sans] is an array of two strings, neither a string
    nor a number: the one token of the table that is not a literal. *)
Theorem fontFamily_sans_is_array :
  get_path module_exports (token_path "fontFamily" "sans")
    = Some (VArray [VString "Inter"; VString "sans-serif"]) ∧
  ∀ category name v,
    (category, name, v) ∈ tokens_of extend →
    kind_of v = KArray → category = "fontFamily" ∧ name = "sans".
Proof.
  split; [by vm_compute|]. intros category name v Hin Hk.
  assert (Forall (λ t, kind_of t.2 = KArray → t.1 = ("fontFamily", "sans"))
            (tokens_of extend)) as H by reflect_decide.
  rewrite Forall_forall in H. specialize (H _ Hin Hk). by simplify_eq/=.
Qed.
