(* ===== verification/Reload.v ===== *)
(** * Reload: the configuration written as JSON and loaded again

    The configuration object written with [JSON.stringify] and read with
    [JSON.parse] is the object of the source: no key and no value is
    lost or changed on the way, because the literal binds no key twice,
    has no key that JavaScript would move, and holds only strings,
    exact integers, arrays and objects.  The theorem is the round trip
    of [Json] at [Config.module_exports]. *)

From S2P Require Import Prelude Lexical Grammar JsValue Json Config.

(** ** The text *)

(** The configuration as [JSON.stringify] writes it. *)
Definition config_json : string := json_stringify module_exports.

(** ** Theorems *)

(** C9: writing the exported object as JSON and reading the text back
    gives the object of the source, with every category, every token
    and every value as written and in the order written. *)
Theorem module_exports_reloads :
  json_parse config_json = Some module_exports.
Proof.
  unfold config_json.
  assert (wf_valueb module_exports = true) as Hwf by by vm_compute.
  by apply json_roundtrip, wf_valueb_spec.
Qed.
