(* ===== verification/CssColor.v ===== *)
(** * CssColor: the grammar of the colours of the palette

    The palette writes its colours in two forms: [#RRGGBB], six
    hexadecimal digits, and [rgba(r, g, b, a)], three integer channels
    and an alpha.  This file defines

    - [color], the values;
    - [color_text], the grammar, as an inductive relation between a text
      and the colour it denotes: hexadecimal digits of either case;
      optional blanks around the arguments of [rgba]; channels at most
      255; alpha between 0 and 1;
    - [p_color], the parser, built from the parsers of [Lexical], and
      [g_color], its grammar built from the grammars of [Grammar];
    - [print_color], the canonical text of a colour: upper-case
      hexadecimal digits, one space after each comma, no leading zero;
    - what a colour is when it is painted: its channels, its alpha as a
      rational, whether it is grey.

    The theorems: the parser reads exactly the texts of the grammar
    ([parses_color], [g_color_text]); a printed colour is a text of the
    grammar and is read back ([print_color_text],
    [parse_print_color]); what is read is well formed ([color_text_wf]),
    with alpha between 0 and 1 as a rational ([alpha_ok_bounds]).

    The grammar is the subset of CSS Color that the table uses; it has
    no named colours, no three- or eight-digit hexadecimal form, no
    percentages, and [rgba] is written in lower case. *)

From Stdlib Require Import Decimal DecimalN QArith.
From S2P Require Import Prelude Lexical Grammar.

#[local] Open Scope char_scope.

(** ** Colours *)

Inductive color : Type :=
| Hex (r g b : N)
| Rgba (r g b : N) (a : number).

#[export] Instance color_eq_dec : EqDecision color.
Proof. solve_decision. Defined.

Definition channel_ok (n : N) : bool := (n <? 256)%N.

(** An alpha is not negative and at most one. *)
Definition alpha_ok (a : number) : bool :=
  negb (num_neg a) && (num_scaled a <=? 10 ^ Z.of_N (num_places a))%Z.

Definition wf_color (c : color) : Prop :=
  match c with
  | Hex r g b => (r < 256 ∧ g < 256 ∧ b < 256)%N
  | Rgba r g b a =>
      (r < 256 ∧ g < 256 ∧ b < 256)%N ∧ wf_number a ∧ alpha_ok a = true
  end.

#[export] Instance wf_color_dec c : Decision (wf_color c).
Proof. destruct c; unfold wf_color, wf_number; apply _. Defined.

(** The channels of a colour, and its alpha (one for the hexadecimal
    form). *)
Definition channels (c : color) : N * N * N :=
  match c with
  | Hex r g b | Rgba r g b _ => (r, g, b)
  end.

Definition alpha (c : color) : Q :=
  match c with
  | Hex _ _ _ => 1
  | Rgba _ _ _ a => number_to_Q a
  end.

Definition is_opaque (c : color) : bool := Qeq_bool (alpha c) 1.

Definition is_grey (c : color) : bool :=
  let '(r, g, b) := channels c in (r =? g)%N && (g =? b)%N.

Definition is_black (c : color) : Prop := channels c = (0, 0, 0)%N.

Definition is_white (c : color) : Prop := channels c = (255, 255, 255)%N.

#[export] Instance is_black_dec c : Decision (is_black c).
Proof. unfold is_black. apply _. Defined.

#[export] Instance is_white_dec c : Decision (is_white c).
Proof. unfold is_white. apply _. Defined.

(** ** The grammar *)

(** A channel of [rgba]: a decimal numeral of a value below 256. *)
Inductive channel_text : chars → N → Prop :=
| channel_text_intro u :
    u ≠ Nil → (N.of_uint u < 256)%N →
    channel_text (chars_of_uint u) (N.of_uint u).

(** A byte of the hexadecimal form: two digits of either case. *)
Inductive hex_text : chars → N → Prop :=
| hex_text_intro h l a b :
    hex_val h = Some a → hex_val l = Some b →
    hex_text [h; l] (16 * a + b)%N.

(** A comma with optional blanks on both sides. *)
Inductive comma_text : chars → Prop :=
| comma_text_intro w1 w2 : blank w1 → blank w2 → comma_text (w1 ++ "," :: w2).

Inductive color_text : chars → color → Prop :=
| color_text_hex tr tg tb r g b :
    hex_text tr r → hex_text tg g → hex_text tb b →
    color_text ("#" :: tr ++ tg ++ tb) (Hex r g b)
| color_text_rgba w1 tr c1 tg c2 tb c3 w2 r g b a :
    blank w1 → channel_text tr r → comma_text c1 →
    channel_text tg g → comma_text c2 → channel_text tb b →
    comma_text c3 → wf_number a → alpha_ok a = true → blank w2 →
    color_text
      (chars_of "rgba(" ++ w1 ++ tr ++ c1 ++ tg ++ c2 ++ tb ++ c3 ++
       print_number a ++ w2 ++ [")"])
      (Rgba r g b a).

(** ** The parser, and its grammar by composition *)

Definition p_channel : parser N := p_filter channel_ok (N.of_uint <$> p_uint).

Definition p_alpha : parser number := p_filter alpha_ok p_number.

Definition p_comma : parser () := _ ← p_ws; _ ← p_lit [","]; p_ws.

Definition p_hex : parser color :=
  _ ← p_lit ["#"];
  r ← p_hex_byte; g ← p_hex_byte; b ← p_hex_byte; mret (Hex r g b).

Definition p_rgba : parser color :=
  _ ← p_lit (chars_of "rgba("); _ ← p_ws;
  r ← p_channel; _ ← p_comma; g ← p_channel; _ ← p_comma;
  b ← p_channel; _ ← p_comma; a ← p_alpha; _ ← p_ws; _ ← p_lit [")"];
  mret (Rgba r g b a).

Definition p_color : parser color := p_or p_hex p_rgba.

Definition parse_color (s : string) : option color := parse_all p_color s.

Definition g_channel : grammar N := g_filter channel_ok (g_fmap N.of_uint g_uint).

Definition g_alpha : grammar number := g_filter alpha_ok g_number.

Definition g_comma : grammar () :=
  g_bind g_ws (λ _, g_bind (g_lit [","]) (λ _, g_ws)).

Definition g_hex : grammar color :=
  g_bind (g_lit ["#"]) (λ _,
  g_bind g_hex_byte (λ r, g_bind g_hex_byte (λ g, g_bind g_hex_byte (λ b,
  g_ret (Hex r g b))))).

Definition g_rgba : grammar color :=
  g_bind (g_lit (chars_of "rgba(")) (λ _, g_bind g_ws (λ _,
  g_bind g_channel (λ r, g_bind g_comma (λ _,
  g_bind g_channel (λ g, g_bind g_comma (λ _,
  g_bind g_channel (λ b, g_bind g_comma (λ _,
  g_bind g_alpha (λ a, g_bind g_ws (λ _, g_bind (g_lit [")"]) (λ _,
  g_ret (Rgba r g b a)))))))))))).

Definition g_color : grammar color := g_or g_hex g_rgba.

(** ** The printer *)

Definition print_channel (n : N) : chars := chars_of_uint (N.to_uint n).

Definition print_color (c : color) : chars :=
  match c with
  | Hex r g b =>
      "#" :: print_hex_byte r ++ print_hex_byte g ++ print_hex_byte b
  | Rgba r g b a =>
      chars_of "rgba(" ++ print_channel r ++ chars_of ", " ++
      print_channel g ++ chars_of ", " ++ print_channel b ++ chars_of ", " ++
      print_number a ++ [")"]
  end.

Definition color_to_string (c : color) : string := string_of (print_color c).

(** First characters. *)
Definition starts_comma : ascii → bool := class_or is_space (is_char ",").
Definition starts_close : ascii → bool := class_or is_space (is_char ")").
Definition starts_color : ascii → bool := class_or (is_char "#") (is_char "r").

(** ** Lemmas: the parts *)

Lemma parses_channel : parses p_channel g_channel (avoids is_digit).
Proof. unfold p_channel, g_channel. auto with theme. Qed.

Lemma parses_alpha : parses p_alpha g_alpha (avoids continues_number).
Proof. unfold p_alpha, g_alpha. auto with theme. Qed.

Lemma g_starts_channel : g_starts g_channel is_digit.
Proof. unfold g_channel. auto with theme. Qed.

Lemma g_starts_alpha : g_starts g_alpha starts_number.
Proof. unfold g_alpha. auto with theme. Qed.

Lemma g_starts_comma : g_starts g_comma starts_comma.
Proof. apply g_starts_ws_bind. intros _. auto with theme. Qed.

Lemma g_starts_close {A} (K : () → grammar A) :
  g_starts (g_bind g_ws (λ _, g_bind (g_lit [")"]) K)) starts_close.
Proof. apply g_starts_ws_bind. intros _. auto with theme. Qed.

Lemma digit_not_space : disjoint_classes is_digit is_space.
Proof. solve_class. Qed.

Lemma number_not_space : disjoint_classes starts_number is_space.
Proof. solve_class. Qed.

Lemma comma_not_space : disjoint_classes (is_char ",") is_space.
Proof. solve_class. Qed.

Lemma close_not_space : disjoint_classes (is_char ")") is_space.
Proof. solve_class. Qed.

Lemma comma_not_digit : disjoint_classes starts_comma is_digit.
Proof. solve_class. Qed.

Lemma close_not_number : disjoint_classes starts_close continues_number.
Proof. solve_class. Qed.

Lemma hash_not_rgba : disjoint_classes (is_char "r") (is_char "#").
Proof. solve_class. Qed.

#[export] Hint Resolve parses_channel parses_alpha g_starts_channel
  g_starts_alpha g_starts_comma g_starts_close digit_not_space
  number_not_space comma_not_space close_not_space comma_not_digit
  close_not_number : theme.

Lemma parses_comma : parses p_comma g_comma (avoids is_space).
Proof.
  unfold p_comma, g_comma.
  eapply (parses_bind_starts _ _ _ _ _ _ (is_char ","));
    [apply parses_ws| |intros _; auto with theme|auto with theme].
  intros _. eapply parses_bind_free; [apply parses_lit|]. intros _. apply parses_ws.
Qed.

#[export] Hint Resolve parses_comma : theme.

Lemma g_comma_print : g_comma (chars_of ", ") ().
Proof.
  apply g_bind_ws_skip, (g_bind_intro _ _ [","] [" "] ()); by vm_compute.
Qed.

(** No comma where, after blanks, something else stands. *)
Lemma p_comma_None w rest :
  blank w → avoids is_space rest → avoids (is_char ",") rest →
  p_comma (w ++ rest) = None.
Proof.
  intros Hw Hs Hc. unfold p_comma. rewrite bind_run. unfold p_ws at 1.
  rewrite (span_app _ _ _ Hw Hs). cbn [snd]. rewrite bind_run.
  destruct rest as [|c r]; [done|]. cbn [p_lit].
  apply bool_decide_eq_false in Hc. by rewrite decide_False.
Qed.

Lemma parses_hex follow : parses p_hex g_hex follow.
Proof.
  unfold p_hex, g_hex.
  repeat (eapply parses_bind_free; [auto with theme|intros ?]).
  apply parses_ret.
Qed.

Lemma parses_rgba follow : parses p_rgba g_rgba follow.
Proof.
  unfold p_rgba, g_rgba.
  eapply parses_bind_free; [auto with theme|intros _].
  repeat (eapply parses_bind_starts;
            [solve [auto with theme]|intros ?
            |intros ?; solve [eauto with theme]|solve [auto with theme]]).
  eapply parses_bind_free; [auto with theme|intros _]. apply parses_ret.
Qed.

Lemma g_starts_rgba : g_starts g_rgba (is_char "r").
Proof. unfold g_rgba. apply g_starts_bind, (g_starts_lit "r"). Qed.

Lemma p_hex_not_rgba pre c rest : g_rgba pre c → p_hex (pre ++ rest) = None.
Proof.
  intros H%g_starts_rgba. destruct pre as [|x pre]; [done|].
  simpl in H. apply bool_decide_eq_true in H as ->. done.
Qed.

Lemma g_starts_color : g_starts g_color starts_color.
Proof.
  apply g_starts_or; [|apply g_starts_rgba].
  apply g_starts_bind, (g_starts_lit "#").
Qed.

Lemma color_not_space : disjoint_classes starts_color is_space.
Proof. solve_class. Qed.

Lemma color_not_number : disjoint_classes starts_color starts_number.
Proof. solve_class. Qed.

(** ** Lemmas: parser and grammar *)

Lemma parses_color follow : parses p_color g_color follow.
Proof.
  apply parses_or; [apply parses_hex|apply parses_rgba|].
  intros pre c rest H _. by apply (p_hex_not_rgba pre c).
Qed.

Lemma g_hex_byte_text s n : g_hex_byte s n ↔ hex_text s n.
Proof.
  split.
  - intros (_ & h & l & a & b & -> & Ha & Hb & ->). by constructor.
  - intros [h l a b Ha Hb]. split; [|by exists h, l, a, b].
    apply hex_val_bound in Ha, Hb. lia.
Qed.

Lemma g_channel_text s n : g_channel s n ↔ channel_text s n.
Proof.
  unfold g_channel, g_filter, g_fmap, g_uint, channel_ok. split.
  - intros [(u & [Hu ->] & ->) Hn%N.ltb_lt]. by constructor.
  - intros [u Hu Hn]. split; [by exists u|by apply N.ltb_lt].
Qed.

Lemma g_comma_text s u : g_comma s u ↔ comma_text s.
Proof.
  unfold g_comma, g_bind, g_lit, g_ws. split.
  - intros (w1 & ? & [] & -> & Hw1 & ? & w2 & [] & -> & -> & Hw2). by constructor.
  - intros [w1 w2 Hw1 Hw2]. exists w1, ("," :: w2), (). split_and!; [done..|].
    by exists [","], w2, ().
Qed.

Lemma g_hex_text s c :
  g_hex s c ↔ ∃ tr tg tb r g b,
    s = "#" :: tr ++ tg ++ tb ∧ c = Hex r g b ∧
    hex_text tr r ∧ hex_text tg g ∧ hex_text tb b.
Proof.
  unfold g_hex, g_bind, g_lit, g_ret. split.
  - intros (? & ? & [] & -> & -> & tr & ? & r & -> & Hr%g_hex_byte_text
            & tg & ? & g & -> & Hg%g_hex_byte_text
            & tb & ? & b & -> & Hb%g_hex_byte_text & -> & ->).
    exists tr, tg, tb, r, g, b. by rewrite app_nil_r.
  - intros (tr & tg & tb & r & g & b & -> & -> & Hr & Hg & Hb).
    exists ["#"], (tr ++ tg ++ tb), (). split_and!; [done..|].
    exists tr, (tg ++ tb), r. split_and!; [done|by apply g_hex_byte_text|].
    exists tg, tb, g. split_and!; [done|by apply g_hex_byte_text|].
    exists tb, [], b. rewrite app_nil_r. by rewrite g_hex_byte_text.
Qed.

Lemma g_rgba_text s c :
  g_rgba s c ↔ ∃ w1 tr c1 tg c2 tb c3 w2 r g b a,
    s = chars_of "rgba(" ++ w1 ++ tr ++ c1 ++ tg ++ c2 ++ tb ++ c3 ++
        print_number a ++ w2 ++ [")"] ∧
    c = Rgba r g b a ∧ blank w1 ∧ channel_text tr r ∧ comma_text c1 ∧
    channel_text tg g ∧ comma_text c2 ∧ channel_text tb b ∧ comma_text c3 ∧
    wf_number a ∧ alpha_ok a = true ∧ blank w2.
Proof.
  unfold g_rgba, g_bind, g_lit, g_ret, g_ws, g_alpha, g_filter, g_number. split.
  - intros (? & ? & [] & -> & -> & w1 & ? & [] & -> & Hw1
            & tr & ? & r & -> & Hr%g_channel_text
            & c1 & ? & [] & -> & Hc1%g_comma_text
            & tg & ? & g & -> & Hg%g_channel_text
            & c2 & ? & [] & -> & Hc2%g_comma_text
            & tb & ? & b & -> & Hb%g_channel_text
            & c3 & ? & [] & -> & Hc3%g_comma_text
            & ? & ? & a & -> & [[Ha ->] Hok]
            & w2 & ? & [] & -> & Hw2 & ? & ? & [] & -> & -> & -> & ->).
    exists w1, tr, c1, tg, c2, tb, c3, w2, r, g, b, a. by rewrite app_nil_r.
  - intros (w1 & tr & c1 & tg & c2 & tb & c3 & w2 & r & g & b & a & -> & ->
            & Hw1 & Hr%g_channel_text & Hc1 & Hg%g_channel_text & Hc2
            & Hb%g_channel_text & Hc3 & Ha & Hok & Hw2).
    repeat (eexists _, _, _; split_and!;
            [reflexivity|first [done|by apply (g_comma_text _ ())]|]).
    exists (print_number a), (w2 ++ [")"]), a. split_and!; [done..|].
    exists w2, [")"], (). split_and!; [done..|]. by exists [")"], [], ().
    Unshelve. all: exact ().
Qed.

(** The parser's grammar is the grammar of colours. *)
Lemma g_color_text s c : g_color s c ↔ color_text s c.
Proof.
  unfold g_color, g_or. rewrite g_hex_text, g_rgba_text. split.
  - intros [(tr & tg & tb & r & g & b & -> & -> & ? & ? & ?)
           |(w1 & tr & c1 & tg & c2 & tb & c3 & w2 & r & g & b & a & -> & ->
             & ? & ? & ? & ? & ? & ? & ? & ? & ? & ?)]; by constructor.
  - intros [tr tg tb r g b|w1 tr c1 tg c2 tb c3 w2 r g b a]; [left|right];
      naive_solver.
Qed.

Lemma parse_color_text s c :
  parse_color s = Some c ↔ color_text (chars_of s) c.
Proof.
  unfold parse_color.
  by rewrite (parses_all _ _ _ _ _ (parses_color any_rest) I), g_color_text.
Qed.

(** ** Lemmas: well-formedness and the printer *)

Lemma hex_text_bound s n : hex_text s n → (n < 256)%N.
Proof. intros [h l a b Ha%hex_val_bound Hb%hex_val_bound]. lia. Qed.

Lemma channel_text_bound s n : channel_text s n → (n < 256)%N.
Proof. by intros [u _ Hn]. Qed.

Lemma color_text_wf s c : color_text s c → wf_color c.
Proof.
  intros [tr tg tb r g b Hr Hg Hb|w1 tr c1 tg c2 tb c3 w2 r g b a]; simpl.
  - split_and!; eauto using hex_text_bound.
  - intros. split_and!; eauto using channel_text_bound.
Qed.

Lemma hex_text_print n : (n < 256)%N → hex_text (print_hex_byte n) n.
Proof.
  intros Hn. rewrite <-(byte_digits n) at 2. unfold print_hex_byte.
  constructor; apply hex_val_upper; auto using byte_high_lt, byte_low_lt.
Qed.

Lemma channel_text_print n : (n < 256)%N → channel_text (print_channel n) n.
Proof.
  intros Hn. unfold print_channel.
  rewrite <-(DecimalN.Unsigned.of_to n) at 2. constructor.
  - apply N_to_uint_nonnil.
  - by rewrite DecimalN.Unsigned.of_to.
Qed.

Lemma comma_text_canonical : comma_text (chars_of ", ").
Proof. by apply (comma_text_intro [] [" "]). Qed.

(** The canonical text of a colour is a text of the grammar. *)
Lemma print_color_text c : wf_color c → color_text (print_color c) c.
Proof.
  destruct c as [r g b|r g b a]; unfold wf_color, print_color.
  - intros (? & ? & ?). constructor; by apply hex_text_print.
  - intros ((? & ? & ?) & ? & ?).
    refine (color_text_rgba [] _ _ _ _ _ _ [] r g b a _ _ _ _ _ _ _ _ _ _);
      auto using channel_text_print, comma_text_canonical; done.
Qed.

(** A printed colour is read back. *)
Lemma parse_print_color c :
  wf_color c → parse_color (color_to_string c) = Some c.
Proof.
  intros Hc. apply parse_color_text. unfold color_to_string.
  rewrite chars_of_string_of. by apply print_color_text.
Qed.

Lemma p_color_print c rest :
  wf_color c → p_color (print_color c ++ rest) = Some (c, rest).
Proof.
  intros Hc. apply (parses_complete _ _ _ (parses_color any_rest)).
  - by apply g_color_text, print_color_text.
  - by destruct rest.
Qed.

Lemma p_color_wf s c rest : p_color s = Some (c, rest) → wf_color c.
Proof.
  intros (pre & _ & H)%(parses_sound _ _ _ (parses_color any_rest)).
  by eapply color_text_wf, g_color_text.
Qed.

Lemma parse_color_wf s c : parse_color s = Some c → wf_color c.
Proof. intros H%parse_color_text. by eapply color_text_wf. Qed.

(** The alpha of a well-formed colour, as a rational, is between 0 and
    1. *)
Lemma alpha_ok_bounds a :
  alpha_ok a = true → (0 <= number_to_Q a)%Q ∧ (number_to_Q a <= 1)%Q.
Proof.
  unfold alpha_ok, number_to_Q, num_scaled, Qle. simpl.
  intros [Hneg%negb_true_iff Hle%Z.leb_le]%andb_prop. rewrite Hneg in *.
  assert (0 < 10 ^ Z.of_N (num_places a))%Z by (apply Z.pow_pos_nonneg; lia).
  rewrite Z2Pos.id by done. split; lia.
Qed.

Lemma wf_color_alpha c : wf_color c → (0 <= alpha c)%Q ∧ (alpha c <= 1)%Q.
Proof.
  destruct c as [r g b|r g b a]; simpl; [done|].
  intros (_ & _ & Hok). by apply alpha_ok_bounds.
Qed.

#[export] Hint Resolve parse_color_wf parse_print_color print_color_text
  color_text_wf : theme.
