(* ===== verification/Palette.v ===== *)
(** * Palette: the colours of [theme.extend.colors]

    [Config.colors] holds twenty tokens whose values are CSS colours
    written as strings.  This file reads them with the grammar of
    [CssColor], through the interface of [Tokens]:

    - [number_codec] and [color_codec] are the [Codec] instances of
      numbers and colours, so that [read], [write], [decode] and
      [encode] of [Tokens] go between the values of the tokens and the
      colours they denote;
    - [palette] is the table of [Config.colors] as colours, and
      [token_color] the colour of one token;
    - [luma] is the weighted brightness by which the scales of the
      palette are compared.

    The theorems on the palette: every token is a colour of the grammar
    with channels and alpha in range; every token is written in the
    canonical spelling, so that printing the decoded palette gives back
    the source; which tokens are translucent and which are coloured;
    how the text, border and background scales are ordered. *)

From Stdlib Require Import Decimal DecimalN QArith.
From stdpp Require Import sorting.
From S2P Require Import Prelude Lexical JsValue Tokens Config Grammar CssColor.

(** ** Codecs *)

#[export] Instance number_codec : Codec number := {|
  codec_wf := wf_number;
  codec_follow := λ rest, starts_with continues_number rest = false;
  print := print_number;
  parse := p_number;
  parse_print := p_number_print;
  parse_wf := λ s a rest H, proj1 (p_number_Some s a rest H);
  follow_nil := eq_refl;
|}.

#[export] Instance color_codec : Codec color := {|
  codec_wf := wf_color;
  codec_follow := λ _, True;
  print := print_color;
  parse := p_color;
  parse_print := λ c rest Hc _, p_color_print c rest Hc;
  parse_wf := p_color_wf;
  follow_nil := I;
|}.

(** ** Tokens as colours *)

(** The palette of the configuration. *)
Definition palette : list (string * color) := default [] (decode colors).

(** The colour of a token of the configuration. *)
Definition token_color (name : string) : option color :=
  v ← get (VObject colors) name; read v.

(** Brightness of a colour on the scale of 0 to 255000 (the luma weights
    of ITU-R BT.601, in thousandths). *)
Definition luma (c : color) : N :=
  let '(r, g, b) := channels c in (299 * r + 587 * g + 114 * b)%N.

(** The brightness of each token of a scale, in the order given. *)
Definition scale_luma (names : list string) : option (list N) :=
  mapM (λ name, luma <$> token_color name) names.

(** The alpha of each token of a scale. *)
Definition scale_alpha (names : list string) : option (list Q) :=
  mapM (λ name, alpha <$> token_color name) names.

(** The tokens that let what is beneath them show. *)
Definition translucent_tokens : list string :=
  ["backgroundInput"; "border1"; "border2"; "border3"].

(** The tokens that have a hue. *)
Definition chromatic_tokens : list string :=
  ["actionPrimaryBackground"; "actionPrimaryBackgroundHover"].

(** ** Lemmas *)

(** What is read as a colour is a text of the colour grammar. *)
Lemma read_color_text v c :
  read v = Some c →
  ∃ s, v = VString s ∧ color_text (chars_of s) c ∧ wf_color c.
Proof.
  intros (s & -> & Hp & Hwf)%read_Some. exists s.
  split_and!; [done|by apply parse_color_text|done].
Qed.

(** ** Theorems *)

(** C2: every value of [theme.extend.colors] is a string that the
    colour grammar accepts, [#RRGGBB] or [rgba(r, g, b, a)], and the
    colour it denotes has its three channels at most 255 and its alpha
    between 0 and 1. *)
Theorem colors_are_css_colors name v :
  (name, v) ∈ colors →
  ∃ s c, v = VString s ∧ token_color name = Some c ∧
         color_text (chars_of s) c ∧
         wf_color c ∧ (0 <= alpha c)%Q ∧ (alpha c <= 1)%Q.
Proof.
  intros Hin.
  assert (all_tokens colors
            (λ name c, bool_decide (token_color name = Some c)) = true) as H
    by by vm_compute.
  destruct (all_tokens_forall _ _ H _ _ Hin) as (c & Hc & Hn%bool_decide_eq_true).
  pose proof Hc as (s & -> & Htext & Hwf)%read_color_text.
  exists s, c. split_and!; [done..| |]; by apply wf_color_alpha.
Qed.

Lemma colors_are_css_colors_witness :
  ∃ s c, VString "#1E1E1E" = VString s ∧
         token_color "background1" = Some c ∧
         color_text (chars_of s) c ∧
         wf_color c ∧ (0 <= alpha c)%Q ∧ (alpha c <= 1)%Q.
Proof.
  apply (colors_are_css_colors "background1" (VString "#1E1E1E")).
  reflect_decide.
Defined.

(** C6: every colour of the source is written in the canonical spelling
    of the grammar (upper-case hexadecimal digits; in [rgba], one space
    after each comma and no leading zero): reading a value as a colour
    and printing the colour gives the value back, character for
    character, and reading the whole table and printing it gives the
    table of the source. *)
Theorem colors_roundtrip :
  (∀ name v, (name, v) ∈ colors →
     ∃ c : color, read v = Some c ∧ write c = v) ∧
  decode colors = Some palette ∧ encode palette = colors.
Proof.
  assert (decode colors = Some palette) as Hdec by by vm_compute.
  assert (encode palette = colors) as Henc by by vm_compute.
  split; [by eapply decode_canonical|done].
Qed.

(** C31: the translucent colours of the palette are exactly the input
    background and the three borders; every other token is opaque. *)
Theorem translucent_tokens_exact name s c :
  (name, VString s) ∈ colors → parse_color s = Some c →
  is_opaque c = false ↔ name ∈ translucent_tokens.
Proof.
  intros Hin Hc.
  assert (all_tokens colors (λ n c, bool_decide
            (is_opaque c = false ↔ n ∈ translucent_tokens)) = true)
    as H by by vm_compute.
  destruct (all_tokens_forall _ _ H _ _ Hin)
    as (c' & Hc' & Hok%bool_decide_eq_true).
  simpl in Hc'. unfold parse_color in Hc. by simplify_eq.
Qed.

Lemma translucent_tokens_exact_witness :
  is_opaque (Rgba 0 0 0 (Number false (D0 Nil) (D1 (D5 Nil)))) = false ↔
  "backgroundInput" ∈ translucent_tokens.
Proof.
  apply (translucent_tokens_exact _ "rgba(0, 0, 0, 0.15)"); [reflect_decide|].
  by vm_compute.
Defined.

(** C32: the palette is grey but for the primary action: a token has
    unequal channels exactly when it is [actionPrimaryBackground] or
    [actionPrimaryBackgroundHover]. *)
Theorem chromatic_tokens_exact name s c :
  (name, VString s) ∈ colors → parse_color s = Some c →
  is_grey c = false ↔ name ∈ chromatic_tokens.
Proof.
  intros Hin Hc.
  assert (all_tokens colors (λ n c, bool_decide
            (is_grey c = false ↔ n ∈ chromatic_tokens)) = true)
    as H by by vm_compute.
  destruct (all_tokens_forall _ _ H _ _ Hin)
    as (c' & Hc' & Hok%bool_decide_eq_true).
  simpl in Hc'. unfold parse_color in Hc. by simplify_eq.
Qed.

Lemma chromatic_tokens_exact_witness :
  is_grey (Hex 0 106 204) = false ↔ "actionPrimaryBackground" ∈ chromatic_tokens.
Proof.
  apply (chromatic_tokens_exact _ "#006ACC"); [reflect_decide|by vm_compute].
Defined.

(** C33: the text scale gets darker from [text1] to [textInactive], and
    the border scale gets more opaque from [border1] to [border3]. *)
Theorem text_and_border_scales_ordered :
  (∃ ls, scale_luma ["textInactive"; "text3"; "text2"; "text1"] = Some ls ∧
         Sorted N.lt ls) ∧
  (∃ qs, scale_alpha ["border1"; "border2"; "border3"] = Some qs ∧
         Sorted Qlt qs).
Proof. split; eexists; (split; [by vm_compute|reflect_decide]). Qed.

(** C34: the background scale is not ordered by its numbers:
    [background1], [background2], [background4], [background5] get
    lighter in this order, and [background3] is lighter than
    [background4]. *)
Theorem background_scale_order :
  (∃ ls, scale_luma ["background1"; "background2"; "background4";
                     "background5"] = Some ls ∧ Sorted N.lt ls) ∧
  (∃ l3 l4, scale_luma ["background3"; "background4"] = Some [l3; l4] ∧
            (l4 < l3)%N).
Proof.
  split; [eexists; split; [by vm_compute|reflect_decide]|]. by eexists _, _.
Qed.

(** C35: two pairs of tokens name the same colour: [textInverse] is
    [background1] and [backgroundInactive] is [background2]. *)
Theorem color_aliases :
  is_Some (token_color "textInverse") ∧
  token_color "textInverse" = token_color "background1" ∧
  token_color "backgroundInactive" = token_color "background2".
Proof. split_and!; [by eexists|by vm_compute..]. Qed.
