(* ===== verification/CssDimension.v ===== *)
(** * CssDimension: numbers with a unit

    The sizes of the table are CSS dimensions: a number at once followed
    by a unit, as in [11.5px], [-0.115px] and [4px]; the gradients use
    [180deg] and [100%].  This file defines the units the table uses
    and two more lengths ([em], [rem]), the dimensions, their grammar
    [dimension_text], parser [p_dimension] and printer
    [print_dimension], and the identifiers of CSS ([is_ident]), which
    font family names are made of.

    The grammar is strict: a text has one reading and a dimension one
    text, so the parser and the printer are inverse of each other
    ([parse_dimension_iff]). *)

From Stdlib Require Import Decimal DecimalN QArith.
From S2P Require Import Prelude Lexical Grammar.

#[local] Open Scope char_scope.

(** ** Units and dimensions *)

Inductive css_unit : Type := Px | Em | Rem | Percent | Deg.

#[export] Instance css_unit_eq_dec : EqDecision css_unit.
Proof. solve_decision. Defined.

Definition print_unit (u : css_unit) : chars :=
  chars_of match u with
           | Px => "px" | Em => "em" | Rem => "rem"
           | Percent => "%" | Deg => "deg"
           end.

Definition all_units : list css_unit := [Px; Em; Rem; Percent; Deg].

Definition unit_table : list (chars * css_unit) :=
  (λ u, (print_unit u, u)) <$> all_units.

Definition is_length_unit (u : css_unit) : bool :=
  match u with
  | Px | Em | Rem => true
  | Percent | Deg => false
  end.

Record dimension : Type := Dimension {
  dim_value : number;
  dim_unit : css_unit;
}.

#[export] Instance dimension_eq_dec : EqDecision dimension.
Proof. solve_decision. Defined.

Definition wf_dimension (d : dimension) : Prop := wf_number (dim_value d).

Definition dim_to_Q (d : dimension) : Q := number_to_Q (dim_value d).

(** ** Grammar, parser, printer *)

Inductive dimension_text : chars → dimension → Prop :=
| dimension_text_intro n u :
    wf_number n → dimension_text (print_number n ++ print_unit u) (Dimension n u).

Definition p_unit : parser css_unit := p_keyword unit_table.

Definition p_dimension : parser dimension :=
  n ← p_number; u ← p_unit; mret (Dimension n u).

Definition g_dimension : grammar dimension :=
  g_bind g_number (λ n, g_bind (g_keyword unit_table) (λ u,
  g_ret (Dimension n u))).

Definition print_dimension (d : dimension) : chars :=
  print_number (dim_value d) ++ print_unit (dim_unit d).

Definition parse_dimension (s : string) : option dimension :=
  parse_all p_dimension s.

Definition dimension_to_string (d : dimension) : string :=
  string_of (print_dimension d).

(** The first character of a unit: a letter or the percent sign. *)
Definition is_letter (c : ascii) : bool :=
  let n := N_of_ascii c in
  ((65 <=? n) && (n <=? 90) || (97 <=? n) && (n <=? 122))%N.

Definition starts_unit : ascii → bool := class_or is_letter (is_char "%").

(** ** Identifiers *)

Definition is_ident_start (c : ascii) : bool :=
  is_letter c || bool_decide (c = "_").

Definition is_ident_char (c : ascii) : bool :=
  is_ident_start c || is_digit c || bool_decide (c = "-").

(** A CSS identifier: a letter or underscore, or a hyphen followed by
    one, and then letters, digits, underscores and hyphens. *)
Definition is_ident (cs : chars) : bool :=
  match cs with
  | c :: rest =>
      (is_ident_start c ||
       bool_decide (c = "-") && starts_with is_ident_start rest) &&
      forallb is_ident_char rest
  | [] => false
  end.

(** ** Lemmas *)

Lemma unit_table_spec s u : (s, u) ∈ unit_table ↔ s = print_unit u.
Proof.
  unfold unit_table. rewrite list_elem_of_fmap. split.
  - by intros (u' & [= -> ->] & _).
  - intros ->. exists u. split; [done|]. destruct u; reflect_decide.
Qed.

Lemma unit_table_prefix_free : prefix_free unit_table = true.
Proof. by vm_compute. Qed.

Lemma parses_unit follow : parses p_unit (g_keyword unit_table) follow.
Proof. apply parses_keyword, unit_table_prefix_free. Qed.

Lemma g_starts_unit : g_starts (g_keyword unit_table) starts_unit.
Proof. by apply g_starts_keyword. Qed.

Lemma unit_not_number : disjoint_classes starts_unit continues_number.
Proof. solve_class. Qed.

Lemma g_starts_dimension : g_starts g_dimension starts_number.
Proof. unfold g_dimension. auto with theme. Qed.

Lemma parses_dimension follow : parses p_dimension g_dimension follow.
Proof.
  unfold p_dimension, g_dimension.
  eapply parses_bind_starts;
    [apply parses_number|intros n|intros n; apply g_starts_bind, g_starts_unit
    |apply unit_not_number].
  eapply parses_bind_free; [apply parses_unit|intros u; apply parses_ret].
Qed.

Lemma g_dimension_text s d : g_dimension s d ↔ dimension_text s d.
Proof.
  unfold g_dimension, g_bind, g_number, g_keyword, g_ret. split.
  - intros (? & ? & n & -> & [Hn ->] & ? & ? & u & -> & ->%unit_table_spec
            & -> & ->). rewrite app_nil_r. by constructor.
  - intros [n u Hn]. exists (print_number n), (print_unit u), n.
    split_and!; [done..|]. exists (print_unit u), [], u.
    rewrite app_nil_r. by rewrite unit_table_spec.
Qed.

(** A text is read as a dimension exactly when it is the text the
    printer gives that dimension. *)
Lemma parse_dimension_iff s d :
  parse_dimension s = Some d ↔
  wf_dimension d ∧ s = dimension_to_string d.
Proof.
  unfold parse_dimension, dimension_to_string.
  rewrite (parses_all _ _ _ _ _ (parses_dimension any_rest) I), g_dimension_text.
  split.
  - intros H. inversion H as [n u Hn E1 E2]; subst. split; [done|].
    unfold print_dimension. simpl. by rewrite E1, string_of_chars_of.
  - destruct d as [n u]. intros [Hn ->]. rewrite chars_of_string_of.
    by constructor.
Qed.

Lemma p_dimension_print d rest :
  wf_dimension d → p_dimension (print_dimension d ++ rest) = Some (d, rest).
Proof.
  intros Hd. apply (parses_complete _ _ _ (parses_dimension any_rest)).
  - apply g_dimension_text. destruct d. by constructor.
  - by destruct rest.
Qed.

Lemma p_dimension_wf s d rest : p_dimension s = Some (d, rest) → wf_dimension d.
Proof.
  intros (pre & _ & H)%(parses_sound _ _ _ (parses_dimension any_rest)).
  apply g_dimension_text in H. by destruct H.
Qed.

#[export] Hint Resolve parses_dimension parses_unit g_starts_unit : theme.
