(* ===== verification/Typography.v ===== *)
(** * Typography: sizes, spacing, radius, weights and families

    The tokens of [fontSize], [letterSpacing] and [borderRadius] are
    dimensions; [fontWeight] holds numbers; [fontFamily.sans] is a list
    of family names.  This file reads them with [CssDimension] and
    states what a style sheet needs of them:

    - every size, spacing and radius is a dimension in pixels;
    - the font sizes are positive and [small] is below [large]; the
      radius is not negative;
    - the letter spacing of [small] is minus one hundredth of the font
      size of [small];
    - the weights are whole hundreds within the range of CSS font
      weights, [normal] lighter than [medium];
    - the family list names a font and ends with a generic family. *)

From Stdlib Require Import Decimal DecimalN QArith.
From S2P Require Import Prelude Lexical JsValue Tokens Config Grammar CssDimension.

(** ** Tokens as dimensions *)

#[export] Instance dimension_codec : Codec dimension := {|
  codec_wf := wf_dimension;
  codec_follow := λ _, True;
  print := print_dimension;
  parse := p_dimension;
  parse_print := λ d rest Hd _, p_dimension_print d rest Hd;
  parse_wf := p_dimension_wf;
  follow_nil := I;
|}.

(** The categories whose tokens are lengths. *)
Definition length_categories : list string :=
  ["fontSize"; "letterSpacing"; "borderRadius"].

(** The dimension of a token of the theme extension. *)
Definition token_dimension (category name : string) : option dimension :=
  v ← get_path (VObject extend) [category; name]; read v.

(** The value of a token in pixels, when it is a dimension in pixels. *)
Definition token_px (category name : string) : option Q :=
  d ← token_dimension category name;
  if decide (dim_unit d = Px) then Some (dim_to_Q d) else None.

(** The test [check] on the dimension of every token of the length
    categories of a table; a token that is no dimension fails it. *)
Definition lengths_check (table : props)
    (check : string → string → dimension → bool) : bool :=
  forallb (λ t, if bool_decide (t.1.1 ∈ length_categories)
                then from_option (check t.1.1 t.1.2) false (read t.2)
                else true)
          (tokens_of table).

(** ** Weights *)

(** A CSS font weight is a number from 1 to 1000. *)
Definition font_weight_ok (n : Z) : Prop := (1 ≤ n ≤ 1000)%Z.

#[export] Instance font_weight_ok_dec n : Decision (font_weight_ok n).
Proof. unfold font_weight_ok. apply _. Defined.

Definition weight_of_value (v : value) : option Z :=
  match v with
  | VNumber n => Some n
  | _ => None
  end.

(** ** Families *)

(** The generic families of CSS, which every font stack should end
    with. *)
Definition generic_families : list string :=
  ["serif"; "sans-serif"; "monospace"; "cursive"; "fantasy"; "system-ui"].

Definition family_of_value (v : value) : option string :=
  match v with
  | VString s => if is_ident (chars_of s) then Some s else None
  | _ => None
  end.

(** A font stack: one or more named families, then a generic one. *)
Definition font_stack_ok (names : list string) : Prop :=
  ∃ named generic,
    names = named ++ [generic] ∧ named ≠ [] ∧
    generic ∈ generic_families ∧
    Forall (λ n, n ∉ generic_families) named.

(** ** Lemmas *)

Lemma lengths_forall table check :
  lengths_check table check = true →
  ∀ category name v,
    category ∈ length_categories → (category, name, v) ∈ tokens_of table →
    ∃ d, read v = Some d ∧ check category name d = true.
Proof.
  unfold lengths_check. rewrite forallb_Forall, Forall_forall.
  intros H category name v Hc Hin. specialize (H _ Hin). simpl in H.
  rewrite (bool_decide_eq_true_2 _ Hc) in H.
  destruct (read v) as [d|]; [|done]. by exists d.
Qed.

Lemma read_dimension_text v d :
  read v = Some d →
  ∃ s, v = VString s ∧ dimension_text (chars_of s) d ∧
       s = dimension_to_string d.
Proof.
  intros (s & -> & H & _)%read_Some. exists s.
  pose proof H as [Hwf ->]%parse_dimension_iff. split_and!; [done| |done].
  apply g_dimension_text.
  by apply (parses_all _ _ _ _ _ (parses_dimension any_rest) I).
Qed.

(** ** Theorems *)

(** C10: every token of [fontSize], [letterSpacing] and [borderRadius]
    is a string that is a CSS dimension, a number at once followed by
    its unit, and the unit is [px]. *)
Theorem lengths_are_px category name v :
  category ∈ length_categories → (category, name, v) ∈ tokens_of extend →
  ∃ s d, v = VString s ∧ dimension_text (chars_of s) d ∧
         s = dimension_to_string d ∧ dim_unit d = Px.
Proof.
  intros Hc Hin.
  assert (lengths_check extend (λ _ _ d, bool_decide (dim_unit d = Px)) = true)
    as H by by vm_compute.
  destruct (lengths_forall _ _ H category name v Hc Hin)
    as (d & Hd & Hpx%bool_decide_eq_true).
  apply read_dimension_text in Hd as (s & -> & ? & ?). by exists s, d.
Qed.

Lemma lengths_are_px_witness :
  ∃ s d, VString "11.5px" = VString s ∧ dimension_text (chars_of s) d ∧
         s = dimension_to_string d ∧ dim_unit d = Px.
Proof.
  apply (lengths_are_px "fontSize" "small" (VString "11.5px")); reflect_decide.
Defined.

(** C21: the font sizes are positive, [small] is smaller than [large],
    and the default border radius is positive. *)
Theorem font_sizes_ordered :
  ∃ small large radius,
    token_px "fontSize" "small" = Some small ∧
    token_px "fontSize" "large" = Some large ∧
    token_px "borderRadius" "DEFAULT" = Some radius ∧
    (0 < small)%Q ∧ (small < large)%Q ∧ (0 < radius)%Q.
Proof. eexists _, _, _. split_and!; by vm_compute. Qed.

(** C20: the letter spacing of [small] is minus one hundredth of the
    font size of [small]: the text is tightened by one percent. *)
Theorem letter_spacing_one_percent :
  ∃ size spacing,
    token_px "fontSize" "small" = Some size ∧
    token_px "letterSpacing" "small" = Some spacing ∧
    (spacing == - size / 100)%Q.
Proof. eexists _, _. split_and!; by vm_compute. Qed.

(** C13: every font weight is a number within the range of CSS font
    weights, 1 to 1000, and a whole hundred; [normal] is lighter than
    [medium]. *)
Theorem font_weights_valid :
  (∀ name v, (name, v) ∈ fontWeight →
     ∃ n, v = VNumber n ∧ font_weight_ok n ∧ (100 | n)%Z) ∧
  ∃ normal medium,
    get (VObject fontWeight) "normal" = Some (VNumber normal) ∧
    get (VObject fontWeight) "medium" = Some (VNumber medium) ∧
    (normal < medium)%Z.
Proof.
  split; [|by eexists _, _].
  intros name v Hin.
  assert (Forall (λ p, from_option (λ n, bool_decide (font_weight_ok n) &&
                         bool_decide (n `mod` 100 = 0)%Z) false
                         (weight_of_value p.2) = true) fontWeight) as H
    by reflect_decide.
  rewrite Forall_forall in H. specialize (H _ Hin). simpl in H.
  destruct v as [|n| |]; try done. simpl in H.
  apply andb_prop in H as [Hok%bool_decide_eq_true Hmod%bool_decide_eq_true].
  exists n. split_and!; [done..|]. by apply Z.mod_divide.
Qed.

(** C19: [fontFamily.sans] is a font stack: a list of CSS identifiers,
    one or more named families and last a generic family, so that text
    is drawn in a sans-serif face when [Inter] is missing. *)
Theorem font_stack_ends_generic :
  ∃ names,
    get (VObject fontFamily) "sans" = Some (VArray (VString <$> names)) ∧
    mapM family_of_value (VString <$> names) = Some names ∧
    font_stack_ok names.
Proof.
  exists ["Inter"; "sans-serif"]. split_and!; [done..|].
  exists ["Inter"], "sans-serif". split_and!; [done..|reflect_decide|].
  repeat constructor. reflect_decide.
Qed.
