(* ===== verification/CssShadow.v ===== *)
(** * CssShadow: the grammar of shadow lists

    A value of [boxShadow] is a list of shadows separated by commas.
    CSS writes a shadow as two to four lengths (the offsets, the blur
    radius, the spread radius), a colour and the word [inset], the
    lengths together and the three groups in any order; the colour and
    [inset] may be missing.

    The text is read in two steps.

    - [p_shadow_list] reads the text as layers of items ([item]: a
      length, a colour or [inset]), items separated by blanks and
      layers by commas.  Its grammar [g_shadow_list] is built from the
      grammars of [CssDimension] and [CssColor] with the lists of
      [Repeat]; [print_layers] writes the layers with one blank
      between items and a comma and a blank between layers.
    - [shadow_of_items] assembles the items of a layer into a [shadow],
      and refuses a layer that is not a shadow: lengths apart, too few
      or too many of them, a negative blur radius, a colour or [inset]
      twice.  [items_of_shadow] lists the items of a shadow in the order
      lengths, colour, [inset].

    The theorems: the parser reads exactly the grammar
    ([parses_shadow_list]); printed layers are read back
    ([p_shadow_list_print]); the items a shadow is assembled from are
    its own items in some order, the lengths in their order
    ([shadow_of_items_Some]); the items of a well-formed shadow
    assemble to it ([shadow_of_items_of_shadow]).

    The grammar is a subset of CSS: a length always has a unit (CSS
    also reads [0]), items are separated by at least one blank (CSS
    needs none after a closing parenthesis), and the value [none] is
    not read. *)

From Stdlib Require Import Decimal DecimalN QArith.
From S2P Require Import Prelude Lexical Grammar Repeat CssColor CssDimension.

#[local] Open Scope char_scope.

(** ** Items and shadows *)

Inductive item : Type :=
| IInset
| ILength (d : dimension)
| IColor (c : color).

#[export] Instance item_eq_dec : EqDecision item.
Proof. solve_decision. Defined.

Abbreviation layer := (list item).

Definition wf_item (i : item) : Prop :=
  match i with
  | IInset => True
  | ILength d => wf_dimension d ∧ is_length_unit (dim_unit d) = true
  | IColor c => wf_color c
  end.

Record shadow : Type := Shadow {
  sh_inset : bool;
  sh_x : dimension;
  sh_y : dimension;
  sh_blur : option dimension;
  sh_spread : option dimension;
  sh_color : option color;
}.

#[export] Instance shadow_eq_dec : EqDecision shadow.
Proof. solve_decision. Defined.

(** ** Reading layers of items *)

Definition length_ok (d : dimension) : bool := is_length_unit (dim_unit d).

Definition p_length : parser dimension := p_filter length_ok p_dimension.

Definition p_inset : parser item := (λ _, IInset) <$> p_lit (chars_of "inset").

Definition p_item : parser item :=
  p_or (ILength <$> p_length) (p_or (IColor <$> p_color) p_inset).

Definition p_layer : parser layer := p_sep_by1 p_item p_ws1.

Definition p_layers : parser (list layer) := p_sep_by1 p_layer p_comma.

Definition p_shadow_list : parser (list layer) :=
  _ ← p_ws; ls ← p_layers; _ ← p_ws; mret ls.

Definition parse_layers (s : string) : option (list layer) :=
  parse_all p_shadow_list s.

(** ** The grammar *)

Definition g_length : grammar dimension := g_filter length_ok g_dimension.

Definition g_inset : grammar item :=
  g_fmap (λ _, IInset) (g_lit (chars_of "inset")).

Definition g_item : grammar item :=
  g_or (g_fmap ILength g_length) (g_or (g_fmap IColor g_color) g_inset).

Definition g_layer : grammar layer := g_sep_by1 g_item g_ws1.

Definition g_layers : grammar (list layer) := g_sep_by1 g_layer g_comma.

Definition g_shadow_list : grammar (list layer) :=
  g_bind g_ws (λ _, g_bind g_layers (λ ls, g_bind g_ws (λ _, g_ret ls))).

(** The grammar of an item, written out. *)
Inductive item_text : chars → item → Prop :=
| item_text_length s d :
    dimension_text s d → is_length_unit (dim_unit d) = true →
    item_text s (ILength d)
| item_text_color s c : color_text s c → item_text s (IColor c)
| item_text_inset : item_text (chars_of "inset") IInset.

(** The first characters of an item: of a number, of a colour, of
    [inset]. *)
Definition starts_item : ascii → bool :=
  class_or starts_number (class_or starts_color (is_char "i")).

(** What may follow a layer, and a list of layers: no further item, no
    further layer. *)
Definition ends_layer : chars → Prop :=
  λ rest, (p_ws1 ≫= λ _, p_item) rest = None.

Definition ends_layers : chars → Prop :=
  λ rest, ends_layer rest ∧ (p_comma ≫= λ _, p_layer) rest = None.

Definition at_end : chars → Prop := λ rest, rest = [].

(** ** The printer *)

Definition print_item (i : item) : chars :=
  match i with
  | IInset => chars_of "inset"
  | ILength d => print_dimension d
  | IColor c => print_color c
  end.

Definition print_layer : layer → chars := print_sep_by print_item [" "].

Definition print_layers : list layer → chars :=
  print_sep_by print_layer (chars_of ", ").

Definition wf_layers (ls : list layer) : Prop :=
  ls ≠ [] ∧ Forall (λ l, l ≠ [] ∧ Forall wf_item l) ls.

(** ** Assembling a shadow *)

Definition is_length (i : item) : bool :=
  match i with ILength _ => true | _ => false end.

Definition length_of (i : item) : option dimension :=
  match i with ILength d => Some d | _ => None end.

(** A blur radius is not negative. *)
Definition blur_ok (d : dimension) : bool := Qle_bool 0 (dim_to_Q d).

(** Offsets, blur and spread from two to four lengths. *)
Definition geometry_of (ds : list dimension) :
    option (dimension * dimension * option dimension * option dimension) :=
  match ds with
  | [x; y] => Some (x, y, None, None)
  | [x; y; b] => if blur_ok b then Some (x, y, Some b, None) else None
  | [x; y; b; s] => if blur_ok b then Some (x, y, Some b, Some s) else None
  | _ => None
  end.

(** Colour and [inset] from what stands before and after the lengths. *)
Definition paint_of (l : layer) : option (option color * bool) :=
  match l with
  | [] => Some (None, false)
  | [IInset] => Some (None, true)
  | [IColor c] => Some (Some c, false)
  | [IInset; IColor c] | [IColor c; IInset] => Some (Some c, true)
  | _ => None
  end.

Definition shadow_of_items (l : layer) : option shadow :=
  let '(before, r) := span (λ i, negb (is_length i)) l in
  let '(lens, after) := span is_length r in
  '(x, y, blur, spread) ← geometry_of (omap length_of lens);
  '(color, inset) ← paint_of (before ++ after);
  Some (Shadow inset x y blur spread color).

(** The items of a shadow: lengths, colour, [inset]. *)
Definition items_of_shadow (sh : shadow) : layer :=
  (ILength <$> [sh_x sh; sh_y sh] ++ option_list (sh_blur sh) ++
               option_list (sh_spread sh)) ++
  (IColor <$> option_list (sh_color sh)) ++
  (if sh_inset sh then [IInset] else []).

(** A shadow that can be written: no spread without a blur, and a blur
    that is not negative. *)
Definition wf_shadow (sh : shadow) : Prop :=
  (sh_blur sh = None → sh_spread sh = None) ∧
  from_option (λ b, blur_ok b = true) True (sh_blur sh).

Definition parse_shadows (s : string) : option (list shadow) :=
  ls ← parse_layers s; mapM shadow_of_items ls.

(** ** Lemmas: first characters *)

Lemma g_starts_inset : g_starts g_inset (is_char "i").
Proof. apply g_starts_fmap, (g_starts_lit "i"). Qed.

Lemma g_starts_item : g_starts g_item starts_item.
Proof.
  apply g_starts_or; [apply g_starts_fmap, g_starts_filter, g_starts_dimension|].
  apply g_starts_or; [apply g_starts_fmap, g_starts_color|apply g_starts_inset].
Qed.

Lemma inset_not_number : disjoint_classes (is_char "i") starts_number.
Proof. solve_class. Qed.

Lemma inset_not_color : disjoint_classes (is_char "i") starts_color.
Proof. solve_class. Qed.

Lemma item_not_space : disjoint_classes starts_item is_space.
Proof. solve_class. Qed.

Lemma g_item_avoids_space s i rest : g_item s i → avoids is_space (s ++ rest).
Proof. apply g_starts_avoid with starts_item; auto using g_starts_item, item_not_space. Qed.

(** ** Lemmas: parser and grammar *)

Lemma parses_length follow : parses p_length g_length follow.
Proof. apply parses_filter, parses_dimension. Qed.

Lemma parses_item follow : parses p_item g_item follow.
Proof.
  unfold p_item, g_item.
  eapply parses_or_starts;
    [apply parses_fmap, parses_length| |
     apply g_starts_fmap, g_starts_filter, g_starts_dimension| |].
  - eapply parses_or_starts;
      [apply parses_fmap, parses_color|apply parses_fmap, parses_lit|
       apply g_starts_fmap, g_starts_color|apply g_starts_inset|
       apply inset_not_color].
  - apply g_starts_or; [apply g_starts_fmap, g_starts_color|apply g_starts_inset].
  - apply disjoint_class_or_l; [apply color_not_number|apply inset_not_number].
Qed.

Lemma g_item_text s i : g_item s i ↔ item_text s i.
Proof.
  split.
  - intros [(d & [Hd%g_dimension_text Hu] & ->)
           |[(c & Hc%g_color_text & ->)|([] & -> & ->)]]; by constructor.
  - intros [s' d Hd%g_dimension_text Hu|s' c Hc%g_color_text|].
    + left. by exists d.
    + right. left. by exists c.
    + right. right. by exists ().
Qed.

(** No item begins where a comma, the end or a closing text stands. *)
Lemma p_item_None s : avoids starts_item s → p_item s = None.
Proof. apply parses_fails with g_item any_rest; auto using parses_item, g_starts_item. Qed.

Lemma ends_layer_blank w rest :
  blank w → avoids is_space rest → avoids starts_item rest →
  ends_layer (w ++ rest).
Proof. intros Hw Hs Hi. apply p_ws1_then_None; [done..|]. by apply p_item_None. Qed.

Lemma ends_layer_comma s u rest : g_comma s u → ends_layer (s ++ rest).
Proof.
  intros (w1 & ? & [] & -> & Hw1 & ? & w2 & [] & -> & -> & Hw2).
  rewrite <-app_assoc. by apply ends_layer_blank.
Qed.

Lemma parses_layer : parses p_layer g_layer ends_layer.
Proof.
  eapply (parses_sep_by1 _ _ _ _ any_rest);
    [apply parses_item|apply parses_ws1|
     apply g_starts_nonempty with starts_item, g_starts_item|
     apply g_item_avoids_space|done..].
Qed.

Lemma g_starts_layer : g_starts g_layer starts_item.
Proof. apply g_starts_sep_by1, g_starts_item. Qed.

Lemma parses_layers : parses p_layers g_layers ends_layers.
Proof.
  eapply parses_sep_by1;
    [apply parses_layer|apply parses_comma|
     apply g_starts_nonempty with starts_item, g_starts_layer| |
     apply ends_layer_comma|done].
  intros s l rest Hl.
  apply g_starts_avoid with g_layer starts_item l;
    [apply g_starts_layer|apply item_not_space|done].
Qed.

Lemma ends_layers_blank w : blank w → ends_layers (w ++ []).
Proof.
  intros Hw. split; [by apply ends_layer_blank|].
  by rewrite bind_run, p_comma_None.
Qed.

Lemma parses_shadow_list : parses p_shadow_list g_shadow_list at_end.
Proof.
  unfold p_shadow_list, g_shadow_list.
  eapply parses_bind_starts;
    [apply parses_ws|intros _|
     intros _; apply g_starts_bind, g_starts_sep_by1, g_starts_layer|
     apply item_not_space].
  eapply parses_bind; [apply parses_layers|intros ls|].
  - eapply parses_bind;
      [apply parses_ws|intros _; apply (parses_ret ls at_end)|].
    by intros _ ? ? rest [-> _] ->.
  - intros ls s2 b rest (w & ? & [] & -> & Hw & -> & _) ->.
    rewrite app_nil_r. by apply ends_layers_blank.
Qed.

Lemma parse_layers_text s ls :
  parse_layers s = Some ls ↔ g_shadow_list (chars_of s) ls.
Proof. by apply (parses_all _ _ _ _ _ parses_shadow_list). Qed.

(** ** Lemmas: the printer *)

Lemma print_item_text i : wf_item i → g_item (print_item i) i.
Proof.
  intros Hi. apply g_item_text. destruct i as [|d|c]; simpl.
  - constructor.
  - destruct Hi as [Hd Hu]. constructor; [|done]. destruct d. by constructor.
  - constructor. by apply print_color_text.
Qed.

Lemma print_layers_text ls :
  wf_layers ls → g_shadow_list (print_layers ls) ls.
Proof.
  intros [Hne Hls]. apply g_bind_ws_skip.
  rewrite <-(app_nil_r (print_layers ls)). apply g_bind_intro with ls.
  - apply g_sep_by1_print; [done| |apply g_comma_print].
    eapply Forall_impl; [exact Hls|]. intros l [Hl Hi].
    apply g_sep_by1_print; [done| |done].
    eapply Forall_impl; [exact Hi|]. apply print_item_text.
  - by apply g_bind_ws_skip.
Qed.

(** Printed layers are read back. *)
Lemma p_shadow_list_print ls rest :
  wf_layers ls → at_end rest →
  p_shadow_list (print_layers ls ++ rest) = Some (ls, rest).
Proof.
  intros Hls Hr. apply (parses_complete _ _ _ parses_shadow_list); [|done].
  by apply print_layers_text.
Qed.

(** What is read is well formed. *)
Lemma g_item_wf s i : g_item s i → wf_item i.
Proof.
  intros [s' d Hd Hu|s' c Hc|]%g_item_text; simpl; [|by eapply color_text_wf|done].
  split; [|done]. by destruct Hd.
Qed.

Lemma g_shadow_list_wf s ls : g_shadow_list s ls → wf_layers ls.
Proof.
  intros (? & ? & [] & -> & _ & ? & ? & ls' & -> & Hls & ? & ? & [] & -> & _ & -> & ->).
  eapply g_sep_by1_Forall in Hls as [Hall Hne]; [by split|].
  intros s l Hl. eapply g_sep_by1_Forall in Hl as [? ?]; [done|].
  apply g_item_wf.
Qed.

Lemma p_shadow_list_wf s ls rest :
  p_shadow_list s = Some (ls, rest) → wf_layers ls.
Proof.
  intros (pre & _ & H)%(parses_sound _ _ _ parses_shadow_list).
  by eapply g_shadow_list_wf.
Qed.

(** ** Lemmas: assembling *)

Lemma omap_length_of_lengths l :
  forallb is_length l = true → ILength <$> omap length_of l = l.
Proof.
  induction l as [|[|d|c] l IH]; csimpl; try done. intros H. f_equal. auto.
Qed.

Lemma geometry_of_Some ds x y blur spread :
  geometry_of ds = Some (x, y, blur, spread) →
  ds = [x; y] ++ option_list blur ++ option_list spread ∧
  (blur = None → spread = None) ∧
  from_option (λ b, blur_ok b = true) True blur.
Proof.
  destruct ds as [|x' [|y' [|b [|s [|??]]]]]; simpl; try done;
    try (destruct (blur_ok b) eqn:Hb; [|done]); by intros [= <- <- <- <-].
Qed.

Lemma paint_of_Some l color inset :
  paint_of l = Some (color, inset) →
  l ≡ₚ (IColor <$> option_list color) ++ (if inset then [IInset] else []).
Proof.
  destruct l as [|[|d|c] [|[|d'|c'] [|??]]]; simpl; try done;
    intros [= <- <-]; simpl; try done. apply Permutation_swap.
Qed.

Lemma omap_length_of_paint color (inset : bool) :
  omap length_of ((IColor <$> option_list color) ++
                  (if inset then [IInset] else [])) = [].
Proof. by destruct color, inset. Qed.

Lemma omap_length_of_lengths_id (ds : list dimension) :
  omap length_of (ILength <$> ds) = ds.
Proof. induction ds as [|d ds IH]; csimpl; [done|]. by rewrite IH. Qed.

(** The items a shadow is assembled from are the items of the shadow in
    some order, with the lengths in their order. *)
Lemma shadow_of_items_Some l sh :
  shadow_of_items l = Some sh →
  l ≡ₚ items_of_shadow sh ∧
  omap length_of l = omap length_of (items_of_shadow sh) ∧
  wf_shadow sh.
Proof.
  unfold shadow_of_items.
  destruct (span _ l) as [before r] eqn:E1.
  destruct (span is_length r) as [lens after] eqn:E2.
  apply span_spec in E1 as (-> & Hb & _). apply span_spec in E2 as (-> & Hl & _).
  destruct (geometry_of _) as [[[[x y] blur] spread]|] eqn:Eg; [|done].
  destruct (paint_of _) as [[color inset]|] eqn:Ep; [|done].
  intros [= <-]. apply geometry_of_Some in Eg as (Eg & Hs & Hblur).
  apply paint_of_Some in Ep.
  assert (lens = ILength <$> [x; y] ++ option_list blur ++ option_list spread)
    as -> by by rewrite <-Eg, omap_length_of_lengths.
  unfold items_of_shadow, wf_shadow.
  cbn [sh_x sh_y sh_blur sh_spread sh_color sh_inset]. split_and!; [| |done..].
  - rewrite <-Ep. solve_Permutation.
  - assert (omap length_of before ++ omap length_of after = [])
      as [Eb Ea]%app_eq_nil.
    { rewrite <-omap_app. apply Permutation_nil_r.
      by rewrite Ep, omap_length_of_paint. }
    transitivity (omap length_of
      (ILength <$> [x; y] ++ option_list blur ++ option_list spread)).
    + by rewrite !omap_app, Eb, Ea, app_nil_r.
    + by rewrite omap_app, omap_length_of_paint, app_nil_r.
Qed.

(** The items of a well-formed shadow assemble to the shadow. *)
Lemma shadow_of_items_of_shadow sh :
  wf_shadow sh → shadow_of_items (items_of_shadow sh) = Some sh.
Proof.
  destruct sh as [[] x y [b|] [s|] [c|]]; unfold wf_shadow; simpl;
    intros [Hs Hb]; try (by specialize (Hs eq_refl));
    unfold shadow_of_items; simpl; by rewrite ?Hb.
Qed.
