(* ===== verification/Shadows.v ===== *)
(** * Shadows: the shadows of [theme.extend.boxShadow]

    [Config.boxShadow] holds four tokens, each a list of shadow layers.
    This file reads them with the grammar of [CssShadow] through the
    interface of [Tokens] ([layers_codec]) and assembles each layer
    into a [shadow] ([shadows_of_value], [token_shadows]).

    The theorems on the table: every token is a shadow list of the
    grammar whose layers are shadows; every token is written in the
    canonical spacing; every layer is cast straight down, in pixels, in
    translucent black or white; which tokens write their layers in the
    order lengths, colour, [inset]; [input-inner] is built of inner
    shadows that grow from the top edge. *)

From Stdlib Require Import Decimal DecimalN QArith.
From stdpp Require Import sorting.
From S2P Require Import Prelude Lexical JsValue Tokens Config Grammar Repeat.
From S2P Require Import CssColor CssDimension CssShadow.

(** ** Tokens as shadow lists *)

#[export] Instance layers_codec : Codec (list layer) := {|
  codec_wf := wf_layers;
  codec_follow := at_end;
  print := print_layers;
  parse := p_shadow_list;
  parse_print := p_shadow_list_print;
  parse_wf := p_shadow_list_wf;
  follow_nil := eq_refl;
|}.

Definition shadows_of_value (v : value) : option (list shadow) :=
  ls ← read v; mapM shadow_of_items ls.

(** The table of the configuration as layers of items. *)
Definition shadow_table : list (string * list layer) :=
  default [] (decode boxShadow).

(** The shadows of a token of the configuration. *)
Definition token_shadows (name : string) : option (list shadow) :=
  v ← get (VObject boxShadow) name; shadows_of_value v.

(** The property [P] of every shadow of every token of a table, as a
    test; a token that is no shadow list fails it. *)
Definition all_shadows (ps : props) (P : string → shadow → Prop)
    `{∀ name sh, Decision (P name sh)} : bool :=
  forallb (λ p, from_option (forallb (λ sh, bool_decide (P p.1 sh))) false
                  (shadows_of_value p.2)) ps.

(** ** What a shadow looks like *)

Definition shadow_lengths (sh : shadow) : list dimension :=
  [sh_x sh; sh_y sh] ++ option_list (sh_blur sh) ++ option_list (sh_spread sh).

(** A layer written in the order lengths, colour, [inset]. *)
Definition canonical_layer (l : layer) : Prop :=
  items_of_shadow <$> shadow_of_items l = Some l.

#[export] Instance canonical_layer_dec l : Decision (canonical_layer l).
Proof. unfold canonical_layer. apply _. Defined.

(** A shadow cast straight down, measured in pixels, with a blur, in
    translucent black or white. *)
Definition cast_down (sh : shadow) : Prop :=
  Forall (λ d, dim_unit d = Px) (shadow_lengths sh) ∧
  (dim_to_Q (sh_x sh) == 0)%Q ∧ (0 <= dim_to_Q (sh_y sh))%Q ∧
  is_Some (sh_blur sh) ∧
  match sh_color sh with
  | Some c => (is_black c ∨ is_white c) ∧ (alpha c < 1)%Q
  | None => False
  end.

#[export] Instance cast_down_dec sh : Decision (cast_down sh).
Proof. unfold cast_down. destruct (sh_color sh); apply _. Defined.

(** An inner shadow that lies along the top edge: as far down as it is
    blurred, and drawn in by as much. *)
Definition top_edge (sh : shadow) : Prop :=
  sh_inset sh = true ∧
  match sh_blur sh, sh_spread sh with
  | Some blur, Some spread =>
      (dim_to_Q blur == dim_to_Q (sh_y sh))%Q ∧
      (dim_to_Q spread == - dim_to_Q (sh_y sh))%Q
  | _, _ => False
  end.

#[export] Instance top_edge_dec sh : Decision (top_edge sh).
Proof.
  unfold top_edge. destruct (sh_blur sh), (sh_spread sh); apply _.
Defined.

(** A highlight: a white inner line of half a pixel.  A layer that is
    white is a highlight, and a layer that falls outside is black. *)
Definition highlight_or_drop (sh : shadow) : Prop :=
  match sh_color sh with
  | Some c =>
      (is_white c → sh_inset sh = true ∧ (dim_to_Q (sh_y sh) == 1 # 2)%Q) ∧
      (sh_inset sh = false → is_black c)
  | None => False
  end.

#[export] Instance highlight_or_drop_dec sh : Decision (highlight_or_drop sh).
Proof. unfold highlight_or_drop. destruct (sh_color sh); apply _. Defined.

(** ** Lemmas *)

Lemma shadows_of_value_Some v shs :
  shadows_of_value v = Some shs →
  ∃ s ls, v = VString s ∧ g_shadow_list (chars_of s) ls ∧ wf_layers ls ∧
          mapM shadow_of_items ls = Some shs.
Proof.
  unfold shadows_of_value. destruct (read v) as [ls|] eqn:E; [|done].
  apply read_Some in E as (s & -> & Hp & Hwf). simpl. intros Hm.
  exists s, ls. split_and!; [done| |done..]. by apply parse_layers_text.
Qed.

(** The layers of a shadow list assemble to as many shadows, each well
    formed and made of the items of its layer. *)
Lemma mapM_shadow_of_items ls shs :
  mapM shadow_of_items ls = Some shs →
  Forall2 (λ l sh, l ≡ₚ items_of_shadow sh ∧ wf_shadow sh) ls shs.
Proof.
  intros H%mapM_Some. eapply Forall2_impl; [exact H|].
  by intros l sh (? & _ & ?)%shadow_of_items_Some.
Qed.

Lemma all_shadows_forall ps P `{∀ name sh, Decision (P name sh)} :
  all_shadows ps P = true →
  ∀ name v, (name, v) ∈ ps →
    ∃ shs, shadows_of_value v = Some shs ∧ Forall (P name) shs.
Proof.
  unfold all_shadows. rewrite forallb_Forall, Forall_forall.
  intros Hall name v Hin. specialize (Hall _ Hin). simpl in Hall.
  destruct (shadows_of_value v) as [shs|]; [|done]. exists shs.
  split; [done|]. apply forallb_Forall in Hall.
  eapply Forall_impl; [exact Hall|]. intros sh Hsh. simpl in Hsh.
  by apply bool_decide_eq_true in Hsh.
Qed.

(** The same for the tokens found by name. *)
Lemma all_shadows_token P `{∀ name sh, Decision (P name sh)} name shs :
  all_shadows boxShadow P = true →
  token_shadows name = Some shs → Forall (P name) shs.
Proof.
  intros Hall. unfold token_shadows.
  destruct (get (VObject boxShadow) name) as [v|] eqn:E; [|done].
  apply assoc_get_Some_elem in E. intros Hv.
  change (shadows_of_value v = Some shs) in Hv.
  destruct (all_shadows_forall _ _ Hall _ _ E) as (shs' & ? & ?).
  by simplify_eq.
Qed.

(** ** Theorems *)

(** C3: every value of [theme.extend.boxShadow] is a text of the
    shadow-list grammar, and each of its layers is a shadow: two to
    four lengths that stand together, at most one colour, at most one
    [inset], and a blur radius that is not negative. *)
Theorem box_shadows_are_css_shadows name v :
  (name, v) ∈ boxShadow →
  ∃ s ls shs,
    v = VString s ∧ g_shadow_list (chars_of s) ls ∧
    shadows_of_value v = Some shs ∧
    Forall2 (λ l sh, l ≡ₚ items_of_shadow sh ∧ wf_shadow sh) ls shs ∧
    Forall (Forall wf_item) ls ∧ shs ≠ [].
Proof.
  intros Hin.
  assert (all_shadows boxShadow (λ _ _, True) = true) as H by by vm_compute.
  destruct (all_shadows_forall _ _ H _ _ Hin) as (shs & Hv & _).
  pose proof Hv as (s & ls & -> & Htext & [Hne Hwf] & Hm)%shadows_of_value_Some.
  pose proof (mapM_shadow_of_items _ _ Hm) as Hall.
  exists s, ls, shs. split_and!; [done..| |].
  - eapply Forall_impl; [exact Hwf|]. by intros l [_ ?].
  - intros ->. by apply Forall2_nil_inv_r in Hall.
Qed.

Lemma box_shadows_are_css_shadows_witness :
  ∃ s ls shs,
    VString "0px 0.5px 1px rgba(0, 0, 0, 0.8), inset 0px 0.5px 0.5px rgba(255, 255, 255, 0.12)"
      = VString s ∧
    g_shadow_list (chars_of s) ls ∧
    shadows_of_value
      (VString "0px 0.5px 1px rgba(0, 0, 0, 0.8), inset 0px 0.5px 0.5px rgba(255, 255, 255, 0.12)")
      = Some shs ∧
    Forall2 (λ l sh, l ≡ₚ items_of_shadow sh ∧ wf_shadow sh) ls shs ∧
    Forall (Forall wf_item) ls ∧ shs ≠ [].
Proof.
  apply (box_shadows_are_css_shadows "action-secondary"). reflect_decide.
Defined.

(** C7: every shadow list of the source is written in the canonical
    spacing of the grammar, one blank between the parts of a layer and
    a comma and a blank between layers, with every colour and length in
    its canonical text: reading a value and printing it gives the value
    back, and so for the whole table. *)
Theorem box_shadows_roundtrip :
  (∀ name v, (name, v) ∈ boxShadow →
     ∃ ls : list layer, read v = Some ls ∧ write ls = v) ∧
  decode boxShadow = Some shadow_table ∧ encode shadow_table = boxShadow.
Proof.
  assert (decode boxShadow = Some shadow_table) as Hdec by by vm_compute.
  assert (encode shadow_table = boxShadow) as Henc by by vm_compute.
  split; [by eapply decode_canonical|done].
Qed.

(** C14: every layer of every shadow of the source is cast straight
    down: its lengths are in pixels, its horizontal offset is zero, its
    vertical offset is not negative, it has a blur radius, and its
    colour is a translucent black or white. *)
Theorem box_shadows_cast_down name shs :
  token_shadows name = Some shs → Forall cast_down shs.
Proof.
  assert (all_shadows boxShadow (λ _, cast_down) = true) as H by by vm_compute.
  by apply (all_shadows_token (λ _, cast_down)).
Qed.

Lemma box_shadows_cast_down_witness :
  ∃ shs, token_shadows "menu" = Some shs ∧ Forall cast_down shs.
Proof.
  eexists. split; [by vm_compute|].
  apply (box_shadows_cast_down "menu"). by vm_compute.
Defined.

(** C23: a white layer is a highlight, an inner line half a pixel below
    the top edge; a layer that falls outside its box is black. *)
Theorem white_layers_are_highlights name shs :
  token_shadows name = Some shs → Forall highlight_or_drop shs.
Proof.
  assert (all_shadows boxShadow (λ _, highlight_or_drop) = true) as H
    by by vm_compute.
  by apply (all_shadows_token (λ _, highlight_or_drop)).
Qed.

Lemma white_layers_are_highlights_witness :
  ∃ shs, token_shadows "action-colored" = Some shs ∧
         Forall highlight_or_drop shs.
Proof.
  eexists. split; [by vm_compute|].
  apply (white_layers_are_highlights "action-colored"). by vm_compute.
Defined.

(** C24: [input-inner] is made of six inner shadows along the top edge,
    each as far down as it is blurred and drawn in by as much, at
    growing distances. *)
Theorem input_inner_top_edge :
  ∃ shs, token_shadows "input-inner" = Some shs ∧ length shs = 6 ∧
         Forall top_edge shs ∧
         Sorted Qlt ((λ sh, dim_to_Q (sh_y sh)) <$> shs).
Proof. eexists. split; [by vm_compute|]. split_and!; [done|reflect_decide..]. Qed.

(** C25: the tokens write the parts of a layer in the order lengths,
    colour, [inset], but for [action-secondary], which writes [inset]
    first. *)
Theorem box_shadow_item_order name v :
  (name, v) ∈ boxShadow →
  ∃ ls, read v = Some ls ∧
        (Forall canonical_layer ls ↔ name ≠ "action-secondary").
Proof.
  intros Hin.
  assert (all_tokens boxShadow (λ name ls, bool_decide
            (Forall canonical_layer ls ↔ name ≠ "action-secondary")) = true)
    as H by by vm_compute.
  destruct (all_tokens_forall _ _ H _ _ Hin) as (ls & ? & ?%bool_decide_eq_true).
  by exists ls.
Qed.

Lemma box_shadow_item_order_witness :
  ∃ ls, read (VString "0px 0.5px 1px rgba(0, 0, 0, 0.8), inset 0px 0.5px 0.5px rgba(255, 255, 255, 0.12)")
          = Some ls ∧
        (Forall canonical_layer ls ↔ "action-secondary" ≠ "action-secondary").
Proof. apply (box_shadow_item_order "action-secondary"). reflect_decide. Defined.
