(* ===== verification/CssGradient.v ===== *)
(** * CssGradient: the grammar of linear gradients

    A value of [backgroundImage] is a linear gradient:
    [linear-gradient(<angle>, <stop>, <stop>, ...)], where a stop is a
    colour, optionally followed by the position along the gradient line
    at which the colour is reached, a percentage.

    - [gradient] and [color_stop] are the values;
    - [p_gradient] is the parser and [g_gradient] its grammar, built
      from the grammars of [CssDimension] and [CssColor] with the
      optional parts and lists of [Repeat];
    - [print_gradient] writes a gradient with one blank after each
      comma and between a colour and its position;
    - [wf_gradient] says when a gradient can be written: an angle in
      degrees, two stops or more, positions that are percentages.

    The theorems: the parser reads exactly the grammar
    ([parses_gradient]); what it reads is well formed
    ([g_gradient_wf]); a printed gradient is read back
    ([p_gradient_print]).

    The grammar is a subset of CSS: the direction is always an angle
    (CSS also has [to <side>] and no direction at all), a position is
    a percentage (CSS also has lengths and two positions for a stop),
    and colour hints and repeating gradients are not read. *)

From Stdlib Require Import Decimal DecimalN QArith.
From S2P Require Import Prelude Lexical Grammar Repeat CssColor CssDimension.

#[local] Open Scope char_scope.

(** ** Gradients *)

Record color_stop : Type := ColorStop {
  stop_color : color;
  stop_at : option dimension;
}.

Record gradient : Type := Gradient {
  grad_angle : dimension;
  grad_stops : list color_stop;
}.

#[export] Instance color_stop_eq_dec : EqDecision color_stop.
Proof. solve_decision. Defined.

#[export] Instance gradient_eq_dec : EqDecision gradient.
Proof. solve_decision. Defined.

Definition angle_ok (d : dimension) : bool := bool_decide (dim_unit d = Deg).

Definition percentage_ok (d : dimension) : bool :=
  bool_decide (dim_unit d = Percent).

Definition wf_stop (st : color_stop) : Prop :=
  wf_color (stop_color st) ∧
  from_option (λ d, wf_dimension d ∧ percentage_ok d = true) True (stop_at st).

(** A gradient needs two colours to run between. *)
Definition stops_ok (g : gradient) : bool :=
  bool_decide (2 ≤ length (grad_stops g)).

Definition wf_gradient (g : gradient) : Prop :=
  (wf_dimension (grad_angle g) ∧ angle_ok (grad_angle g) = true) ∧
  Forall wf_stop (grad_stops g) ∧ stops_ok g = true.

(** ** The parser *)

Definition p_angle : parser dimension := p_filter angle_ok p_dimension.

Definition p_percentage : parser dimension := p_filter percentage_ok p_dimension.

Definition p_position : parser dimension := p_ws1 ≫= λ _, p_percentage.

Definition p_stop : parser color_stop :=
  c ← p_color; at_ ← p_opt p_position; mret (ColorStop c at_).

Definition p_stops : parser (list color_stop) := p_sep_by1 p_stop p_comma.

Definition p_close : parser () := _ ← p_ws; p_lit [")"].

Definition p_gradient : parser gradient :=
  p_filter stops_ok
    (_ ← p_lit (chars_of "linear-gradient("); _ ← p_ws;
     a ← p_angle; _ ← p_comma; stops ← p_stops; _ ← p_close;
     mret (Gradient a stops)).

Definition parse_gradient (s : string) : option gradient :=
  parse_all p_gradient s.

(** ** The grammar *)

Definition g_angle : grammar dimension := g_filter angle_ok g_dimension.

Definition g_percentage : grammar dimension := g_filter percentage_ok g_dimension.

Definition g_position : grammar dimension := g_bind g_ws1 (λ _, g_percentage).

Definition g_stop : grammar color_stop :=
  g_bind g_color (λ c, g_bind (g_opt g_position) (λ at_,
  g_ret (ColorStop c at_))).

Definition g_stops : grammar (list color_stop) := g_sep_by1 g_stop g_comma.

Definition g_close : grammar () := g_bind g_ws (λ _, g_lit [")"]).

Definition g_gradient : grammar gradient :=
  g_filter stops_ok
    (g_bind (g_lit (chars_of "linear-gradient(")) (λ _, g_bind g_ws (λ _,
     g_bind g_angle (λ a, g_bind g_comma (λ _, g_bind g_stops (λ stops,
     g_bind g_close (λ _, g_ret (Gradient a stops)))))))).

(** What may follow a stop, and a list of stops: no position, no
    further stop. *)
Definition ends_stop : chars → Prop := λ rest, p_position rest = None.

Definition ends_stops : chars → Prop :=
  λ rest, ends_stop rest ∧ (p_comma ≫= λ _, p_stop) rest = None.

(** ** The printer *)

Definition print_stop (st : color_stop) : chars :=
  print_color (stop_color st) ++
  match stop_at st with
  | Some d => " " :: print_dimension d
  | None => []
  end.

Definition print_gradient (g : gradient) : chars :=
  chars_of "linear-gradient(" ++ print_dimension (grad_angle g) ++
  chars_of ", " ++ print_sep_by print_stop (chars_of ", ") (grad_stops g) ++
  [")"].

Definition gradient_to_string (g : gradient) : string :=
  string_of (print_gradient g).

(** ** Lemmas: the parts *)

Lemma parses_position : parses p_position g_position any_rest.
Proof.
  eapply parses_bind_starts;
    [apply parses_ws1|intros _; apply parses_filter, parses_dimension|
     intros _; apply g_starts_filter, g_starts_dimension|
     apply number_not_space].
Qed.

Lemma parses_stop : parses p_stop g_stop ends_stop.
Proof.
  eapply parses_bind_free; [apply parses_color|intros c].
  eapply parses_bind;
    [apply parses_opt, parses_position|intros at_; apply parses_ret|].
  by intros at_ s2 b rest [-> _] Hr.
Qed.

Lemma g_starts_stop : g_starts g_stop starts_color.
Proof. apply g_starts_bind, g_starts_color. Qed.

(** No position begins where a comma or a closing parenthesis stands,
    whatever blanks come first. *)
Lemma ends_stop_blank w rest :
  blank w → avoids is_space rest → avoids starts_number rest →
  ends_stop (w ++ rest).
Proof.
  intros Hw Hs Hn. apply p_ws1_then_None; [done..|].
  eapply parses_fails;
    [apply (parses_filter _ _ _ _ (parses_dimension any_rest))|
     apply g_starts_filter, g_starts_dimension|done].
Qed.

Lemma ends_stop_comma s u rest : g_comma s u → ends_stop (s ++ rest).
Proof.
  intros (w1 & ? & [] & -> & Hw1 & ? & w2 & [] & -> & -> & Hw2).
  rewrite <-app_assoc. by apply ends_stop_blank.
Qed.

Lemma ends_stops_close s u rest : g_close s u → ends_stops (s ++ rest).
Proof.
  intros (w & ? & [] & -> & Hw & ->). rewrite <-app_assoc. split.
  - by apply ends_stop_blank.
  - by rewrite bind_run, p_comma_None.
Qed.

Lemma parses_stops : parses p_stops g_stops ends_stops.
Proof.
  eapply parses_sep_by1;
    [apply parses_stop|apply parses_comma|
     apply g_starts_nonempty with starts_color, g_starts_stop| |
     apply ends_stop_comma|done].
  intros s st rest Hst.
  apply g_starts_avoid with g_stop starts_color st;
    [apply g_starts_stop|apply color_not_space|done].
Qed.

Lemma parses_close follow : parses p_close g_close follow.
Proof.
  eapply parses_bind_starts;
    [apply parses_ws|intros _; apply parses_lit|
     intros _; apply (g_starts_lit ")")|apply close_not_space].
Qed.

(** ** Lemmas: parser and grammar *)

Lemma parses_gradient follow : parses p_gradient g_gradient follow.
Proof.
  apply parses_filter.
  eapply parses_bind_free; [apply parses_lit|intros _].
  eapply parses_bind_starts;
    [apply parses_ws|intros _|
     intros _; apply g_starts_bind, g_starts_filter, g_starts_dimension|
     apply number_not_space].
  eapply parses_bind_free;
    [apply parses_filter, parses_dimension|intros a].
  eapply parses_bind_starts;
    [apply parses_comma|intros _|
     intros _; apply g_starts_bind, g_starts_sep_by1, g_starts_stop|
     apply color_not_space].
  eapply parses_bind; [apply parses_stops|intros stops|].
  - eapply parses_bind_free; [apply parses_close|intros _; apply parses_ret].
  - intros stops s2 b rest (s3 & ? & [] & -> & Hc & -> & _) _.
    rewrite app_nil_r. by eapply ends_stops_close.
Qed.

Lemma parse_gradient_text s g :
  parse_gradient s = Some g ↔ g_gradient (chars_of s) g.
Proof. by apply (parses_all _ _ _ _ _ (parses_gradient any_rest)). Qed.

(** What is read is well formed. *)
Lemma g_percentage_wf s d :
  g_percentage s d → wf_dimension d ∧ percentage_ok d = true.
Proof. intros [Hd%g_dimension_text Hp]. split; [by destruct Hd|done]. Qed.

Lemma g_stop_wf s st : g_stop s st → wf_stop st.
Proof.
  intros (s1 & ? & c & -> & Hc%g_color_text%color_text_wf
          & s2 & ? & at_ & -> & Hat & -> & ->).
  split; [done|]. simpl.
  destruct Hat as [(d & (? & ? & [] & -> & _ & Hd%g_percentage_wf) & ->)
                  |[_ ->]]; done.
Qed.

Lemma g_gradient_wf s g : g_gradient s g → wf_gradient g.
Proof.
  intros [(? & ? & [] & -> & _ & ? & ? & [] & -> & _ & ? & ? & a & ->
           & [Ha%g_dimension_text Hdeg] & ? & ? & [] & -> & _ & ? & ? & stops
           & -> & Hst & ? & ? & [] & -> & _ & -> & ->) Hok].
  split_and!; [by destruct Ha|done| |done].
  eapply g_sep_by1_Forall in Hst as [? _]; [done|]. apply g_stop_wf.
Qed.

(** ** Lemmas: the printer *)

Lemma print_dimension_text d : wf_dimension d → g_dimension (print_dimension d) d.
Proof. intros Hd. apply g_dimension_text. destruct d. by constructor. Qed.

Lemma print_stop_text st : wf_stop st → g_stop (print_stop st) st.
Proof.
  destruct st as [c at_]. intros [Hc Hat]. unfold print_stop. simpl in *.
  apply g_bind_intro with c; [by apply g_color_text, print_color_text|].
  apply (g_bind_ret _ (ColorStop c)). destruct at_ as [d|]; [left|by right].
  destruct Hat as [Hd Hp]. exists d. split; [|done].
  apply (g_bind_intro _ _ [" "] _ ()); [done|].
  split; [by apply print_dimension_text|done].
Qed.

Lemma print_gradient_text g : wf_gradient g → g_gradient (print_gradient g) g.
Proof.
  destruct g as [a stops]. intros ([Ha Hdeg] & Hst & Hok).
  split; [|done]. unfold print_gradient. cbn [grad_angle grad_stops] in *.
  apply g_bind_intro with (); [done|]. apply g_bind_ws_skip.
  apply g_bind_intro with a; [by split; [apply print_dimension_text|]|].
  apply g_bind_intro with (); [apply g_comma_print|].
  apply g_bind_intro with stops.
  - apply g_sep_by1_print; [by intros ->| |apply g_comma_print].
    eapply Forall_impl; [exact Hst|]. apply print_stop_text.
  - by apply (g_bind_ret _ (λ _, Gradient a stops) _ ()), g_bind_ws_skip.
Qed.

(** A printed gradient is read back. *)
Lemma p_gradient_print g rest :
  wf_gradient g → p_gradient (print_gradient g ++ rest) = Some (g, rest).
Proof.
  intros Hg. apply (parses_complete _ _ _ (parses_gradient any_rest)); [|done].
  by apply print_gradient_text.
Qed.

Lemma p_gradient_wf s g rest : p_gradient s = Some (g, rest) → wf_gradient g.
Proof.
  intros (pre & _ & H)%(parses_sound _ _ _ (parses_gradient any_rest)).
  by eapply g_gradient_wf.
Qed.
