(* ===== verification/Gradients.v ===== *)
(** * Gradients: the gradients of [theme.extend.backgroundImage]

    [Config.backgroundImage] holds two tokens, the background of the
    secondary action and its background under the pointer.  This file
    reads them with the grammar of [CssGradient] through the interface
    of [Tokens] ([gradient_codec]).

    The theorems on the table: every token is a linear gradient of the
    grammar with an angle in degrees and two stops or more; every token
    is written in the canonical spacing; every gradient runs from the
    top edge to the bottom edge in white that fades; the gradient under
    the pointer is the resting one with every stop more opaque by the
    same amount. *)

From Stdlib Require Import Decimal DecimalN QArith.
From stdpp Require Import sorting.
From S2P Require Import Prelude Lexical JsValue Tokens Config Grammar Repeat.
From S2P Require Import CssColor CssDimension CssGradient.

(** ** Tokens as gradients *)

#[export] Instance gradient_codec : Codec gradient := {|
  codec_wf := wf_gradient;
  codec_follow := λ _, True;
  print := print_gradient;
  parse := p_gradient;
  parse_print := λ g rest Hg _, p_gradient_print g rest Hg;
  parse_wf := p_gradient_wf;
  follow_nil := I;
|}.

(** The table of the configuration as gradients. *)
Definition gradient_table : list (string * gradient) :=
  default [] (decode backgroundImage).

(** The gradient of a token of the configuration. *)
Definition token_gradient (name : string) : option gradient :=
  v ← get (VObject backgroundImage) name; read v.

(** ** What a gradient looks like *)

(** The positions of the stops, for the stops that have one. *)
Definition stop_positions (g : gradient) : list Q :=
  omap (λ st, dim_to_Q <$> stop_at st) (grad_stops g).

Definition stop_alphas (g : gradient) : list Q :=
  (λ st, alpha (stop_color st)) <$> grad_stops g.

(** A gradient that runs from the top edge to the bottom edge: at 180
    degrees, every stop with a position, the first at 0%, the last at
    100%, and no position before the one of an earlier stop. *)
Definition top_to_bottom (g : gradient) : Prop :=
  (dim_to_Q (grad_angle g) == 180)%Q ∧
  length (stop_positions g) = length (grad_stops g) ∧
  Sorted Qle (stop_positions g) ∧
  from_option (Qeq 0) False (head (stop_positions g)) ∧
  from_option (Qeq 100) False (last (stop_positions g)).

#[export] Instance top_to_bottom_dec g : Decision (top_to_bottom g).
Proof.
  unfold top_to_bottom.
  destruct (head (stop_positions g)), (last (stop_positions g)); apply _.
Defined.

(** White that gets more transparent from stop to stop. *)
Definition fading_white (g : gradient) : Prop :=
  Forall (λ st, is_white (stop_color st)) (grad_stops g) ∧
  Sorted (flip Qlt) (stop_alphas g).

#[export] Instance fading_white_dec g : Decision (fading_white g).
Proof. unfold fading_white. apply _. Defined.

(** Two gradients that differ only in that every stop of the second is
    more opaque by [d]. *)
Definition lifted_by (d : Q) (g h : gradient) : Prop :=
  grad_angle g = grad_angle h ∧
  Forall2 (λ st st',
    channels (stop_color st) = channels (stop_color st') ∧
    stop_at st = stop_at st' ∧
    (alpha (stop_color st') == alpha (stop_color st) + d)%Q)
    (grad_stops g) (grad_stops h).

#[export] Instance lifted_by_dec d g h : Decision (lifted_by d g h).
Proof. unfold lifted_by. apply _. Defined.

(** ** Lemmas *)

(** What is read as a gradient is a text of the gradient grammar. *)
Lemma read_gradient_text v g :
  read v = Some g →
  ∃ s, v = VString s ∧ g_gradient (chars_of s) g ∧ wf_gradient g.
Proof.
  intros (s & -> & Hp & Hwf)%read_Some. exists s.
  split_and!; [done|by apply parse_gradient_text|done].
Qed.

Lemma wf_gradient_stops g : wf_gradient g → 2 ≤ length (grad_stops g).
Proof. by intros (_ & _ & ?%bool_decide_eq_true). Qed.

(** ** Theorems *)

(** C4: every value of [theme.extend.backgroundImage] is a text of the
    linear-gradient grammar: an angle in degrees and two colour stops or
    more, each a colour of the colour grammar with, optionally, a
    position in percent. *)
Theorem gradients_are_css_gradients name v :
  (name, v) ∈ backgroundImage →
  ∃ s g, v = VString s ∧ token_gradient name = Some g ∧
         g_gradient (chars_of s) g ∧
         wf_gradient g ∧ 2 ≤ length (grad_stops g).
Proof.
  intros Hin.
  assert (all_tokens backgroundImage
            (λ name g, bool_decide (token_gradient name = Some g)) = true) as H
    by by vm_compute.
  destruct (all_tokens_forall _ _ H _ _ Hin) as (g & Hg & Hn%bool_decide_eq_true).
  pose proof Hg as (s & -> & Htext & Hwf)%read_gradient_text.
  exists s, g. split_and!; [done..|]. by apply wf_gradient_stops.
Qed.

Lemma gradients_are_css_gradients_witness :
  ∃ s g,
    VString "linear-gradient(180deg, rgba(255, 255, 255, 0.12) 0%, rgba(255, 255, 255, 0.10) 100%)"
      = VString s ∧
    token_gradient "action-secondary" = Some g ∧
    g_gradient (chars_of s) g ∧ wf_gradient g ∧ 2 ≤ length (grad_stops g).
Proof.
  apply (gradients_are_css_gradients "action-secondary"). reflect_decide.
Defined.

(** C8: every gradient of the source is written in the canonical
    spacing of the grammar: reading a value and printing it gives the
    value back, and so for the whole table. *)
Theorem gradients_roundtrip :
  (∀ name v, (name, v) ∈ backgroundImage →
     ∃ g : gradient, read v = Some g ∧ write g = v) ∧
  decode backgroundImage = Some gradient_table ∧
  encode gradient_table = backgroundImage.
Proof.
  assert (decode backgroundImage = Some gradient_table) as Hdec
    by by vm_compute.
  assert (encode gradient_table = backgroundImage) as Henc by by vm_compute.
  split; [by eapply decode_canonical|done].
Qed.

(** C15: every gradient of the source runs from the top edge to the
    bottom edge, with its first stop at 0% and its last at 100%, in
    white that gets more transparent on the way down. *)
Theorem gradients_fade_downwards name v :
  (name, v) ∈ backgroundImage →
  ∃ g, read v = Some g ∧ top_to_bottom g ∧ fading_white g.
Proof.
  intros Hin.
  assert (all_tokens backgroundImage (λ _ g, bool_decide
            (top_to_bottom g ∧ fading_white g)) = true) as H by by vm_compute.
  destruct (all_tokens_forall _ _ H _ _ Hin)
    as (g & ? & [? ?]%bool_decide_eq_true).
  by exists g.
Qed.

Lemma gradients_fade_downwards_witness :
  ∃ g,
    read (VString "linear-gradient(180deg, rgba(255, 255, 255, 0.18) 0%, rgba(255, 255, 255, 0.16) 100%)")
      = Some g ∧
    top_to_bottom g ∧ fading_white g.
Proof.
  apply (gradients_fade_downwards "action-secondary-hover"). reflect_decide.
Defined.

(** C22: the background of the secondary action under the pointer is its
    resting background with every stop more opaque by 0.06: the same
    angle, the same colours at the same positions. *)
Theorem hover_gradient_is_lifted :
  ∃ g h,
    token_gradient "action-secondary" = Some g ∧
    token_gradient "action-secondary-hover" = Some h ∧
    lifted_by (6 # 100) g h.
Proof. eexists _, _. split_and!; [by vm_compute..|reflect_decide]. Qed.
