(* ===== verification/Naming.v ===== *)
(** * Naming: the names of the tokens

    The names of the tokens become part of class names in markup
    ([bg-background1], [shadow-menu], [text-small]), so they are data
    as much as the values are.  This file states what the names of
    [theme.extend] have in common:

    - every name is made of letters, digits and hyphens only, so that a
      class built from it needs no escaping ([plain_name]);
    - each category follows one convention ([convention]): colours are
      written in camel case, shadows and gradients in kebab case, the
      typography categories in one lower-case word, and the border
      radius has the one key [DEFAULT];
    - a token for the state under the pointer ([hover_base]) has a
      token for the resting state beside it;
    - the numbered scales of the palette ([scale_numbers]) count from 1
      without a gap;
    - the classes that the categories contribute under a shared prefix
      ([class_names]) are pairwise different: no colour is named like a
      font size, a gradient or a shadow, and no family like a weight.

    The prefixes of [utilities] are those under which the framework
    exposes the categories of this table, as far as two categories
    could meet under them; the table itself does not state them. *)

From S2P Require Import Prelude Lexical JsValue Config.

(** ** Characters of names *)

Definition is_lower (c : ascii) : bool :=
  let n := N_of_ascii c in ((97 <=? n) && (n <=? 122))%N.

Definition is_upper (c : ascii) : bool :=
  let n := N_of_ascii c in ((65 <=? n) && (n <=? 90))%N.

Definition is_alnum (c : ascii) : bool := is_lower c || is_upper c || is_digit c.

Definition plain_name (s : chars) : bool :=
  negb (bool_decide (s = [])) &&
  forallb (λ c, is_alnum c || bool_decide (c = "-"%char)) s.

(** ** Conventions *)

(** [backgroundInput]: a lower-case letter, then letters and digits. *)
Definition camel_case (s : chars) : bool :=
  starts_with is_lower s && forallb is_alnum s.

(** The words of a name, split at its hyphens. *)
Definition words (s : chars) : list chars := split_on "-" s.

Definition lower_word (w : chars) : bool :=
  starts_with is_lower w && forallb (λ c, is_lower c || is_digit c) w.

(** [action-secondary-hover]: lower-case words joined by hyphens. *)
Definition kebab_case (s : chars) : bool := forallb lower_word (words s).

Inductive convention : Type := Camel | Kebab | Word | Default.

#[export] Instance convention_eq_dec : EqDecision convention.
Proof. solve_decision. Defined.

Definition follows (cv : convention) (s : chars) : bool :=
  match cv with
  | Camel => camel_case s
  | Kebab => kebab_case s
  | Word => lower_word s
  | Default => bool_decide (s = chars_of "DEFAULT")
  end.

(** The convention of each category of the table. *)
Definition convention_of (category : string) : convention :=
  if decide (category = "colors") then Camel
  else if decide (category ∈ ["boxShadow"; "backgroundImage"]) then Kebab
  else if decide (category = "borderRadius") then Default
  else Word.

(** ** States *)

(** Whether [suffix] ends [s], and what stands before it. *)
Definition strip_suffix (suffix s : chars) : option chars :=
  let n := length s - length suffix in
  if decide (drop n s = suffix ∧ length suffix ≤ length s)
  then Some (take n s) else None.

(** The resting token of a token for the state under the pointer:
    [actionPrimaryBackgroundHover] and [action-secondary-hover] are
    such tokens. *)
Definition hover_base (name : string) : option string :=
  match strip_suffix (chars_of "Hover") (chars_of name) with
  | Some base => Some (string_of base)
  | None => string_of <$> strip_suffix (chars_of "-hover") (chars_of name)
  end.

(** ** Numbered scales *)

(** A name as its stem and the number at its end, when it ends in
    digits. *)
Definition numbered (name : string) : option (string * N) :=
  let '(digits, stem) := span is_digit (reverse (chars_of name)) in
  match digits with
  | [] => None
  | _ => u ← uint_of_chars (reverse digits);
         Some (string_of (reverse stem), N.of_uint u)
  end.

(** The numbers of the tokens with the stem [stem], in source order. *)
Definition scale_numbers (stem : string) (names : list string) : list N :=
  omap (λ name, '(s, n) ← numbered name;
                if decide (s = stem) then Some n else None) names.

(** The stems of the numbered tokens, each once. *)
Definition scale_stems (names : list string) : list string :=
  remove_dups (omap (λ name, fst <$> numbered name) names).

(** ** Class names *)

(** The prefixes under which the categories of the table are exposed
    as classes.  Colours appear under several; listed are those that
    another category of the table uses as well (text, background,
    shadow) and the border.  The prefixes that colours alone use are
    left out: under them a class is the name of a colour and nothing
    else. *)
Definition utilities : list (string * string) :=
  [("colors", "text"); ("colors", "bg"); ("colors", "border");
   ("colors", "shadow"); ("backgroundImage", "bg"); ("boxShadow", "shadow");
   ("fontFamily", "font"); ("fontWeight", "font"); ("fontSize", "text");
   ("letterSpacing", "tracking"); ("borderRadius", "rounded")].

(** The class of a token: the prefix alone for the key [DEFAULT]. *)
Definition class_name (prefix name : string) : string :=
  if decide (name = "DEFAULT") then prefix
  else prefix +:+ "-" +:+ name.

(** The classes of a table, each with the category and token it comes
    from. *)
Definition class_names (table : props) : list (string * (string * string)) :=
  '(category, prefix) ← utilities;
  '(c, name, _) ← tokens_of table;
  if decide (c = category) then [(class_name prefix name, (category, name))]
  else [].

(** ** Lemmas *)

Lemma strip_suffix_Some suffix s base :
  strip_suffix suffix s = Some base ↔ s = base ++ suffix.
Proof.
  unfold strip_suffix. split.
  - case_decide as H; [|done]. destruct H as [Hd Hl]. intros [= <-].
    by rewrite <-Hd at 2; rewrite take_drop.
  - intros ->. rewrite length_app, Nat.add_sub.
    rewrite decide_True; [by rewrite take_app_length|].
    split; [by rewrite drop_app_length|lia].
Qed.

Lemma hover_base_Some name base :
  hover_base name = Some base →
  name = base +:+ "Hover" ∨ name = base +:+ "-hover".
Proof.
  unfold hover_base.
  destruct (strip_suffix (chars_of "Hover") _) as [b|] eqn:E.
  - intros [= <-]. left. apply strip_suffix_Some in E.
    apply chars_of_inj. by rewrite chars_of_app, chars_of_string_of.
  - destruct (strip_suffix (chars_of "-hover") _) as [b|] eqn:E'; [|done].
    intros [= <-]. right. apply strip_suffix_Some in E'.
    apply chars_of_inj. by rewrite chars_of_app, chars_of_string_of.
Qed.

(** ** Theorems *)

(** C28: every token name of [theme.extend] is made of letters, digits
    and hyphens only, and follows the convention of its category:
    camel case for the colours, kebab case for the shadows and the
    gradients, one lower-case word for the typography categories, and
    the key [DEFAULT] for the border radius. *)
Theorem token_names_follow_conventions category name v :
  (category, name, v) ∈ tokens_of extend →
  plain_name (chars_of name) = true ∧
  follows (convention_of category) (chars_of name) = true.
Proof.
  assert (Forall (λ t, plain_name (chars_of t.1.2) = true ∧
                       follows (convention_of t.1.1) (chars_of t.1.2) = true)
            (tokens_of extend)) as H by reflect_decide.
  rewrite Forall_forall in H. intros Hin. apply (H _ Hin).
Qed.

Lemma token_names_follow_conventions_witness :
  plain_name (chars_of "action-secondary-hover") = true ∧
  follows (convention_of "backgroundImage")
    (chars_of "action-secondary-hover") = true.
Proof.
  apply (token_names_follow_conventions "backgroundImage"
           "action-secondary-hover"
           (default (VNumber 0) (assoc_get "action-secondary-hover" backgroundImage))).
  reflect_decide.
Defined.

(** C29: every token for the state under the pointer stands beside the
    token for the resting state: a token whose name ends in [Hover] or
    [-hover] has a token of the same category under the name without
    that ending. *)
Theorem hover_tokens_have_base category name v base :
  (category, name, v) ∈ tokens_of extend → hover_base name = Some base →
  is_Some (get_path module_exports (token_path category base)).
Proof.
  assert (Forall (λ t, from_option
            (λ b, bool_decide
                    (is_Some (get_path module_exports (token_path t.1.1 b))))
            true (hover_base t.1.2) = true) (tokens_of extend)) as H
    by reflect_decide.
  rewrite Forall_forall in H. intros Hin Hb. specialize (H _ Hin).
  cbn [fst snd] in H. rewrite Hb in H. by apply bool_decide_eq_true in H.
Qed.

Lemma hover_tokens_have_base_witness :
  is_Some (get_path module_exports
             (token_path "colors" "actionPrimaryBackground")).
Proof.
  apply (hover_tokens_have_base "colors" "actionPrimaryBackgroundHover"
           (VString "#187CD9")); reflect_decide.
Defined.

(** C30: the numbered scales of the palette, [background], [text] and
    [border], are written in ascending order and count from 1 without a
    gap. *)
Theorem numbered_scales_count_from_one :
  scale_stems colors.*1 = ["background"; "text"; "border"] ∧
  ∀ stem, stem ∈ scale_stems colors.*1 →
    ∃ n, scale_numbers stem colors.*1 = N.of_nat <$> seq 1 n ∧ 3 ≤ n.
Proof.
  split; [by vm_compute|]. intros stem Hstem.
  assert (Forall (λ stem, Exists (λ n,
            scale_numbers stem colors.*1 = N.of_nat <$> seq 1 n ∧ 3 ≤ n)
            (seq 0 10)) (scale_stems colors.*1)) as H by reflect_decide.
  rewrite Forall_forall in H.
  destruct (proj1 (Exists_exists _ _) (H _ Hstem)) as (n & _ & ? & ?). eauto.
Qed.

(** C26: the classes that the table contributes are pairwise different:
    a class name belongs to one token of one category.  Under a prefix
    that two categories share, no token of the one has the name of a
    token of the other, so that [text-small] is a size and never a
    colour, and [bg-action-secondary] a gradient and never a colour. *)
Theorem class_names_unambiguous class token token' :
  (class, token) ∈ class_names extend →
  (class, token') ∈ class_names extend → token = token'.
Proof.
  assert (NoDup (class_names extend).*1) as H by reflect_decide.
  intros H1%(assoc_get_NoDup _ _ _ H) H2%(assoc_get_NoDup _ _ _ H).
  by simplify_eq.
Qed.

Lemma class_names_unambiguous_witness :
  ("fontSize", "small") = ("fontSize", "small").
Proof.
  apply (class_names_unambiguous "text-small"); reflect_decide.
Defined.
