(* ===== verification/Extend.v ===== *)
(** * Extend: what the theme does to the theme it extends

    The framework reads the [theme] of the configuration against a
    default theme of its own.  A category written directly under
    [theme] replaces the category of the default theme; a category
    written under [theme.extend] is added to it, token by token, and a
    token of the extension wins over a default token of the same name.

    This file states that reading for an arbitrary default theme:

    - [category_of] is the object of a category of a table;
    - [resolve_category] is the category the framework works with: the
      base (the category of [theme], or else of the default theme)
      followed by the category of [theme.extend], with the later
      binding winning as in an object literal with spread parts;
    - [resolve_token] reads a token of the resolved theme.

    That a token of the extension is read with the value of the source
    holds of every theme, by the way the merge is defined, and is no
    theorem on this one.  What depends on the source is the other half:
    every token that [theme.extend] does not write is read as the
    default theme has it, so no token of the default theme is lost,
    because [theme] has no key but [extend] ([replaced_categories]).
    The default theme is a variable of the section: nothing is assumed
    of it. *)

From S2P Require Import Prelude Lexical JsValue Config.

(** ** Resolution *)

(** The tokens of a category of a table; none when the table has no
    such category. *)
Definition category_of (table : props) (category : string) : props :=
  match assoc_get category table with
  | Some (VObject tokens) => tokens
  | _ => []
  end.

(** The category the framework works with. *)
Definition resolve_category (default thm : props) (category : string) : props :=
  match assoc_get category thm with
  | Some _ => category_of thm category
  | None => category_of default category
  end ++ category_of (category_of thm "extend") category.

Definition resolve_token (default thm : props) (category name : string) :
    option value :=
  assoc_get name (resolve_category default thm category).

(** The keys of a theme that replace a category of the default theme. *)
Definition replaced_categories (thm : props) : list string :=
  filter (λ k, k ≠ "extend") thm.*1.

(** ** Lemmas *)

Lemma assoc_get_not_replaced (thm : props) category :
  replaced_categories thm = [] → category ≠ "extend" →
  assoc_get category thm = None.
Proof.
  intros Hr Hc. apply assoc_get_None. intros Hin.
  assert (category ∈ replaced_categories thm) as Hin'
    by (apply list_elem_of_filter; by split).
  rewrite Hr in Hin'. by apply elem_of_nil in Hin'.
Qed.

Lemma resolve_token_default default thm category name :
  replaced_categories thm = [] → category ≠ "extend" →
  assoc_get name (category_of (category_of thm "extend") category) = None →
  resolve_token default thm category name
    = assoc_get name (category_of default category).
Proof.
  intros Hr Hc H. unfold resolve_token, resolve_category.
  by rewrite assoc_get_app, H, (assoc_get_not_replaced thm category).
Qed.

(** Reading a token of a category is reading along the path. *)
Lemma category_of_get table category name :
  Forall (λ p, kind_of p.2 = KObject) table →
  assoc_get name (category_of table category)
    = get_path (VObject table) [category; name].
Proof.
  intros Hobj. unfold category_of. cbn [get_path get].
  destruct (assoc_get category table) as [w|] eqn:E; [|done].
  apply assoc_get_Some_elem in E. rewrite Forall_forall in Hobj.
  specialize (Hobj _ E). destruct w as [| | |tokens]; try done. simpl.
  by destruct (assoc_get name tokens).
Qed.

(** ** Theorems *)

Section default_theme.
Context (default : props).

(** C18: whatever the default theme is, no token of it is lost and none
    is changed but by a token of [theme.extend] of the same category
    and name: [theme] replaces no category, because its only key is
    [extend]. *)
Theorem default_tokens_kept category name :
  category ≠ "extend" →
  (∀ v, (category, name, v) ∉ tokens_of extend) →
  resolve_token default theme category name
    = assoc_get name (category_of default category).
Proof.
  assert (table_ok extend = true) as Hok by by vm_compute.
  assert (replaced_categories theme = []) as Hr by by vm_compute.
  assert (category_of theme "extend" = extend) as Hext by reflexivity.
  intros Hc Hfresh. apply resolve_token_default; [done..|].
  rewrite Hext, category_of_get by by apply table_objects.
  destruct (get_path _ _) as [v|] eqn:E; [|done].
  destruct (Hfresh v). by apply table_lookup.
Qed.

End default_theme.

Lemma default_tokens_kept_witness :
  resolve_token [("colors", VObject [("black", VString "#000")])]
    theme "colors" "black" = Some (VString "#000").
Proof.
  apply (default_tokens_kept [("colors", VObject [("black", VString "#000")])]
           "colors" "black"); [done|].
  intros v Hin%(list_elem_of_fmap_2 fst). revert Hin. reflect_decide.
Defined.
