(* ===== verification/Glob.v ===== *)
(** * Glob: file patterns

    The strings of [content] are glob patterns: texts that stand for
    sets of file paths.  This file holds the part of the pattern
    language that the configuration uses, in three layers.

    - Brace expansion.  [{a,b}] stands for the alternatives [a] and
      [b]; a pattern with a group stands for the patterns with one
      alternative in its place, in the order written.  [p_braces] reads
      a text as [piece]s, [expand] lists the texts it stands for.
      Groups do not nest here, and a group has two alternatives at
      least; a text outside this subset is not read.
    - Patterns.  A brace-free pattern is a path of [segment]s divided
      by [/]: the segment [**] stands for any number of directories,
      every other segment is a name in which [*] stands for any
      characters of one name.  The characters that are operators of the
      full language ([?], brackets, parentheses, [!], [+], [@], [|], the
      backslash) are not read.  A leading [./] means nothing and is
      dropped.
    - Matching.  [match_glob] decides whether a path, as the list of its
      names, matches a pattern.  The flag [dot] says whether [*] and
      [**] stand for names that begin with a dot as well; tools differ
      in it, and the theorems hold for either choice.

    [glob_matches] is the specification of matching as an inductive
    relation, and [match_glob_spec] shows that [match_glob] decides it.

    Nothing here translates source lines: it is the meaning of the
    strings of [content]. *)

From S2P Require Import Prelude Lexical.

#[local] Open Scope char_scope.

(** ** Brace expansion *)

Inductive piece : Type :=
  | PChar (c : ascii)
  | PAlt (alts : list chars).

#[export] Instance piece_eq_dec : EqDecision piece.
Proof. solve_decision. Defined.

(** The pieces of a text.  [group] holds the alternatives read so far
    and the one being read while a group is open. *)
Fixpoint p_braces (group : option (list chars * chars)) (s : chars) :
    option (list piece) :=
  match s, group with
  | [], None => Some []
  | [], Some _ => None
  | c :: s', None =>
      if decide (c = "{") then p_braces (Some ([], [])) s'
      else if decide (c = "}") then None
      else (PChar c ::.) <$> p_braces None s'
  | c :: s', Some (alts, word) =>
      if decide (c = ",") then p_braces (Some (alts ++ [word], [])) s'
      else if decide (c = "}") then
        if decide (alts = []) then None
        else (PAlt (alts ++ [word]) ::.) <$> p_braces None s'
      else if decide (c = "{") then None
      else p_braces (Some (alts, word ++ [c])) s'
  end.

(** The texts a list of pieces stands for, the first group varying
    slowest. *)
Fixpoint expand (ps : list piece) : list chars :=
  match ps with
  | [] => [[]]
  | PChar c :: ps' => (c ::.) <$> expand ps'
  | PAlt alts :: ps' => a ← alts; (a ++.) <$> expand ps'
  end.

Definition print_piece (p : piece) : chars :=
  match p with
  | PChar c => [c]
  | PAlt alts => "{" :: join_with "," alts ++ ["}"]
  end.

Definition print_pieces (ps : list piece) : chars := ps ≫= print_piece.

Definition brace_char (c : ascii) : bool :=
  bool_decide (c = "{") || bool_decide (c = "}").

Definition wf_piece (p : piece) : Prop :=
  match p with
  | PChar c => brace_char c = false
  | PAlt alts =>
      2 ≤ length alts ∧
      Forall (Forall (λ c, brace_char c = false ∧ c ≠ ",")) alts
  end.

(** One choice for each piece: what a text of the expansion is made
    of. *)
Definition chosen (p : piece) (w : chars) : Prop :=
  match p with
  | PChar c => w = [c]
  | PAlt alts => w ∈ alts
  end.

(** ** Patterns *)

Inductive atom : Type :=
  | AChar (c : ascii)
  | AStar.

Inductive segment : Type :=
  | SGlobstar
  | SName (atoms : list atom).

Definition glob : Type := list segment.

#[export] Instance atom_eq_dec : EqDecision atom.
Proof. solve_decision. Defined.

#[export] Instance segment_eq_dec : EqDecision segment.
Proof. solve_decision. Defined.

(** The operators of the pattern language that are not read. *)
Definition operator (c : ascii) : bool :=
  bool_decide (c ∈ chars_of "?[]()!+@|") || bool_decide (c = "092").

Definition p_atom (c : ascii) : option atom :=
  if operator c then None
  else Some (if decide (c = "*") then AStar else AChar c).

Definition p_segment (s : chars) : option segment :=
  if decide (s = []) then None
  else if decide (s = chars_of "**") then Some SGlobstar
  else SName <$> mapM p_atom s.

(** A leading [./] means the directory the pattern is read in. *)
Definition strip_here (names : list chars) : list chars :=
  match names with
  | n :: names' => if decide (n = ["."]) then names' else names
  | [] => []
  end.

Definition p_glob (s : chars) : option glob :=
  mapM p_segment (strip_here (split_on "/" s)).

(** The patterns a string of [content] stands for. *)
Definition parse_globs (s : string) : option (list glob) :=
  ps ← p_braces None (chars_of s); mapM p_glob (expand ps).

Definition print_atom (a : atom) : ascii :=
  match a with AChar c => c | AStar => "*" end.

Definition print_segment (seg : segment) : chars :=
  match seg with
  | SGlobstar => chars_of "**"
  | SName p => print_atom <$> p
  end.

Definition print_glob (g : glob) : chars :=
  join_with "/" (print_segment <$> g).

Definition wf_atom (a : atom) : Prop :=
  match a with
  | AChar c => operator c = false ∧ c ≠ "*" ∧ c ≠ "/"
  | AStar => True
  end.

(** A name is not empty, and is not written as the segment [**]. *)
Definition wf_segment (seg : segment) : Prop :=
  match seg with
  | SGlobstar => True
  | SName p => p ≠ [] ∧ p ≠ [AStar; AStar] ∧ Forall wf_atom p
  end.

Definition wf_glob (g : glob) : Prop :=
  g ≠ [] ∧ Forall wf_segment g ∧ head g ≠ Some (SName [AChar "."]).

(** The pattern that matches one name, and the pattern that matches
    the names with a given ending. *)
Definition literal (name : chars) : segment := SName (AChar <$> name).
Definition ending (suffix : chars) : segment :=
  SName (AStar :: (AChar <$> suffix)).

(** ** Matching *)

(** A path is the list of its names, the file last. *)
Definition path_of (s : string) : list chars :=
  strip_here (split_on "/" (chars_of s)).

Fixpoint match_atoms (p : list atom) (s : chars) : bool :=
  match p with
  | [] => bool_decide (s = [])
  | AChar c :: p' =>
      match s with
      | c' :: s' => bool_decide (c = c') && match_atoms p' s'
      | [] => false
      end
  | AStar :: p' =>
      existsb (λ k, match_atoms p' (drop k s)) (seq 0 (S (length s)))
  end.

(** A name that begins with a dot is hidden. *)
Definition hidden (name : chars) : bool :=
  starts_with (λ c, bool_decide (c = ".")) name.

(** A pattern that itself begins with a dot asks for a hidden name. *)
Definition asks_hidden (p : list atom) : bool :=
  match p with
  | AChar c :: _ => bool_decide (c = ".")
  | _ => false
  end.

(** Whether a wildcard may stand for the name. *)
Definition visible (dot : bool) (name : chars) : bool := dot || negb (hidden name).

Definition match_name (dot : bool) (p : list atom) (name : chars) : bool :=
  match_atoms p name && (visible dot name || asks_hidden p).

Fixpoint match_glob (dot : bool) (g : glob) (path : list chars) : bool :=
  match g with
  | [] => bool_decide (path = [])
  | SName p :: g' =>
      match path with
      | name :: path' => match_name dot p name && match_glob dot g' path'
      | [] => false
      end
  | SGlobstar :: g' =>
      existsb (λ k, forallb (visible dot) (take k path) &&
                    match_glob dot g' (drop k path))
        (seq 0 (S (length path)))
  end.

(** ** Matching, specified *)

Inductive atoms_match : list atom → chars → Prop :=
  | atoms_match_nil : atoms_match [] []
  | atoms_match_char c p s :
      atoms_match p s → atoms_match (AChar c :: p) (c :: s)
  | atoms_match_star p w s :
      atoms_match p s → atoms_match (AStar :: p) (w ++ s).

Inductive glob_matches (dot : bool) : glob → list chars → Prop :=
  | glob_matches_nil : glob_matches dot [] []
  | glob_matches_name p g name path :
      atoms_match p name → visible dot name || asks_hidden p = true →
      glob_matches dot g path →
      glob_matches dot (SName p :: g) (name :: path)
  | glob_matches_globstar g dirs path :
      forallb (visible dot) dirs = true → glob_matches dot g path →
      glob_matches dot (SGlobstar :: g) (dirs ++ path).

(** ** Lemmas: brace expansion *)

(** Some split of a list satisfies a test exactly when the test holds
    of a suffix while the prefix is free. *)
Lemma existsb_splits {A} (f : nat → bool) (l : list A) :
  existsb f (seq 0 (S (length l))) = true ↔ ∃ k, k ≤ length l ∧ f k = true.
Proof.
  rewrite existsb_exists. split.
  - intros (k & Hk%in_seq & Hf). exists k. split; [lia|done].
  - intros (k & Hk & Hf). exists k. split; [apply in_seq; lia|done].
Qed.

Lemma elem_of_expand ps s :
  s ∈ expand ps ↔ ∃ ws, Forall2 chosen ps ws ∧ s = concat ws.
Proof.
  revert s. induction ps as [|[c|alts] ps IH]; intros s; simpl.
  - rewrite list_elem_of_singleton. split.
    + intros ->. by exists [].
    + by intros (ws & ->%Forall2_nil_inv_l & ->).
  - rewrite list_elem_of_fmap. split.
    + intros (t & -> & (ws & Hws & ->)%IH). exists ([c] :: ws).
      split; [by constructor|done].
    + intros (ws & (w & ws' & Hw & Hws & ->)%Forall2_cons_inv_l & ->).
      simpl in Hw. subst w. exists (concat ws'). split; [done|].
      apply IH. by exists ws'.
  - rewrite list_elem_of_bind. split.
    + intros (a & (t & -> & (ws & Hws & ->)%IH)%list_elem_of_fmap & Ha).
      exists (a :: ws). split; [by constructor|done].
    + intros (ws & (w & ws' & Hw & Hws & ->)%Forall2_cons_inv_l & ->).
      exists w. split; [|done]. apply list_elem_of_fmap.
      exists (concat ws'). split; [done|]. apply IH. by exists ws'.
Qed.

Lemma expand_length ps :
  length (expand ps)
    = foldr (λ p n, match p with PChar _ => n | PAlt alts => length alts * n end)
        1 ps.
Proof.
  induction ps as [|[c|alts] ps IH]; simpl; [done|by rewrite length_fmap|].
  rewrite <-IH. clear IH. induction alts as [|a alts IH]; [done|].
  simpl. rewrite length_app, length_fmap. by f_equal.
Qed.

(** Inside a group, the characters of a word are added to the word. *)
Lemma p_braces_word alts word w rest :
  Forall (λ c, brace_char c = false ∧ c ≠ ",") w →
  p_braces (Some (alts, word)) (w ++ rest)
    = p_braces (Some (alts, word ++ w)) rest.
Proof.
  revert word. induction w as [|c w IH]; intros word Hw.
  - by rewrite app_nil_r.
  - apply Forall_cons in Hw as [[Hc Hcomma] Hw]. simpl.
    unfold brace_char in Hc. apply orb_false_elim in Hc as [H1 H2].
    apply bool_decide_eq_false in H1, H2.
    rewrite !decide_False by done. rewrite IH by done.
    by rewrite <-app_assoc.
Qed.

(** Inside a group, the alternatives are read up to the closing
    brace. *)
Lemma p_braces_alts alts alts' rest :
  alts' ≠ [] → alts ++ removelast alts' ≠ [] →
  Forall (Forall (λ c, brace_char c = false ∧ c ≠ ",")) alts' →
  p_braces (Some (alts, [])) (join_with "," alts' ++ "}" :: rest)
    = (PAlt (alts ++ alts') ::.) <$> p_braces None rest.
Proof.
  revert alts. induction alts' as [|a alts' IH]; [done|].
  intros alts _ Hne [Ha Halts]%Forall_cons.
  destruct (decide (alts' = [])) as [->|Hne'].
  - simpl in *. rewrite app_nil_r in Hne. rewrite p_braces_word by done.
    simpl. by rewrite decide_False by done.
  - rewrite join_with_cons by done. rewrite <-app_assoc, p_braces_word by done.
    rewrite <-app_comm_cons. cbn [p_braces]. rewrite decide_True by done.
    cbn [app]. rewrite IH; [by rewrite <-app_assoc|done| |done].
    by destruct alts.
Qed.

Lemma p_braces_print ps :
  Forall wf_piece ps → p_braces None (print_pieces ps) = Some ps.
Proof.
  induction ps as [|[c|alts] ps IH]; [done|..]; intros [Hp Hps]%Forall_cons.
  - change (print_pieces (PChar c :: ps)) with (c :: print_pieces ps).
    simpl in Hp. unfold brace_char in Hp.
    apply orb_false_elim in Hp as [H1%bool_decide_eq_false H2%bool_decide_eq_false].
    cbn [p_braces]. rewrite !decide_False by done. by rewrite IH.
  - change (print_pieces (PAlt alts :: ps))
      with ("{" :: (join_with "," alts ++ ["}"]) ++ print_pieces ps).
    destruct Hp as [Hlen Halts]. cbn [p_braces]. rewrite decide_True by done.
    rewrite <-app_assoc. cbn [app].
    rewrite p_braces_alts; [by rewrite IH| | |done].
    + intros ->. simpl in Hlen. lia.
    + destruct alts as [|a [|b alts]]; simpl in *; [lia|lia|done].
Qed.

(** ** Lemmas: patterns *)

Lemma p_atom_print a : wf_atom a → p_atom (print_atom a) = Some a.
Proof.
  destruct a as [c|]; [|done]. intros (Hop & Hstar & _). unfold p_atom. simpl.
  by rewrite Hop, decide_False.
Qed.

Lemma print_atom_inj p q : print_atom <$> p = print_atom <$> q →
  Forall wf_atom p → Forall wf_atom q → p = q.
Proof.
  intros E Hp Hq. apply (inj Some). rewrite <-(mapM_fmap_Forall_Some p_atom print_atom p)
    by (eapply Forall_impl; [exact Hp|apply p_atom_print]).
  rewrite E. apply mapM_fmap_Forall_Some.
  eapply Forall_impl; [exact Hq|apply p_atom_print].
Qed.

Lemma p_segment_print seg :
  wf_segment seg → p_segment (print_segment seg) = Some seg.
Proof.
  destruct seg as [|p]; [done|]. intros (Hne & Hstars & Hp).
  unfold p_segment. simpl.
  rewrite decide_False by (by destruct p).
  rewrite decide_False.
  - rewrite mapM_fmap_Forall_Some; [done|].
    eapply Forall_impl; [exact Hp|apply p_atom_print].
  - intros E. apply Hstars. apply print_atom_inj; [done..|].
    by repeat constructor.
Qed.

Lemma print_segment_free seg : wf_segment seg → "/" ∉ print_segment seg.
Proof.
  destruct seg as [|p]; simpl.
  - intros _ H. by repeat (apply elem_of_cons in H as [H|H]; [done|]);
      apply elem_of_nil in H.
  - intros (_ & _ & Hp) (a & Ha & Hin)%list_elem_of_fmap.
    rewrite Forall_forall in Hp. specialize (Hp _ Hin).
    destruct a as [c|]; [|done]. simpl in *. by destruct Hp as (_ & _ & []).
Qed.

(** A printed pattern is read back. *)
Lemma p_glob_print g : wf_glob g → p_glob (print_glob g) = Some g.
Proof.
  intros (Hne & Hwf & Hhead). unfold p_glob, print_glob.
  rewrite split_join.
  - assert (strip_here (print_segment <$> g) = print_segment <$> g) as ->.
    { destruct g as [|seg g]; [done|]. simpl. rewrite decide_False; [done|].
      intros E. apply Hhead. simpl. f_equal.
      apply Forall_cons in Hwf as [Hseg _].
      destruct seg as [|p]; [done|]. f_equal. simpl in E.
      destruct Hseg as (_ & _ & Hp).
      apply print_atom_inj; [done..|]. repeat constructor; try done.
      all: by compute. }
    apply mapM_fmap_Forall_Some. eapply Forall_impl; [exact Hwf|].
    apply p_segment_print.
  - by destruct g.
  - apply Forall_fmap. eapply Forall_impl; [exact Hwf|].
    apply print_segment_free.
Qed.

(** ** Lemmas: matching *)

Lemma match_atoms_spec p s : match_atoms p s = true ↔ atoms_match p s.
Proof.
  revert s. induction p as [|[c|] p IH]; intros s; cbn [match_atoms].
  - rewrite bool_decide_eq_true. split; [intros ->; constructor|by inversion 1].
  - destruct s as [|c' s]; [split; [done|inversion 1]|].
    rewrite andb_true_iff, bool_decide_eq_true, IH. split.
    + intros [-> H]. by constructor.
    + inversion 1; by subst.
  - rewrite existsb_splits. split.
    + intros (k & _ & H%IH). rewrite <-(take_drop k s). by constructor.
    + inversion 1 as [| |p' w s' Hs]; subst. exists (length w).
      rewrite length_app, drop_app_length. split; [lia|by apply IH].
Qed.

Lemma match_glob_spec dot g path :
  match_glob dot g path = true ↔ glob_matches dot g path.
Proof.
  revert path. induction g as [|[|p] g IH]; intros path; cbn [match_glob].
  - rewrite bool_decide_eq_true. split; [intros ->; constructor|by inversion 1].
  - rewrite existsb_splits. split.
    + intros (k & _ & [Hv H%IH]%andb_true_iff).
      rewrite <-(take_drop k path). by constructor.
    + inversion 1 as [| |g' dirs path' Hv Hg]; subst. exists (length dirs).
      rewrite length_app, take_app_length, drop_app_length.
      split; [lia|]. apply andb_true_iff. split; [done|by apply IH].
  - destruct path as [|name path]; [split; [done|inversion 1]|].
    unfold match_name. rewrite !andb_true_iff, match_atoms_spec, IH. split.
    + intros [[? ?] ?]. by constructor.
    + inversion 1; by subst.
Qed.

#[export] Instance glob_matches_dec dot g path :
  Decision (glob_matches dot g path).
Proof.
  refine (cast_if (decide (match_glob dot g path = true)));
    by rewrite <-match_glob_spec.
Defined.

(** A name written out may be hidden. *)
Lemma literal_visible dot name :
  visible dot name || asks_hidden (AChar <$> name) = true.
Proof.
  unfold visible, hidden. destruct dot; [done|].
  destruct name as [|c name]; [done|]. simpl. by destruct (bool_decide (c = ".")).
Qed.

(** A name without wildcards matches itself only. *)
Lemma atoms_match_literal name s :
  atoms_match (AChar <$> name) s ↔ s = name.
Proof.
  revert s. induction name as [|c name IH]; intros s; simpl.
  - split; [by inversion 1|intros ->; constructor].
  - split.
    + inversion 1 as [|c' p s' Hs|]; subst. f_equal. by apply IH.
    + intros ->. constructor. by apply IH.
Qed.

(** [*] before an ending matches the names with that ending. *)
Lemma atoms_match_ending suffix s :
  atoms_match (AStar :: (AChar <$> suffix)) s ↔ ∃ stem, s = stem ++ suffix.
Proof.
  split.
  - inversion 1 as [| |p w s' Hs]; subst. apply atoms_match_literal in Hs.
    subst. by exists w.
  - intros [stem ->]. constructor. by apply atoms_match_literal.
Qed.

(** A pattern of literal names matches the path of these names. *)
Lemma glob_matches_literal dot names path :
  glob_matches dot (literal <$> names) path ↔ path = names.
Proof.
  revert path. induction names as [|n names IH]; intros path; simpl.
  - split; [by inversion 1|intros ->; constructor].
  - split.
    + inversion 1 as [|p g name path' Hn Hv Hg|]; subst.
      apply atoms_match_literal in Hn. apply IH in Hg. by subst.
    + intros ->. constructor; [by apply atoms_match_literal| |by apply IH].
      apply literal_visible.
Qed.

(** [dir/**/*suffix] matches the files below [dir] with that ending. *)
Lemma glob_matches_below dot dir suffix path :
  glob_matches dot [literal dir; SGlobstar; ending suffix] path ↔
  ∃ dirs stem, path = dir :: dirs ++ [stem ++ suffix] ∧
               forallb (visible dot) (dirs ++ [stem ++ suffix]) = true.
Proof.
  split.
  - inversion 1 as [|p g name path' Hn _ Hg|]; subst.
    apply atoms_match_literal in Hn. subst name.
    inversion Hg as [| |g dirs path'' Hdirs Hf]; subst.
    inversion Hf as [|p g name path' Hfile Hv Hnil|]; subst.
    inversion Hnil; subst. apply atoms_match_ending in Hfile as [stem ->].
    exists dirs, stem. split; [done|]. rewrite forallb_app, Hdirs. simpl.
    by rewrite orb_false_r in Hv; rewrite Hv.
  - intros (dirs & stem & -> & Hv). rewrite forallb_app in Hv.
    apply andb_true_iff in Hv as [Hdirs Hfile]. simpl in Hfile.
    rewrite andb_true_r in Hfile. constructor.
    + by apply atoms_match_literal.
    + apply literal_visible.
    + constructor; [done|]. constructor; [|by rewrite Hfile|constructor].
      apply atoms_match_ending. by exists stem.
Qed.
