(* ===== verification/Content.v ===== *)
(** * Content: the files the configuration asks to be scanned

    [content] lists two glob patterns.  Read with [Glob], they stand
    for six patterns without braces: the one file [index.html] of the
    project directory, and, for each of five file name endings, the
    files with that ending in [src] and in every directory below it.

    - [content_globs] is the list of these patterns, as read from the
      strings of [Config.content];
    - [scanned] says whether a path, given as the list of its names
      from the project directory, matches one of them;
    - [extensions] and [expected_globs] are what the strings are
      expected to stand for.

    The theorems describe the set of scanned paths without reference to
    the pattern language, and show that a scanned path matches one
    entry of the list of patterns and no more ([matching]), so that no
    file is scanned twice.  They hold whether
    or not wildcards stand for hidden names (the flag [dot] of
    [Glob]). *)

From S2P Require Import Prelude Lexical JsValue Config Glob.

(** ** The patterns *)

(** The patterns of [content], each string expanded and read. *)
Definition content_globs : option (list glob) :=
  gss ← mapM (λ v, match v with
                   | VString s => parse_globs s
                   | _ => None
                   end) content;
  Some (concat gss).

Definition content_patterns : list glob := default [] content_globs.

(** Whether the file at [path] is scanned for class names. *)
Definition scanned (dot : bool) (path : list chars) : bool :=
  match content_globs with
  | Some gs => existsb (λ g, match_glob dot g path) gs
  | None => false
  end.

(** The entries of [content_patterns] that the path matches, each as
    often as the list holds it. *)
Definition matching (dot : bool) (path : list chars) : list glob :=
  filter (λ g, glob_matches dot g path) content_patterns.

(** ** What the patterns are expected to be *)

Definition extensions : list string := ["svelte"; "js"; "ts"; "jsx"; "tsx"].

Definition ending_of (ext : string) : chars := "."%char :: chars_of ext.

(** The files with the extension [ext] at any depth below [src]. *)
Definition source_glob (ext : string) : glob :=
  [literal (chars_of "src"); SGlobstar; ending (ending_of ext)].

Definition expected_globs : list glob :=
  [literal (chars_of "index.html")] :: (source_glob <$> extensions).

(** No ending of the list ends another one: a file name has one of
    them at most. *)
Definition separate (exts : list string) : Prop :=
  Forall (λ e, Forall (λ e', ending_of e `suffix_of` ending_of e' → e = e')
                 exts) exts.

#[export] Instance separate_dec exts : Decision (separate exts).
Proof. unfold separate. apply _. Defined.

(** ** Lemmas *)

Lemma existsb_glob dot gs path :
  existsb (λ g, match_glob dot g path) gs = true ↔
  ∃ g, g ∈ gs ∧ glob_matches dot g path.
Proof.
  rewrite existsb_exists. setoid_rewrite <-list_elem_of_In.
  by setoid_rewrite match_glob_spec.
Qed.

(** A path is scanned when it matches an entry of the patterns. *)
Lemma scanned_patterns dot path :
  scanned dot path = true ↔
  ∃ g, g ∈ content_patterns ∧ glob_matches dot g path.
Proof.
  unfold scanned, content_patterns. rewrite <-existsb_glob.
  by destruct content_globs.
Qed.

Lemma separate_elem exts e e' :
  separate exts → e ∈ exts → e' ∈ exts →
  ending_of e `suffix_of` ending_of e' → e = e'.
Proof.
  unfold separate. rewrite Forall_forall. intros H He He'.
  specialize (H _ He). rewrite Forall_forall in H. by apply H.
Qed.

(** What a list of patterns of the expected form selects. *)
Lemma expected_selects dot root exts path :
  (∃ g, g ∈ [literal root] :: (source_glob <$> exts) ∧ glob_matches dot g path) ↔
  path = [root] ∨
  ∃ dirs stem ext, ext ∈ exts ∧
    path = chars_of "src" :: dirs ++ [stem ++ ending_of ext] ∧
    forallb (visible dot) (dirs ++ [stem ++ ending_of ext]) = true.
Proof.
  split.
  - intros (g & [->|(ext & -> & Hext)%list_elem_of_fmap]%elem_of_cons & Hg).
    + left. by apply (glob_matches_literal dot [root]).
    + right. apply glob_matches_below in Hg as (dirs & stem & -> & Hv).
      by exists dirs, stem, ext.
  - intros [->|(dirs & stem & ext & Hext & -> & Hv)].
    + exists [literal root]. split; [by left|].
      by apply (glob_matches_literal dot [root]).
    + exists (source_glob ext). split.
      * right. apply list_elem_of_fmap. by exists ext.
      * apply glob_matches_below. by exists dirs, stem.
Qed.

(** Two patterns of the expected form that match the same path are the
    same pattern, when the endings are separate. *)
Lemma expected_exclusive dot root exts path g g' :
  root ≠ chars_of "src" → separate exts →
  g ∈ [literal root] :: (source_glob <$> exts) →
  g' ∈ [literal root] :: (source_glob <$> exts) →
  glob_matches dot g path → glob_matches dot g' path → g = g'.
Proof.
  intros Hroot Hsep.
  intros [->|(e & -> & He)%list_elem_of_fmap]%elem_of_cons
         [->|(e' & -> & He')%list_elem_of_fmap]%elem_of_cons; [done|..].
  - intros ->%(glob_matches_literal dot [root])
           (dirs & stem & [= ? ?] & _)%glob_matches_below. done.
  - intros (dirs & stem & -> & _)%glob_matches_below
           [= ? ?]%(glob_matches_literal dot [root]). by subst.
  - intros (dirs & stem & -> & _)%glob_matches_below
           (dirs' & stem' & [= H] & _)%glob_matches_below.
    apply app_inj_2 in H as [_ [= H]]; [|done].
    assert (ending_of e `suffix_of` stem ++ ending_of e) as H1
      by apply suffix_app_r, reflexivity.
    assert (ending_of e' `suffix_of` stem ++ ending_of e) as H2
      by (rewrite H; apply suffix_app_r, reflexivity).
    destruct (suffix_weak_total _ _ _ H1 H2) as [Hs|Hs].
    + by rewrite (separate_elem exts e e').
    + by rewrite (separate_elem exts e' e).
Qed.

(** ** Theorems *)

(** C12: the files that [content] asks to be scanned are [index.html]
    in the project directory and, below [src] at any depth, the files
    whose name ends in [.svelte], [.js], [.ts], [.jsx] or [.tsx]; no
    other file is scanned.  Where wildcards do not stand for hidden
    names, neither the file nor a directory on the way may begin with a
    dot. *)
Theorem content_selects_sources dot path :
  scanned dot path = true ↔
  path = [chars_of "index.html"] ∨
  ∃ dirs stem ext, ext ∈ extensions ∧
    path = chars_of "src" :: dirs ++ [stem ++ ending_of ext] ∧
    forallb (visible dot) (dirs ++ [stem ++ ending_of ext]) = true.
Proof.
  assert (Forall (.∈ expected_globs) content_patterns ∧
          Forall (.∈ content_patterns) expected_globs) as [H1 H2]
    by reflect_decide.
  rewrite Forall_forall in H1, H2.
  rewrite scanned_patterns, <-expected_selects. naive_solver.
Qed.

(** C27: every scanned path matches exactly one entry of the
    patterns of [content], and a path that is not scanned matches
    none: no file is scanned twice.  The entries are counted as the
    list holds them, so an ending written twice in the braces would be
    two entries. *)
Theorem scanned_by_one_pattern dot path :
  length (matching dot path) = if scanned dot path then 1 else 0.
Proof.
  assert (content_patterns = expected_globs) as Hpat by by vm_compute.
  assert (NoDup expected_globs) as Hnd by reflect_decide.
  assert (separate extensions) as Hsep by reflect_decide.
  unfold matching. rewrite filter_at_most_one.
  - pose proof (scanned_patterns dot path) as Hs.
    setoid_rewrite <-Exists_exists in Hs.
    destruct (scanned dot path); case_decide; naive_solver.
  - by rewrite Hpat.
  - rewrite Hpat. intros g g'. by apply expected_exclusive.
Qed.

(** Some paths, with wildcards standing for visible names only: the
    sources are scanned at any depth, style sheets and the
    dependencies are not, and neither is a second [index.html]. *)
Example scanned_paths :
  (scanned false <$> (path_of <$>
     ["index.html"; "./src/App.svelte"; "src/lib/ui/Knob.svelte";
      "src/main.ts"; "src/vite-env.d.ts"]) = [true; true; true; true; true]) ∧
  (scanned false <$> (path_of <$>
     ["src/app.css"; "public/index.html"; "src/index.html";
      "node_modules/svelte/index.js"; "tailwind.config.js";
      "src/.cache/chunk.js"; "src/main.tsx.bak"])
     = [false; false; false; false; false; false; false]) ∧
  scanned true (path_of "src/.cache/chunk.js") = true.
Proof. by vm_compute. Qed.
